(** * Miro DAAP sharing engine: a shallow embedding of [tv/lib/sharing.py]

    The development follows the layout of the Python module:

    - [Share]    : [class Share] and its process-wide set of used database paths;
    - [Tracker]  : [class SharingTracker], the mDNS discovery callbacks;
    - [Client]   : [_ClientPlaylistTracker] and [SharingItemTrackerImpl],
                   the merge of a snapshot or delta into the mirrored database;
    - [Backend]  : [class SharingManagerBackend], the published catalog, its
                   revision counter, the long poll and the transcode jobs.

    Python dictionaries are finite maps ([gmap]), Python sets are [gset],
    exceptions are an explicit [Raise] result, and every method that mutates
    [self] takes the object's state and returns the new one. *)

From Stdlib Require Import DecimalString.
From stdpp Require Import gmap strings list fin_maps pretty.

#[local] Open Scope Z_scope.

(** ** Python values, exceptions and results *)

(** The dynamically typed values that travel through the DAAP dictionaries. *)
Inductive pyval :=
  | PNone
  | PBool (b : bool)
  | PInt (z : Z)
  | PStr (s : string)        (* a byte string, [str] in Python 2 *)
  | PUnicode (s : string).   (* a text string, [unicode] in Python 2 *)

#[global] Instance pyval_eq_dec : EqDecision pyval.
Proof. solve_decision. Defined.

(** Truthiness, as tested by [if v:] and [not v]. *)
Definition truthy (v : pyval) : bool :=
  match v with
  | PNone => false
  | PBool b => b
  | PInt z => negb (z =? 0)
  | PStr s | PUnicode s => negb (String.eqb s "")
  end.

Inductive exn :=
  | KeyError
  | ValueError
  | TypeError
  | IOError
  | AssertionError
  | UnboundLocalError
  | ObjectNotFound.

#[global] Instance exn_eq_dec : EqDecision exn.
Proof. solve_decision. Defined.

(** What a call produces: a value, or an exception that leaves the call. *)
Inductive outcome (A : Type) :=
  | Ok (a : A)
  | Raise (e : exn).
Arguments Ok {A} a.
Arguments Raise {A} e.

(** Methods are state transformers that may raise; the state reached when the
    exception left the method is kept, since Python does not roll back. *)
Definition M (S A : Type) : Type := S → outcome A * S.

Definition ret {S A} (a : A) : M S A := λ s, (Ok a, s).
Definition raise {S A} (e : exn) : M S A := λ s, (Raise e, s).
Definition bind {S A B} (m : M S A) (k : A → M S B) : M S B :=
  λ s, match m s with
       | (Ok a, s') => k a s'
       | (Raise e, s') => (Raise e, s')
       end.
Definition get {S} : M S S := λ s, (Ok s, s).
Definition modify {S} (f : S → S) : M S unit := λ s, (Ok tt, f s).

(** [try: m except e: h] *)
Definition try_except {S A} (m : M S A) (e : exn) (h : M S A) : M S A :=
  λ s, match m s with
       | (Raise e', s') => if decide (e' = e) then h s' else (Raise e', s')
       | r => r
       end.

(** [d[k]] on a dictionary: [KeyError] when the key is absent. *)
Definition subscript {S K A} `{Countable K} (d : gmap K A) (k : K) : M S A :=
  match d !! k with
  | Some a => ret a
  | None => raise KeyError
  end.

Declare Scope py_scope.
Delimit Scope py_scope with py.
Notation "x ←' m ; k" := (bind m (λ x, k))
  (at level 20, m at level 100, k at level 200, right associativity,
   format "'[v' x  ←'  m ; '/' k ']'") : py_scope.
Notation "m ;;' k" := (bind m (λ _, k))
  (at level 100, k at level 200, right associativity) : py_scope.

(** [for x in xs: body x] *)
Fixpoint for_each {S A} (xs : list A) (body : A → M S unit) : M S unit :=
  match xs with
  | [] => ret tt
  | x :: rest => bind (body x) (λ _, for_each rest body)
  end.

(** [for x in xs:] with a local variable carried from round to round. *)
Fixpoint fold_each {S A B} (xs : list A) (b : B) (body : B → A → M S B)
    : M S B :=
  match xs with
  | [] => ret b
  | x :: rest => bind (body b x) (λ b', fold_each rest b' body)
  end.

(** A method leaves a component [f] of the state alone, whether it returns
    or raises. *)
Definition preserves {S A X} (f : S → X) (m : M S A) : Prop :=
  ∀ s, f (m s).2 = f s.

(** A method keeps an invariant [I] of the state, whether it returns or
    raises. *)
Definition maintains {S A} (I : S → Prop) (m : M S A) : Prop :=
  ∀ s, I s → I (m s).2.

(** Every run of a method relates the state it starts in to the state it
    ends in, whether it returns or raises. *)
Definition extends {S A} (R : S → S → Prop) (m : M S A) : Prop :=
  ∀ s, R s (m s).2.

(** ** [class Share] *)

Module Share.

(** The part of the process and of the disk that [Share] touches. *)
Record world := World {
  used_db_paths : gset string;   (* the class attribute [_used_db_paths] *)
  files : gset string;           (* paths for which [os.path.exists] holds *)
  undeletable : gset string      (* paths on which [os.remove] raises *)
}.

Record t := Make {
  id : Z;
  name : string;
  host : string;
  port : Z;
  db_path : option string;
  db : option string             (* the open storage, named by its path *)
}.

(** [os.path.join(support_dir, name)] with POSIX separators. *)
Definition os_path_join (dir name : string) : string :=
  if String.eqb dir "" then name
  else if String.eqb (String.substring (String.length dir - 1) 1 dir) "/"
       then dir +:+ name
       else dir +:+ "/" +:+ name.

(** [os.path.join(support_dir, 'sharing-db-%s' % i)] *)
Definition candidate (support_dir : string) (i : nat) : string :=
  os_path_join support_dir ("sharing-db-" +:+ pretty i).

(** [storedatabase.SharingLiveStorage(path, ...)] opens the database file,
    creating it. *)
Definition make_new_database (path : string) : M world string :=
  λ w, (Ok path, World (used_db_paths w) ({[path]} ∪ files w) (undeletable w)).

(** [os.remove(path)] *)
Definition os_remove (path : string) : M world unit :=
  λ w, if decide (path ∈ undeletable w) then (Raise IOError, w)
       else (Ok tt, World (used_db_paths w) (files w ∖ {[path]}) (undeletable w)).

(** The body of [for i in xrange(300)] in [find_unused_db], over the indices
    still to be probed; running off the end is the [AssertionError]. *)
Fixpoint probe (support_dir : string) (indices : list nat)
    : M world (string * string) :=
  match indices with
  | [] => raise AssertionError
  | i :: rest =>
      let c := candidate support_dir i in
      λ w,
        if decide (c ∈ used_db_paths w) then probe support_dir rest w
        else if decide (c ∈ files w) then
          match os_remove c w with
          | (Ok _, w') =>
              bind (make_new_database c) (λ d, ret (c, d)) w'
          | (Raise _, w') => probe support_dir rest w'
          end
        else bind (make_new_database c) (λ d, ret (c, d)) w
  end.

Definition find_unused_db (support_dir : string) : M world (string * string) :=
  probe support_dir (seq 0 300).

(** [Share.__init__] *)
Definition init (support_dir : string) (share_id : Z) (name host : string)
    (port : Z) : M world t :=
  (r ←' find_unused_db support_dir;
   modify (λ w, World ({[r.1]} ∪ used_db_paths w) (files w) (undeletable w)) ;;'
   ret (Make share_id name host port (Some r.1) (Some r.2)))%py.

(** [fileutil.delete(path)]: the file is gone afterwards when it can be
    removed. *)
Definition fileutil_delete (path : string) : M world unit :=
  λ w, if decide (path ∈ undeletable w) then (Ok tt, w)
       else (Ok tt, World (used_db_paths w) (files w ∖ {[path]}) (undeletable w)).

(** [Share.destroy]: closes the storage, deletes the file and clears the
    three attributes.  [_used_db_paths] is not touched. *)
Definition destroy (s : t) : M world t :=
  (match db_path s with
   | Some p => if String.eqb p "" then ret tt else fileutil_delete p
   | None => ret tt
   end ;;'
   ret (Make (id s) (name s) (host s) (port s) None None))%py.

End Share.

(** ** [class SharingTracker] *)

Module Tracker.

(** The built-in [hash] applied to the tuple [(host, port)]. *)
Class Runtime := { py_hash : string * Z → Z }.

(** [messages.SharingInfo], the object kept per advertised share.  The two
    handles are [None] or the identity of a timer or of a UUID. *)
Record sharing_info := Info {
  share_id : Z;
  name : string;
  host : string;
  port : Z;
  mount : bool;
  share_available : bool;
  stale_callback : option nat;
  connect_uuid : option nat
}.

(** Modelled from the spec: [messages.SharingInfo(share)] lives in
    [messages.py]; a fresh info copies the share's identity, is neither
    mounted nor available, and carries no timer and no stamp. *)
Definition SharingInfo (s : Share.t) : sharing_info :=
  Info (Share.id s) (Share.name s) (Share.host s) (Share.port s)
       false false None None.

Inductive message :=
  | TabsChanged (added changed removed : list sharing_info)
  | SharingDisappeared (share : sharing_info).

Record state := State {
  own_name : string;                     (* [app.sharing_manager.name] *)
  support_dir : string;                  (* [prefs.SUPPORT_DIRECTORY] *)
  name_to_id_map : gmap string Z;
  trackers : gset Z;                     (* keys of [self.trackers] *)
  shares : gmap Z Share.t;
  available_shares : gmap Z sharing_info;
  world : Share.world;
  timers : gmap nat (Z * sharing_info);  (* pending event-loop timeouts *)
  test_connects : list (Z * nat);        (* scheduled [testconnect] calls *)
  next_handle : nat;                     (* next timer or UUID identity *)
  outbox : list message                  (* [send_to_frontend], oldest first *)
}.

Definition set_names (f : gmap string Z → gmap string Z) (s : state) :=
  State (own_name s) (support_dir s) (f (name_to_id_map s)) (trackers s)
    (shares s) (available_shares s) (world s) (timers s) (test_connects s)
    (next_handle s) (outbox s).
Definition set_shares (f : gmap Z Share.t → gmap Z Share.t) (s : state) :=
  State (own_name s) (support_dir s) (name_to_id_map s) (trackers s)
    (f (shares s)) (available_shares s) (world s) (timers s) (test_connects s)
    (next_handle s) (outbox s).
Definition set_available
    (f : gmap Z sharing_info → gmap Z sharing_info) (s : state) :=
  State (own_name s) (support_dir s) (name_to_id_map s) (trackers s)
    (shares s) (f (available_shares s)) (world s) (timers s) (test_connects s)
    (next_handle s) (outbox s).
Definition set_world (w : Share.world) (s : state) :=
  State (own_name s) (support_dir s) (name_to_id_map s) (trackers s)
    (shares s) (available_shares s) w (timers s) (test_connects s)
    (next_handle s) (outbox s).
Definition set_timers
    (f : gmap nat (Z * sharing_info) → gmap nat (Z * sharing_info))
    (s : state) :=
  State (own_name s) (support_dir s) (name_to_id_map s) (trackers s)
    (shares s) (available_shares s) (world s) (f (timers s)) (test_connects s)
    (next_handle s) (outbox s).
Definition add_test_connect (c : Z * nat) (s : state) :=
  State (own_name s) (support_dir s) (name_to_id_map s) (trackers s)
    (shares s) (available_shares s) (world s) (timers s)
    (test_connects s ++ [c]) (next_handle s) (outbox s).
Definition bump_handle (s : state) :=
  State (own_name s) (support_dir s) (name_to_id_map s) (trackers s)
    (shares s) (available_shares s) (world s) (timers s) (test_connects s)
    (S (next_handle s)) (outbox s).
Definition send_to_frontend (m : message) : M state unit :=
  modify (λ s,
    State (own_name s) (support_dir s) (name_to_id_map s) (trackers s)
      (shares s) (available_shares s) (world s) (timers s) (test_connects s)
      (next_handle s) (outbox s ++ [m])).

(** A method of [Share] run on the tracker's view of the world. *)
Definition in_world {A} (m : M Share.world A) : M state A :=
  λ s, let '(r, w) := m (world s) in (r, set_world w s).

(** [uuid.uuid4()] and the handle returned by [eventloop.add_timeout]. *)
Definition fresh : M state nat :=
  λ s, (Ok (next_handle s), bump_handle s).

Definition with_name (n : string) (i : sharing_info) : sharing_info :=
  Info (share_id i) n (host i) (port i) (mount i) (share_available i)
       (stale_callback i) (connect_uuid i).
Definition with_stale (c : option nat) (i : sharing_info) : sharing_info :=
  Info (share_id i) (name i) (host i) (port i) (mount i) (share_available i)
       c (connect_uuid i).
Definition with_uuid (u : option nat) (i : sharing_info) : sharing_info :=
  Info (share_id i) (name i) (host i) (port i) (mount i) (share_available i)
       (stale_callback i) u.
Definition with_available (b : bool) (i : sharing_info) : sharing_info :=
  Info (share_id i) (name i) (host i) (port i) (mount i) b
       (stale_callback i) (connect_uuid i).

(** [if info.stale_callback: info.stale_callback.cancel();
     info.stale_callback = None], on the info stored under key [k]. *)
Definition cancel_stale (k : Z) (i : sharing_info) : M state sharing_info :=
  match stale_callback i with
  | Some h =>
      (modify (set_timers (delete h)) ;;'
       modify (set_available <[k := with_stale None i]>) ;;'
       ret (with_stale None i))%py
  | None => ret i
  end.

(** [destroy_share] *)
Definition destroy_share (sid : Z) : M state unit :=
  (s ←' get;
   sh ←' subscript (shares s) sid;
   in_world (Share.destroy sh) ;;'
   modify (set_shares (delete sid)))%py.

(** [remove_timeout_callback] *)
Definition remove_timeout_callback (sid : Z) (share_info : sharing_info)
    : M state unit :=
  (s ←' get;
   subscript (available_shares s) sid ;;'
   modify (set_available (delete sid)) ;;'
   destroy_share sid ;;'
   send_to_frontend (SharingDisappeared share_info))%py.

(** The [success] closure of [try_to_add]. *)
Definition try_to_add_success (sid : Z) (uuid : nat) : M state unit :=
  (s ←' get;
   match available_shares s !! sid with
   | Some info =>
       if decide (connect_uuid info = Some uuid) then
         let info' := with_available true (with_uuid None info) in
         modify (set_available <[sid := info']>) ;;'
         send_to_frontend (TabsChanged [info'] [] [])
       else ret tt
   | None => ret tt
   end)%py.

(** The [failure] closure of [try_to_add]. *)
Definition try_to_add_failure (sid : Z) (uuid : nat) : M state unit :=
  (s ←' get;
   match available_shares s !! sid with
   | Some info =>
       if decide (connect_uuid info = Some uuid) then
         modify (set_available <[sid := with_uuid None info]>)
       else ret tt
   | None => ret tt
   end)%py.

(** [try_to_add]: hands [testconnect] to a worker thread; one of the two
    closures above runs on the event loop when it is done. *)
Definition try_to_add (sid : Z) (uuid : nat) : M state unit :=
  modify (add_test_connect (sid, uuid)).

(** How the test connect scheduled by [try_to_add] has ended, if it has:
    the worker thread is still busy, or one of the two closures has run. *)
Inductive test_result := Pending | Failed | Succeeded.

Definition finish_test (o : test_result) (sid : Z) (uuid : nat)
    : M state unit :=
  match o with
  | Pending => ret tt
  | Failed => try_to_add_failure sid uuid
  | Succeeded => try_to_add_success sid uuid
  end.

Section Callback.
Context `{Runtime}.

(** [abs(hash((host, port)))] *)
Definition compute_share_id (h : string) (p : Z) : Z :=
  Z.abs (py_hash (h, p)).

(** The first half of [mdns_callback_backend]: the id of the share the
    event is about, or [None] when the method returns early. *)
Definition resolve_share_id (added : bool) (fullname h : string) (p : Z)
    : M state (option Z) :=
  (if added then
     let sid := compute_share_id h p in
     modify (set_names <[fullname := sid]>) ;;'
     ret (Some sid)
   else
     s ←' get;
     match name_to_id_map s !! fullname with
     | Some sid =>
         modify (set_names (delete fullname)) ;;'
         s' ←' get;
         if decide (sid ∈ (map_to_list (name_to_id_map s')).*2)
         then ret None
         else ret (Some sid)
     | None => ret None
     end)%py.

(** The loop looking for a mounted share with the same host and port. *)
Definition find_mounted (h : string) (p : Z) (s : state)
    : option (Z * sharing_info) :=
  list_find
    (λ kv : Z * sharing_info,
       mount kv.2 = true ∧ host kv.2 = h ∧ port kv.2 = p)
    (map_to_list (available_shares s)) ≫= λ r, Some r.2.

Definition on_added (sid : Z) (fullname h : string) (p : Z)
    : M state unit :=
  (s ←' get;
   match find_mounted h p s with
   | Some (k, info) =>
       info ←' cancel_stale k info;
       let info' := with_name fullname info in
       modify (set_available <[k := info']>) ;;'
       send_to_frontend (TabsChanged [] [info'] [])
   | None =>
       match available_shares s !! sid with
       | Some info =>
           let info := with_name fullname info in
           modify (set_available <[sid := info]>) ;;'
           if share_available info then
             info ←' cancel_stale sid info;
             send_to_frontend (TabsChanged [] [info] [])
           else ret tt
       | None =>
           share ←' in_world
             (Share.init (support_dir s) sid fullname h p);
           modify (set_shares <[sid := share]>) ;;'
           uuid ←' fresh;
           modify (set_available
                     <[sid := with_uuid (Some uuid) (SharingInfo share)]>) ;;'
           try_to_add sid uuid
       end
   end)%py.

Definition on_removed (sid : Z) : M state unit :=
  (s ←' get;
   if decide (sid ∉ trackers s) then
     victim ←' subscript (available_shares s) sid;
     modify (set_available (delete sid)) ;;'
     destroy_share sid ;;'
     match connect_uuid victim with
     | None => send_to_frontend (SharingDisappeared victim)
     | Some _ => ret tt
     end
   else
     share_info ←' subscript (available_shares s) sid;
     dc ←' fresh;
     modify (set_timers <[dc := (sid, share_info)]>) ;;'
     match stale_callback share_info with
     | Some old => modify (set_timers (delete old))
     | None => ret tt
     end ;;'
     modify (set_available <[sid := with_stale (Some dc) share_info]>))%py.

(** [mdns_callback_backend] *)
Definition mdns_callback_backend (added : bool) (fullname h : string)
    (p : Z) : M state unit :=
  (s ←' get;
   if String.eqb fullname (own_name s) then ret tt
   else
     r ←' resolve_share_id added fullname h p;
     match r with
     | None => ret tt
     | Some sid =>
         if added then on_added sid fullname h p else on_removed sid
     end)%py.

(** *** The tracker's books *)

(** [SharingTracker.__init__]: nothing is known yet, and no share has a
    tracker. *)
Definition init (own support : string) (w : Share.world) : state :=
  State own support ∅ ∅ ∅ ∅ w ∅ [] 0 [].

(** The three dictionaries agree: a share is on file exactly when its info
    is, every info is filed under the id of its host and port, and every
    advertised name leads to an info. *)
Definition consistent (s : state) : Prop :=
  dom (shares s) = dom (available_shares s)
  ∧ (∀ k info, available_shares s !! k = Some info →
       compute_share_id (host info) (port info) = k)
  ∧ (∀ n sid, name_to_id_map s !! n = Some sid →
       sid ∈ dom (available_shares s)).

(** One callback on the event loop that has returned: an mDNS event, or the
    end of a test connect that [try_to_add] has scheduled. *)
Inductive step (s : state) : state → Prop :=
  | step_mdns added fullname h p s' :
      mdns_callback_backend added fullname h p s = (Ok tt, s') → step s s'
  | step_test o sid uuid :
      (sid, uuid) ∈ test_connects s → step s (finish_test o sid uuid s).2.

End Callback.

End Tracker.

(** ** The DAAP field tables *)

Definition DAAP_PODCAST_KEY : string := "com.apple.itunes.is-podcast-playlist".

(** Conversion factor between the local duration and DAAP's milliseconds. *)
Definition DURATION_SCALE : Z := 1000.

Definition MIRO_ITEMKIND_MOVIE : Z := Z.shiftl 1 0.
Definition MIRO_ITEMKIND_PODCAST : Z := Z.shiftl 1 1.
Definition MIRO_ITEMKIND_SHOW : Z := Z.shiftl 1 2.
Definition MIRO_ITEMKIND_CLIP : Z := Z.shiftl 1 3.

Definition miro_itemkind_mapping : list (string * Z) :=
  [ ("movie", MIRO_ITEMKIND_MOVIE);
    ("show", MIRO_ITEMKIND_SHOW);
    ("clip", MIRO_ITEMKIND_CLIP);
    ("podcast", MIRO_ITEMKIND_PODCAST) ]%string.

Definition miro_itemkind_rmapping : list (Z * string) :=
  [ (MIRO_ITEMKIND_MOVIE, "movie");
    (MIRO_ITEMKIND_SHOW, "show");
    (MIRO_ITEMKIND_CLIP, "clip");
    (MIRO_ITEMKIND_PODCAST, "podcast") ]%string.

(** DAAP key to [SharingItem] attribute, used when importing. *)
Definition daap_mapping : list (string * string) :=
  [ ("daap.songformat", "file_format");
    ("com.apple.itunes.mediakind", "file_type");
    ("dmap.itemid", "daap_id");
    ("dmap.itemname", "title");
    ("daap.songtime", "duration");
    ("daap.songsize", "size");
    ("daap.songartist", "artist");
    ("daap.songalbumartist", "album_artist");
    ("daap.songalbum", "album");
    ("daap.songyear", "year");
    ("daap.songgenre", "genre");
    ("daap.songtracknumber", "track");
    ("org.participatoryculture.miro.itemkind", "kind");
    ("com.apple.itunes.series-name", "show");
    ("com.apple.itunes.season-num", "season_number");
    ("com.apple.itunes.episode-num-str", "episode_id");
    ("com.apple.itunes.episode-sort", "episode_number") ]%string.

(** [ItemInfo] attribute to DAAP key, used when exporting. *)
Definition daap_rmapping : list (string * string) :=
  [ ("file_format", "daap.songformat");
    ("file_type", "com.apple.itunes.mediakind");
    ("daap_id", "dmap.itemid");
    ("name", "dmap.itemname");
    ("duration", "daap.songtime");
    ("size", "daap.songsize");
    ("artist", "daap.songartist");
    ("album_artist", "daap.songalbumartist");
    ("album", "daap.songalbum");
    ("year", "daap.songyear");
    ("genre", "daap.songgenre");
    ("track", "daap.songtracknumber");
    ("kind", "org.participatoryculture.miro.itemkind");
    ("show", "com.apple.itunes.series-name");
    ("season_number", "com.apple.itunes.season-num");
    ("episode_id", "com.apple.itunes.episode-num-str");
    ("episode_number", "com.apple.itunes.episode-sort") ]%string.

(** [table[k]] on one of the literal tables above. *)
Fixpoint assoc {A} (table : list (string * A)) (k : string) : option A :=
  match table with
  | [] => None
  | (k', a) :: rest => if String.eqb k k' then Some a else assoc rest k
  end.

(** [table[k]] on a table keyed by integers. *)
Fixpoint assoc_int {A} (table : list (Z * A)) (k : Z) : option A :=
  match table with
  | [] => None
  | (k', a) :: rest => if k =? k' then Some a else assoc_int rest k
  end.

(** The media kinds of [libdaap], which is not part of this module. *)
Class Libdaap := {
  DAAP_MEDIAKIND_AUDIO : Z;
  DAAP_MEDIAKIND_TV : Z;
  DAAP_MEDIAKIND_MOVIE : Z;
  DAAP_MEDIAKIND_VIDEO : Z
}.

(** Python's codecs: [s.decode('utf-8')] raises [UnicodeDecodeError], a
    [ValueError], on malformed input; [u.encode('utf-8')] always succeeds. *)
Class Codec := {
  utf8_decode : string → option string;
  utf8_encode : string → string
}.

(** [v == n] for an integer [n]. *)
Definition py_eq_int (v : pyval) (n : Z) : bool :=
  match v with
  | PInt z => z =? n
  | PBool b => (if b then 1 else 0) =? n
  | _ => false
  end.

(** ** [_ClientUpdateResult], [_ClientPlaylistTracker], [SharingItemTrackerImpl] *)

Module Client.

(** A dictionary of DAAP fields, as [libdaap] returns it. *)
Abbreviation daap_dict := (gmap string pyval).

(** [_ClientUpdateResult], once [fetch_from_client] has filled it.  [items]
    is kept in the order in which [result.items.items()] yields it. *)
Record update_result := Result {
  items : list (Z * daap_dict);
  item_paths : gmap Z string;
  deleted_items : list Z;
  playlists : gmap Z daap_dict;
  deleted_playlists : list Z;
  playlist_items : gmap Z (list Z);
  playlist_deleted_items : gmap Z (list Z)
}.

(** A key of [mappings.SharingItemPlaylistMap]: a DAAP playlist id, or one
    of the two names [u'podcast'] and [u'playlist']. *)
Abbreviation playlist_key := (Z + string)%type.

Inductive playlist_info :=
  | SharingPlaylistInfo (share_id : Z) (name : pyval) (daap_id : Z)
                        (podcast : pyval).

Inductive event :=
  | TabsChanged (added changed : list playlist_info) (removed : list Z)
  | PlaylistChanged (share_id : Z)
  | SignalChange (daap_id : Z)
  | Warn (msg : string) (arg : Z).

(** [SharingItemTrackerImpl] with its [_ClientPlaylistTracker] inlined as
    [playlist_data] and [playlist_items], and the share's mirrored database
    as [db], the [SharingItem] rows by DAAP id. *)
Record state := State {
  share_id : Z;
  client_host : string;
  client_port : Z;
  address : string;
  current_item_ids : gset Z;
  current_playlist_ids : gset Z;
  playlist_data : gmap Z daap_dict;
  tracker_items : gmap Z (gset Z);          (* [playlist_tracker.playlist_items] *)
  playlist_item_map : gmap playlist_key (gset Z);
  db : gmap Z daap_dict;
  trace : list event
}.

Definition set_db (f : gmap Z daap_dict → gmap Z daap_dict) (s : state) :=
  State (share_id s) (client_host s) (client_port s) (address s)
    (current_item_ids s) (current_playlist_ids s) (playlist_data s)
    (tracker_items s) (playlist_item_map s) (f (db s)) (trace s).
Definition set_current_item_ids (f : gset Z → gset Z) (s : state) :=
  State (share_id s) (client_host s) (client_port s) (address s)
    (f (current_item_ids s)) (current_playlist_ids s) (playlist_data s)
    (tracker_items s) (playlist_item_map s) (db s) (trace s).
Definition set_current_playlist_ids (f : gset Z → gset Z) (s : state) :=
  State (share_id s) (client_host s) (client_port s) (address s)
    (current_item_ids s) (f (current_playlist_ids s)) (playlist_data s)
    (tracker_items s) (playlist_item_map s) (db s) (trace s).
Definition set_playlist_data
    (f : gmap Z daap_dict → gmap Z daap_dict) (s : state) :=
  State (share_id s) (client_host s) (client_port s) (address s)
    (current_item_ids s) (current_playlist_ids s) (f (playlist_data s))
    (tracker_items s) (playlist_item_map s) (db s) (trace s).
Definition set_tracker_items
    (f : gmap Z (gset Z) → gmap Z (gset Z)) (s : state) :=
  State (share_id s) (client_host s) (client_port s) (address s)
    (current_item_ids s) (current_playlist_ids s) (playlist_data s)
    (f (tracker_items s)) (playlist_item_map s) (db s) (trace s).
Definition set_playlist_item_map
    (f : gmap playlist_key (gset Z) → gmap playlist_key (gset Z))
    (s : state) :=
  State (share_id s) (client_host s) (client_port s) (address s)
    (current_item_ids s) (current_playlist_ids s) (playlist_data s)
    (tracker_items s) (f (playlist_item_map s)) (db s) (trace s).
Definition emit (e : event) : M state unit :=
  modify (λ s,
    State (share_id s) (client_host s) (client_port s) (address s)
      (current_item_ids s) (current_playlist_ids s) (playlist_data s)
      (tracker_items s) (playlist_item_map s) (db s) (trace s ++ [e])).

(** [miro_itemkind_rmapping[v]]; [True] hashes and compares as [1]. *)
Definition itemkind_rlookup (v : pyval) : option string :=
  match v with
  | PInt z => assoc_int miro_itemkind_rmapping z
  | PBool b => assoc_int miro_itemkind_rmapping (if b then 1 else 0)
  | _ => None
  end.

Section Convert.
Context `{Libdaap} `{Codec}.

(** One round of [for k in rawitem.keys()] in [convert_raw_sharing_item]. *)
Definition convert_field (k : string) (v : pyval)
    (acc : outcome daap_dict) : outcome daap_dict :=
  match acc with
  | Raise e => Raise e
  | Ok item_data =>
      match assoc daap_mapping k with
      | None => Ok item_data
      | Some key =>
          match v with
          | PStr s =>
              match utf8_decode s with
              | Some u => Ok (<[key := PUnicode u]> item_data)
              | None => Raise ValueError
              end
          | _ => Ok (<[key := v]> item_data)
          end
      end
  end.

(** The [try] block that picks [file_type], starting from the fallback. *)
Definition pick_file_type (item_data : daap_dict) : string :=
  let file_type := "audio"%string in
  match item_data !! "file_type"%string with
  | None => file_type
  | Some v =>
      let file_type :=
        if py_eq_int v DAAP_MEDIAKIND_AUDIO then "audio"%string
        else file_type in
      if py_eq_int v DAAP_MEDIAKIND_TV || py_eq_int v DAAP_MEDIAKIND_MOVIE
         || py_eq_int v DAAP_MEDIAKIND_VIDEO
      then "video"%string else file_type
  end.

(** [get_item_path(result, daap_id)] *)
Definition get_item_path (result : update_result) (daap_id : pyval)
    : outcome pyval :=
  match daap_id with
  | PInt z =>
      match item_paths result !! z with
      | Some p => Ok (PUnicode p)
      | None => Raise KeyError
      end
  | _ => Raise KeyError
  end.

(** [convert_raw_sharing_item] *)
Definition convert_raw_sharing_item (rawitem : daap_dict)
    (result : update_result) : outcome daap_dict :=
  match map_fold convert_field (Ok ∅) rawitem with
  | Raise e => Raise e
  | Ok item_data =>
      let item_data :=
        match item_data !! "kind"%string ≫= itemkind_rlookup with
        | Some kind => <["kind"%string := PUnicode kind]> item_data
        | None => item_data
        end in
      let file_type := pick_file_type item_data in
      let item_data := <["file_type"%string := PUnicode file_type]> item_data in
      match item_data !! "daap_id"%string with
      | None => Raise KeyError
      | Some daap_id =>
          match get_item_path result daap_id with
          | Raise e => Raise e
          | Ok path =>
              Ok (<["file_type"%string := PUnicode file_type]>
                    (<["video_path"%string := path]> item_data))
          end
      end
  end.

End Convert.

(** What [remove()] does on a [SharingItem] whose row is already gone; the
    object database is not part of this module. *)
Class Database := { remove_again : option exn }.

(** A pure computation run inside a method. *)
Definition lift {A} (r : outcome A) : M state A := λ s, (r, s).

(** [d.get(k)] *)
Definition dict_get (d : daap_dict) (k : string) : pyval :=
  default PNone (d !! k).

Section Merge.
Context `{Libdaap} `{Codec} `{Database}.

(** [make_sharing_item]: the new row is filed under its [daap_id]. *)
Definition make_sharing_item (rawitem : daap_dict) (result : update_result)
    : M state unit :=
  (kwargs ←' lift (convert_raw_sharing_item rawitem result);
   s ←' get;
   let kwargs :=
     <["address"%string := PUnicode (address s)]>
       (<["port"%string := PInt (client_port s)]>
          (<["host"%string := PUnicode (client_host s)]> kwargs)) in
   match kwargs !! "daap_id"%string with
   | Some (PInt z) => modify (set_db <[z := kwargs]>)
   | _ => raise KeyError
   end)%py.

(** [SharingItem.get_by_daap_id]: the row's handle, or [ObjectNotFound]. *)
Definition get_sharing_item (daap_id : Z) : M state Z :=
  (s ←' get;
   match db s !! daap_id with
   | Some _ => ret daap_id
   | None => raise ObjectNotFound
   end)%py.

(** [sharing_item.remove()] *)
Definition remove (sharing_item : Z) : M state unit :=
  (s ←' get;
   match db s !! sharing_item with
   | Some _ => modify (set_db (delete sharing_item))
   | None =>
       match remove_again with
       | Some e => raise e
       | None => ret tt
       end
   end)%py.

(** One round of the first loop of [update_sharing_items].  The local
    variable [sharing_item] is [None] while it is unbound. *)
Definition update_item (result : update_result) (sharing_item : option Z)
    (entry : Z * daap_dict) : M state (option Z) :=
  (let '(daap_id, item_data) := entry in
   s ←' get;
   if decide (daap_id ∉ current_item_ids s) then
     make_sharing_item item_data result ;;'
     modify (set_current_item_ids (union {[daap_id]})) ;;'
     ret sharing_item
   else
     handle ←' get_sharing_item daap_id;
     new_data ←' lift (convert_raw_sharing_item item_data result);
     modify (set_db (alter (union new_data) handle)) ;;'
     emit (SignalChange handle) ;;'
     ret (Some handle))%py.

(** One round of the second loop: the [try] binds [sharing_item] only when the
    lookup succeeds, and [sharing_item.remove()] follows the [try] either
    way. *)
Definition delete_item (sharing_item : option Z) (item_id : Z)
    : M state (option Z) :=
  (sharing_item ←'
     try_except
       (handle ←' get_sharing_item item_id; ret (Some handle))
       ObjectNotFound
       (emit (Warn "deleted item not found" item_id) ;;' ret sharing_item);
   match sharing_item with
   | None => raise UnboundLocalError
   | Some handle => remove handle ;;' ret (Some handle)
   end)%py.

(** [update_sharing_items] *)
Definition update_sharing_items (result : update_result) : M state unit :=
  (sharing_item ←' fold_each (items result) None (update_item result);
   fold_each (deleted_items result) sharing_item delete_item ;;'
   ret tt)%py.

(** [_ClientPlaylistTracker.update] *)
Definition tracker_update (result : update_result) : M state unit :=
  (for_each (map_to_list (playlists result)) (λ '(playlist_id, data),
     s ←' get;
     (if decide (playlist_id ∉ dom (playlist_data s))
      then modify (set_tracker_items <[playlist_id := ∅]>)
      else ret tt) ;;'
     modify (set_playlist_data <[playlist_id := data]>)) ;;'
   for_each (deleted_playlists result) (λ playlist_id,
     s ←' get;
     subscript (playlist_data s) playlist_id ;;'
     modify (set_playlist_data (delete playlist_id)) ;;'
     subscript (tracker_items s) playlist_id ;;'
     modify (set_tracker_items (delete playlist_id))) ;;'
   for_each (map_to_list (playlist_items result)) (λ '(playlist_id, item_ids),
     s ←' get;
     members ←' subscript (tracker_items s) playlist_id;
     modify (set_tracker_items
               <[playlist_id := members ∪ list_to_set item_ids]>)) ;;'
   for_each (map_to_list (playlist_deleted_items result))
     (λ '(playlist_id, item_ids),
     s ←' get;
     members ←' subscript (tracker_items s) playlist_id;
     modify (set_tracker_items
               <[playlist_id := members ∖ list_to_set item_ids]>)))%py.

(** [playlist_data_valid] *)
Definition playlist_data_valid (data : daap_dict) : bool :=
  truthy (dict_get data "dmap.itemid") && truthy (dict_get data "dmap.itemname").

(** [self.playlist_items.get(id_)], as a condition: a non-empty set. *)
Definition has_members (s : state) (playlist_id : Z) : bool :=
  match tracker_items s !! playlist_id with
  | Some members => bool_decide (members ≠ ∅)
  | None => false
  end.

(** [current_playlists] *)
Definition current_playlists (s : state) : gmap Z daap_dict :=
  filter (λ kv : Z * daap_dict,
            has_members s kv.1 && playlist_data_valid kv.2 = true)
         (playlist_data s).

(** [playlist_data.get(DAAP_PODCAST_KEY)], as a condition. *)
Definition podcast_flag (data : daap_dict) : bool :=
  truthy (dict_get data DAAP_PODCAST_KEY).

(** [items_in_podcasts] *)
Definition items_in_podcasts : M state (gset Z) :=
  (s ←' get;
   fold_each (map_to_list (playlist_data s)) (∅ : gset Z)
     (λ rv '(daap_id, data),
        if podcast_flag data then
          members ←' subscript (tracker_items s) daap_id;
          ret (rv ∪ members)
        else ret rv))%py.

(** [items_in_playlists] *)
Definition items_in_playlists : M state (gset Z) :=
  (s ←' get;
   fold_each (map_to_list (playlist_data s)) (∅ : gset Z)
     (λ rv '(daap_id, data),
        if negb (podcast_flag data) then
          members ←' subscript (tracker_items s) daap_id;
          ret (rv ∪ members)
        else ret rv))%py.

(** [update_fake_playlists] *)
Definition update_fake_playlists : M state unit :=
  (podcasts ←' items_in_podcasts;
   modify (set_playlist_item_map <[inr "podcast"%string := podcasts]>) ;;'
   others ←' items_in_playlists;
   modify (set_playlist_item_map <[inr "playlist"%string := others]>))%py.

(** [make_playlist_sharing_info] *)
Definition make_playlist_sharing_info (daap_id : Z) (data : daap_dict)
    : M state playlist_info :=
  (s ←' get;
   name ←' subscript data "dmap.itemname"%string;
   ret (SharingPlaylistInfo (share_id s) name daap_id
          (default (PBool false) (data !! DAAP_PODCAST_KEY))))%py.

(** [update_playlists] *)
Definition update_playlists (result : update_result) : M state unit :=
  (s0 ←' get;
   let old_playlist_items := tracker_items s0 in
   tracker_update result ;;'
   s1 ←' get;
   let new_playlist_items := tracker_items s1 in
   c1 ←' fold_each (map_to_list old_playlist_items) false
     (λ changed '(playlist_id, _),
        if decide (playlist_id ∉ dom new_playlist_items) then
          modify (set_playlist_item_map (delete (inl playlist_id))) ;;'
          ret true
        else ret changed);
   playlist_items_changed ←' fold_each (map_to_list new_playlist_items) c1
     (λ changed '(playlist_id, item_ids),
        if decide (Some item_ids ≠ old_playlist_items !! playlist_id) then
          modify (set_playlist_item_map <[inl playlist_id := item_ids]>) ;;'
          ret true
        else ret changed);
   let current := current_playlists s1 in
   lists ←' fold_each (map_to_list current) ([], [])
     (λ '(added, changed) '(daap_id, data),
        s ←' get;
        if decide (daap_id ∉ current_playlist_ids s) then
          info ←' make_playlist_sharing_info daap_id data;
          modify (set_current_playlist_ids (union {[daap_id]})) ;;'
          ret (added ++ [info], changed)
        else if decide (daap_id ∈ dom (playlists result)) then
          info ←' make_playlist_sharing_info daap_id data;
          ret (added, changed ++ [info])
        else ret (added, changed));
   s2 ←' get;
   let removed := elements (current_playlist_ids s2 ∖ dom current) in
   modify (set_current_playlist_ids (λ _, dom current)) ;;'
   (if playlist_items_changed
       || negb (bool_decide (lists.1 = []))
       || negb (bool_decide (lists.2 = []))
       || negb (bool_decide (removed = []))
    then emit (PlaylistChanged (share_id s2)) ;;' update_fake_playlists
    else ret tt) ;;'
   emit (TabsChanged lists.1 lists.2 removed))%py.

(** [client_update_callback] *)
Definition client_update_callback (result : update_result) : M state unit :=
  (update_sharing_items result ;;' update_playlists result)%py.

(** [client_connect_callback], up to [share.update_finished()]: the deletions
    of the first run are ignored. *)
Definition client_connect_callback (result : update_result) : M state unit :=
  (let result :=
     Result (items result) (item_paths result) [] (playlists result) []
            (playlist_items result) ∅ in
   update_sharing_items result ;;' update_playlists result)%py.

End Merge.

(** An item id is a member of some playlist whose podcast flag is [flag]. *)
Definition in_flagged (s : state) (flag : bool) (x : Z) : Prop :=
  ∃ playlist_id data members,
    playlist_data s !! playlist_id = Some data
    ∧ podcast_flag data = flag
    ∧ tracker_items s !! playlist_id = Some members
    ∧ x ∈ members.

(** [client_disconnect_callback_common]: the playlists the frontend has
    been told about are withdrawn. *)
Definition client_disconnect_callback_common : M state unit :=
  (s ←' get;
   emit (TabsChanged [] [] (elements (current_playlist_ids s))))%py.

(** The two dictionaries of the playlist tracker are over the same
    playlists. *)
Definition tracked (s : state) : Prop :=
  dom (playlist_data s) = dom (tracker_items s).

(** The playlist map of the mirrored database holds, for every DAAP
    playlist, the members the tracker has for it. *)
Definition mirrored (s : state) : Prop :=
  ∀ playlist_id,
    playlist_item_map s !! inl playlist_id = tracker_items s !! playlist_id.

End Client.

(** ** [class _ClientUpdateResult] *)

Module ClientUpdateResult.

(** What leaves [__init__] when the fetch fails: one of the exceptions
    above, or the [NameError] of a name that is not bound. *)
Inductive raised :=
  | Exn (e : exn)
  | NameError.

Inductive fetched (A : Type) :=
  | Fetched (a : A)
  | Failed (r : raised).
Arguments Fetched {A} a.
Arguments Failed {A} r.

(** The DAAP client, as far as one fetch asks it: the replies it gives to
    the calls made with this fetch's [update] flag. *)
Record daap_client := DaapClient {
  databases : bool;              (* whether [client.databases(...)] is true *)
  playlists_reply : option (gmap Z Client.daap_dict) * list Z;
  items_reply : option Z → option (gmap Z Client.daap_dict) * list Z;
                                 (* [client.items(playlist_id=..., ...)] *)
  daap_get_file_request : Z → pyval → string
}.

(** [value.replace('\x00', '')] *)
Fixpoint strip_nuls (value : string) : string :=
  match value with
  | EmptyString => EmptyString
  | String c rest =>
      if Ascii.eqb c Ascii.zero then strip_nuls rest
      else String c (strip_nuls rest)
  end.

(** [strip_nuls_from_data], on the values of a dictionary of dictionaries:
    only values that are [str] are touched. *)
Definition strip_nuls_from_data (data_list : gmap Z Client.daap_dict)
    : gmap Z Client.daap_dict :=
  (λ data : Client.daap_dict,
     (λ value, match value with
               | PStr s => PStr (strip_nuls s)
               | _ => value
               end) <$> data) <$> data_list.

(** [check_database_exists] *)
Definition check_database_exists (client : daap_client) : fetched unit :=
  if databases client then Fetched tt else Failed (Exn IOError).

(** [fetch_playlists]: the playlists and the deleted playlists. *)
Definition fetch_playlists (client : daap_client)
    : fetched (gmap Z Client.daap_dict * list Z) :=
  let '(playlists, deleted_playlists) := playlists_reply client in
  match playlists with
  | None => Failed (Exn IOError)
  | Some playlists =>
      let playlists := strip_nuls_from_data playlists in
      Fetched
        (filter (λ kv : Z * Client.daap_dict,
                   truthy (default (PBool false)
                             (kv.2 !! "daap.baseplaylist"%string)) = false)
                playlists,
         deleted_playlists)
  end.

(** One round of the loop of [fetch_items] that asks for the item paths. *)
Definition item_path_step (client : daap_client)
    (item_paths : fetched (gmap Z string)) (entry : Z * Client.daap_dict)
    : fetched (gmap Z string) :=
  match item_paths with
  | Failed r => Failed r
  | Fetched item_paths =>
      match entry.2 !! "daap.songformat"%string with
      | Some songformat =>
          Fetched (<[entry.1 := daap_get_file_request client entry.1 songformat]>
                     item_paths)
      | None => Failed (Exn KeyError)
      end
  end.

(** [fetch_items]: the items, the deleted items and the item paths. *)
Definition fetch_items (client : daap_client)
    : fetched (gmap Z Client.daap_dict * list Z * gmap Z string) :=
  let '(items, deleted_items) := items_reply client None in
  match items with
  | None => Failed (Exn ValueError)
  | Some items =>
      let items := strip_nuls_from_data items in
      match foldl (item_path_step client) (Fetched ∅) (map_to_list items) with
      | Failed r => Failed r
      | Fetched item_paths => Fetched (items, deleted_items, item_paths)
      end
  end.

(** [fetch_playlist_items]: the ids of the playlist's items and the deleted
    ids.  The message of the [ValueError] for a missing reply is formatted
    with [k], a name that is not bound. *)
Definition fetch_playlist_items (client : daap_client) (playlist_key : Z)
    : fetched (list Z * list Z) :=
  let '(items, deleted) := items_reply client (Some playlist_key) in
  match items with
  | None => Failed NameError
  | Some items => Fetched ((map_to_list items).*1, deleted)
  end.

(** One round of the loop of [fetch_from_client] over the playlists. *)
Definition playlist_step (client : daap_client)
    (acc : fetched (gmap Z (list Z) * gmap Z (list Z))) (daap_id : Z)
    : fetched (gmap Z (list Z) * gmap Z (list Z)) :=
  match acc with
  | Failed r => Failed r
  | Fetched (playlist_items, playlist_deleted_items) =>
      match fetch_playlist_items client daap_id with
      | Failed r => Failed r
      | Fetched (items, deleted) =>
          Fetched (<[daap_id := items]> playlist_items,
                   <[daap_id := deleted]> playlist_deleted_items)
      end
  end.

(** [__init__], that is [fetch_from_client] on the empty result. *)
Definition init (client : daap_client) : fetched Client.update_result :=
  match check_database_exists client with
  | Failed r => Failed r
  | Fetched _ =>
      match fetch_playlists client with
      | Failed r => Failed r
      | Fetched (playlists, deleted_playlists) =>
          match fetch_items client with
          | Failed r => Failed r
          | Fetched (items, deleted_items, item_paths) =>
              match foldl (playlist_step client) (Fetched (∅, ∅))
                      (map_to_list playlists).*1 with
              | Failed r => Failed r
              | Fetched (playlist_items, playlist_deleted_items) =>
                  Fetched
                    (Client.Result (map_to_list items) item_paths
                       deleted_items playlists deleted_playlists
                       playlist_items playlist_deleted_items)
              end
          end
      end
  end.

(** The result as [client_connect_callback] uses it: the deletions of the
    first run are ignored. *)
Definition first_run (result : Client.update_result) : Client.update_result :=
  Client.Result (Client.items result) (Client.item_paths result) []
    (Client.playlists result) [] (Client.playlist_items result) ∅.

End ClientUpdateResult.

(** ** [class SharingManagerBackend] *)

Module Backend.

(** One exported record: the dictionary of DAAP fields (with [path] and
    [cover_art]) and the two entries every record has, ['revision'] and
    ['valid']. *)
Record daap_record := Rec {
  fields : gmap string pyval;
  rec_revision : Z;
  valid : bool
}.

(** [transcode.TranscodeObject]; [uid] is the identity of the Python object. *)
Record transcode_object := TranscodeObject {
  uid : nat;
  path_of : pyval;
  itemid_of : Z;
  generation_of : Z;
  chunk_of : option Z;
  info_of : pyval
}.

(** What [get_file] hands back as [file_obj]. *)
Inductive file_obj :=
  | Playlist (job : transcode_object) (offset : Z)   (* [get_playlist()], seeked *)
  | Chunk (job : transcode_object)                   (* [get_chunk()] *)
  | OpenFile (path : pyval) (offset : Z).            (* [open(path, 'rb')], seeked *)

Inductive event :=
  | Shutdown (job : transcode_object)     (* [job.shutdown()] *)
  | Transcode (job : transcode_object)    (* [job.transcode()] *)
  | SpawnWatcher (session : Z)            (* a [watcher] thread is started *)
  | TrackItems (playlist_id : Z) (feed : bool)
  | StopTrackingItems (playlist_id : Z)
  | Warning (msg : string).

Record state := State {
  revision : Z;
  directed : option Z;
  share_types : list Z;
  transcode : gmap Z transcode_object;
  daapitems : gmap Z daap_record;
  daap_playlists : gmap Z daap_record;
  playlist_item_map : gmap Z (list Z);
  deleted_item_map : gmap Z (list Z);
  in_shutdown : bool;
  next_uid : nat;
  trace : list event
}.

Definition set_revision (r : Z) (d : option Z) (s : state) :=
  State r d (share_types s) (transcode s) (daapitems s) (daap_playlists s)
    (playlist_item_map s) (deleted_item_map s) (in_shutdown s) (next_uid s)
    (trace s).
Definition set_share_types (l : list Z) (s : state) :=
  State (revision s) (directed s) l (transcode s) (daapitems s)
    (daap_playlists s) (playlist_item_map s) (deleted_item_map s)
    (in_shutdown s) (next_uid s) (trace s).
Definition set_transcode
    (f : gmap Z transcode_object → gmap Z transcode_object) (s : state) :=
  State (revision s) (directed s) (share_types s) (f (transcode s))
    (daapitems s) (daap_playlists s) (playlist_item_map s)
    (deleted_item_map s) (in_shutdown s) (next_uid s) (trace s).
Definition set_daapitems
    (f : gmap Z daap_record → gmap Z daap_record) (s : state) :=
  State (revision s) (directed s) (share_types s) (transcode s)
    (f (daapitems s)) (daap_playlists s) (playlist_item_map s)
    (deleted_item_map s) (in_shutdown s) (next_uid s) (trace s).
Definition set_daap_playlists
    (f : gmap Z daap_record → gmap Z daap_record) (s : state) :=
  State (revision s) (directed s) (share_types s) (transcode s)
    (daapitems s) (f (daap_playlists s)) (playlist_item_map s)
    (deleted_item_map s) (in_shutdown s) (next_uid s) (trace s).
Definition set_playlist_item_map
    (f : gmap Z (list Z) → gmap Z (list Z)) (s : state) :=
  State (revision s) (directed s) (share_types s) (transcode s)
    (daapitems s) (daap_playlists s) (f (playlist_item_map s))
    (deleted_item_map s) (in_shutdown s) (next_uid s) (trace s).
Definition set_deleted_item_map
    (f : gmap Z (list Z) → gmap Z (list Z)) (s : state) :=
  State (revision s) (directed s) (share_types s) (transcode s)
    (daapitems s) (daap_playlists s) (playlist_item_map s)
    (f (deleted_item_map s)) (in_shutdown s) (next_uid s) (trace s).
Definition set_in_shutdown (b : bool) (s : state) :=
  State (revision s) (directed s) (share_types s) (transcode s)
    (daapitems s) (daap_playlists s) (playlist_item_map s)
    (deleted_item_map s) b (next_uid s) (trace s).
Definition bump_uid (s : state) :=
  State (revision s) (directed s) (share_types s) (transcode s)
    (daapitems s) (daap_playlists s) (playlist_item_map s)
    (deleted_item_map s) (in_shutdown s) (S (next_uid s)) (trace s).
Definition emit (e : event) : M state unit :=
  modify (λ s,
    State (revision s) (directed s) (share_types s) (transcode s)
      (daapitems s) (daap_playlists s) (playlist_item_map s)
      (deleted_item_map s) (in_shutdown s) (next_uid s) (trace s ++ [e])).

(** [rec['revision'] = r] *)
Definition stamp (r : Z) (rec : daap_record) : daap_record :=
  Rec (fields rec) r (valid rec).

(** [update_revision]; [notify_all] wakes the threads waiting in
    [get_revision], which is modelled there. *)
Definition update_revision (d : option Z) : M state unit :=
  modify (λ s, set_revision (revision s + 1) d s).

(** [deleted_item] *)
Definition deleted_item : M state daap_record :=
  λ s, (Ok (Rec ∅ (revision s) false), s).

(** The three sharing switches of [app.config]. *)
Record config := Config {
  SHARE_AUDIO : bool;
  SHARE_VIDEO : bool;
  SHARE_FEED : bool
}.

(** The configuration keys a [changed] signal may carry. *)
Inductive pref :=
  | PrefShareAudio | PrefShareVideo | PrefShareFeed
  | PrefShareMedia | PrefShareDiscoverable | PrefShareName | PrefOther.

Section Config.
Context `{Libdaap}.

Definition SHARE_AUDIO_TYPE : Z := DAAP_MEDIAKIND_AUDIO.
Definition SHARE_VIDEO_TYPE : Z := DAAP_MEDIAKIND_VIDEO.
Definition SHARE_FEED_TYPE : Z := 4.

(** The list built in [__init__] and again in [on_config_changed]. *)
Definition read_share_types (cfg : config) : list Z :=
  (if SHARE_AUDIO cfg then [SHARE_AUDIO_TYPE] else [])
  ++ (if SHARE_VIDEO cfg then [SHARE_VIDEO_TYPE] else [])
  ++ (if SHARE_FEED cfg then [SHARE_FEED_TYPE] else []).

(** [__init__] *)
Definition init (cfg : config) : state :=
  State 1 None (read_share_types cfg) ∅ ∅ ∅ ∅ ∅ false 0 [].

(** [on_config_changed] *)
Definition on_config_changed (cfg : config) (key : pref) : M state unit :=
  (match key with
   | PrefShareAudio | PrefShareVideo | PrefShareFeed =>
       s ←' get;
       let share_types_orig := share_types s in
       modify (set_share_types (read_share_types cfg)) ;;'
       (if decide (share_types_orig ≠ read_share_types cfg)
        then update_revision None else ret tt) ;;'
       s ←' get;
       modify (set_daap_playlists (fmap (stamp (revision s)))) ;;'
       modify (set_daapitems (fmap (stamp (revision s))))
   | _ => ret tt
   end)%py.

End Config.

(** *** Long poll *)

(** What the waiting thread finds when [revision_cv.wait()] returns: the
    [update_revision] calls other threads made while the lock was released,
    the first of which did the [notify_all]; each is given by its [directed]
    argument. *)
Definition wakeup : Type := option Z * list (option Z).

Definition run_wakeup (w : wakeup) : M state unit :=
  (update_revision w.1 ;;' for_each w.2 update_revision)%py.

(** The state in which the waiting thread finds the backend after a wakeup,
    and the [directed] argument of the last bump of the wakeup. *)
Definition woken (session : Z) (w : wakeup) (s : state) : state :=
  ((emit (SpawnWatcher session) ;;' run_wakeup w)%py s).2.

Definition last_directed (w : wakeup) : option Z :=
  default w.1 (last w.2).

(** Where a call of [get_revision] stands once the given wakeups are used up. *)
Inductive poll :=
  | Returned (r : Z)
  | Waiting.

(** [get_revision]; [request] only reaches the watcher thread. *)
Fixpoint get_revision (session old_revision : Z) (wakeups : list wakeup)
    : M state poll :=
  λ s,
    if revision s =? old_revision then
      match wakeups with
      | [] => (emit (SpawnWatcher session) ;;' ret Waiting)%py s
      | w :: later =>
          (emit (SpawnWatcher session) ;;'
           run_wakeup w ;;'
           s' ←' get;
           if decide (directed s' = None ∨ directed s' = Some session)
           then ret (Returned (revision s'))
           else get_revision session (revision s') later)%py s
      end
    else (Ok (Returned (revision s)), s).

(** [watcher], once [select] reports the request readable. *)
Definition watcher (session : Z) : M state unit :=
  update_revision (Some session).

(** *** Building the exported records *)

(** An [ItemInfo] as the item callbacks deliver it: the attributes read with
    [getattr(item, attr, None)], and those read directly. *)
Record item_info := ItemInfo {
  item_id : Z;
  attrs : gmap string pyval;
  video_path : string;
  thumbnail : string;
  feed_url : string;
  feed_id : pyval;
  is_file_item : bool
}.

(** A playlist or feed as the tab callbacks deliver it. *)
Record playlist_obj := PlaylistObj {
  pl_id : Z;
  pl_attrs : gmap string pyval;
  is_folder : bool
}.

(** What the module takes from [os], [filetypes], [resources], [transcode],
    the item views and Python's [int]. *)
Class Platform := {
  supported_filetypes : list string;
  splitext : string → string;              (* the extension part *)
  basename : pyval → pyval;
  can_open : pyval → bool;                 (* [open(p, 'rb')] succeeds *)
  default_thumbnails : list string;
  int_of_string : string → option Z;       (* [int(s)], [None] for [ValueError] *)
  playlist_view : Z → list Z;              (* item ids of a saved playlist *)
  feed_view : Z → list Z;                  (* item ids of a feed *)
  needs_transcode : pyval → pyval;         (* the [info] half of the result *)
  isseek : transcode_object → Z → bool
}.

Definition and_then {A B} (r : outcome A) (k : A → outcome B) : outcome B :=
  match r with
  | Ok a => k a
  | Raise e => Raise e
  end.

Definition lift {A} (r : outcome A) : M state A := λ s, (r, s).

(** [s * n] on strings. *)
Fixpoint repeat_string (n : nat) (s : string) : string :=
  match n with
  | O => ""
  | S n' => s +:+ repeat_string n' s
  end.

(** [v * n] *)
Definition py_mul (v : pyval) (n : Z) : pyval :=
  match v with
  | PInt z => PInt (z * n)
  | PBool b => PInt ((if b then 1 else 0) * n)
  | PStr s => PStr (repeat_string (Z.to_nat n) s)
  | PUnicode s => PUnicode (repeat_string (Z.to_nat n) s)
  | PNone => PNone
  end.

(** [v in strings] *)
Definition py_in_strings (v : pyval) (l : list string) : bool :=
  match v with
  | PStr s | PUnicode s => bool_decide (s ∈ l)
  | _ => false
  end.

(** [v[1:]] *)
Definition py_tail (v : pyval) : outcome pyval :=
  match v with
  | PStr s => Ok (PStr (match s with String _ r => r | EmptyString => s end))
  | PUnicode s =>
      Ok (PUnicode (match s with String _ r => r | EmptyString => s end))
  | _ => Raise TypeError
  end.

Definition getattr (a : gmap string pyval) (attr : string) : pyval :=
  default PNone (a !! attr).

(** [if isinstance(v, unicode): v = v.encode('utf-8')] *)
Definition encode_if_unicode `{Codec} (v : pyval) : pyval :=
  match v with
  | PUnicode s => PStr (utf8_encode s)
  | _ => v
  end.

Section Records.
Context `{Libdaap} `{Codec} `{Platform}.

(** [int(v)] *)
Definition py_int (v : pyval) : outcome pyval :=
  match v with
  | PInt z => Ok (PInt z)
  | PBool b => Ok (PInt (if b then 1 else 0))
  | PStr s | PUnicode s =>
      match int_of_string s with
      | Some z => Ok (PInt z)
      | None => Raise ValueError
      end
  | PNone => Raise TypeError
  end.

(** The body of [for attr in daap_rmapping.keys()] in [make_item_dict], from
    the value [getattr] found to the value stored under [daap_string]. *)
Definition export_attr (daap_string : string) (v : pyval) : outcome pyval :=
  let v := encode_if_unicode v in
  let v := if py_eq_int v (-1) then PInt 0 else v in
  and_then
    (if bool_decide (daap_string ∈ ["daap.songtracknumber"; "daap.songyear"]%string)
     then (if decide (v = PNone) then Ok v else py_int v)
     else Ok v)
    (λ v,
       if String.eqb daap_string "daap.songtime" then
         (if truthy v then Ok (py_mul v DURATION_SCALE) else Ok (PInt 0))
       else Ok v).

(** One round of that loop for the entry [(attr, daap_string)] of
    [daap_rmapping]; an exception ends the loop. *)
Definition export_step (item : item_info) (acc : outcome (gmap string pyval))
    (entry : string * string) : outcome (gmap string pyval) :=
  and_then acc (λ itemprop,
    and_then (export_attr entry.2 (getattr (attrs item) entry.1))
      (λ v, Ok (<[entry.2 := v]> itemprop))).

Definition export_attrs (item : item_info) : outcome (gmap string pyval) :=
  foldl (export_step item) (Ok ∅) daap_rmapping.

(** [item_from_podcast] *)
Definition item_from_podcast (item : item_info) : bool :=
  let ersatz_feeds :=
    ["dtv:manualFeed"; "dtv:searchDownloads"; "dtv:search"]%string in
  let is_feed :=
    negb (existsb (λ x, String.prefix x (feed_url item)) ersatz_feeds) in
  truthy (feed_id item) && is_feed && negb (is_file_item item).

Definition KIND_KEY : string := "org.participatoryculture.miro.itemkind".
Definition MEDIAKIND_KEY : string := "com.apple.itunes.mediakind".

(** [miro_itemkind_mapping[kind]] *)
Definition itemkind_lookup (kind : pyval) : option Z :=
  match kind with
  | PStr s | PUnicode s => assoc miro_itemkind_mapping s
  | _ => None
  end.

(** The body of [for item in items] in [make_item_dict]. *)
Definition make_item (item : item_info) : M state unit :=
  (itemprop ←' lift (export_attrs item);
   let enclosure := getattr (attrs item) "file_format" in
   let enclosure :=
     if py_in_strings enclosure supported_filetypes then enclosure
     else
       let ext := splitext (video_path item) in
       if bool_decide (ext ∈ supported_filetypes) then PStr ext else enclosure in
   let itemprop :=
     if item_from_podcast item
     then <[KIND_KEY := PInt MIRO_ITEMKIND_PODCAST]> itemprop
     else itemprop in
   let itemprop :=
     match itemprop !! KIND_KEY with
     | Some kind =>
         if truthy kind then
           match itemkind_lookup kind with
           | Some k => <[KIND_KEY := PInt k]> itemprop
           | None => itemprop
           end
         else itemprop
     | None => itemprop
     end in
   mediakind ←' subscript itemprop MEDIAKIND_KEY;
   let video :=
     bool_decide (mediakind = PStr "video" ∨ mediakind = PUnicode "video") in
   let itemprop :=
     <[MEDIAKIND_KEY :=
         PInt (if video then DAAP_MEDIAKIND_VIDEO else DAAP_MEDIAKIND_AUDIO)]>
       itemprop in
   let enclosure :=
     if truthy enclosure then enclosure
     else PStr (if video then ".mp4" else ".mp3") in
   enclosure ←' lift (py_tail enclosure);
   let itemprop :=
     <["daap.songformat"%string := encode_if_unicode enclosure]> itemprop in
   let itemprop := <["path"%string := PStr (video_path item)]> itemprop in
   let itemprop :=
     <["cover_art"%string :=
         PStr (if bool_decide (thumbnail item ∈ default_thumbnails)
               then "" else thumbnail item)]> itemprop in
   itemid ←' subscript itemprop "dmap.itemid"%string;
   let itemprop := <["dmap.containeritemid"%string := itemid]> itemprop in
   s ←' get;
   modify (set_daapitems <[item_id item := Rec itemprop (revision s) true]>))%py.

(** [make_item_dict] *)
Definition make_item_dict (items : list item_info) : M state unit :=
  for_each items make_item.

(** The attribute loop of [make_daap_playlists]. *)
Definition playlist_attr (item : playlist_obj) (entry : string * string)
    : pyval :=
  let v := getattr (pl_attrs item) entry.1 in
  let v :=
    if String.eqb entry.2 "dmap.itemname" then
      match getattr (pl_attrs item) "title" with
      | PNone => getattr (pl_attrs item) "name"
      | title => title
      end
    else v in
  encode_if_unicode v.

(** The body of [for item in items] in [make_daap_playlists]. *)
Definition make_daap_playlist (typ : string) (item : playlist_obj)
    : M state unit :=
  (let itemprop :=
     foldl (λ (itemprop : gmap string pyval) (entry : string * string),
              <[entry.2 := playlist_attr item entry]> itemprop)
           ∅ daap_rmapping in
   count ←'
     (if String.eqb typ "playlist"
      then ret (Z.of_nat (length (playlist_view (pl_id item))))
      else if String.eqb typ "feed"
      then ret (Z.of_nat (length (feed_view (pl_id item))))
      else raise ValueError);
   let itemprop := <["dmap.itemcount"%string := PInt count]> itemprop in
   let itemprop := <["dmap.parentcontainerid"%string := PInt 0]> itemprop in
   let itemprop := <["dmap.persistentid"%string := PInt (pl_id item)]> itemprop in
   let podcast := String.eqb typ "feed" in
   let itemprop := <["podcast"%string := PBool podcast]> itemprop in
   let itemprop :=
     if podcast then <[DAAP_PODCAST_KEY := PBool true]> itemprop
     else itemprop in
   s ←' get;
   modify (set_daap_playlists <[pl_id item := Rec itemprop (revision s) true]>))%py.

(** [make_daap_playlists] *)
Definition make_daap_playlists (items : list playlist_obj) (typ : string)
    : M state unit :=
  for_each items (make_daap_playlist typ).

End Records.

(** *** Ingesting the host's item and playlist events *)

(** [messages.ItemList] and [messages.ItemsChanged], as far as they are read. *)
Record item_list := ItemList {
  il_id : option Z;
  il_items : list item_info
}.

Record items_changed := ItemsChanged {
  ic_id : option Z;
  added : list item_info;
  changed : list item_info;
  removed : list Z
}.

(** [l.remove(x)]: the first occurrence goes; [None] stands for the
    [ValueError] raised when there is none. *)
Fixpoint list_remove (x : Z) (l : list Z) : option (list Z) :=
  match l with
  | [] => None
  | y :: rest =>
      if decide (x = y) then Some rest else cons y <$> list_remove x rest
  end.

(** [self.daapitems[item_id]['revision'] = self.revision] inside
    [try: ... except KeyError: pass] *)
Definition stamp_item (item_id : Z) : M state unit :=
  (s ←' get; modify (set_daapitems (alter (stamp (revision s)) item_id)))%py.

(** [self.daap_playlists[playlist_id]['revision'] = self.revision] *)
Definition stamp_playlist (playlist_id : Z) : M state unit :=
  (s ←' get;
   subscript (daap_playlists s) playlist_id ;;'
   modify (set_daap_playlists (alter (stamp (revision s)) playlist_id)))%py.

Section Ingest.
Context `{Libdaap} `{Codec} `{Platform}.

(** [handle_item_list] *)
Definition handle_item_list (message : item_list) : M state unit :=
  (update_revision None ;;'
   let item_ids := item_id <$> il_items message in
   match il_id message with
   | Some playlist_id =>
       stamp_playlist playlist_id ;;'
       modify (set_playlist_item_map <[playlist_id := item_ids]>) ;;'
       modify (set_deleted_item_map <[playlist_id := []]>) ;;'
       for_each item_ids stamp_item
   | None =>
       s ←' get;
       let deleted :=
         filter (λ i, i ∉ item_ids) (map_to_list (daapitems s)).*1 in
       make_item_dict (il_items message) ;;'
       for_each deleted (λ d,
         tombstone ←' deleted_item;
         modify (set_daapitems <[d := tombstone]>))
   end)%py.

(** One round of [for itemid in message.removed] in [handle_items_changed]. *)
Definition item_removed (playlist : option Z) (itemid : Z) : M state unit :=
  (try_except
     (match playlist with
      | Some playlist_id =>
          stamp_playlist playlist_id ;;'
          s ←' get;
          members ←' subscript (playlist_item_map s) playlist_id;
          match list_remove itemid members with
          | None => raise ValueError
          | Some members' =>
              modify (set_playlist_item_map <[playlist_id := members']>) ;;'
              gone ←' subscript (deleted_item_map s) playlist_id;
              modify (set_deleted_item_map <[playlist_id := gone ++ [itemid]]>)
          end
      | None => ret tt
      end)
     KeyError (ret tt) ;;'
   match playlist with
   | None =>
       tombstone ←' deleted_item;
       modify (set_daapitems <[itemid := tombstone]>)
   | Some _ => ret tt
   end)%py.

(** [handle_items_changed] *)
Definition handle_items_changed (message : items_changed) : M state unit :=
  (update_revision None ;;'
   for_each (removed message) (item_removed (ic_id message)) ;;'
   match ic_id message with
   | Some playlist_id =>
       let item_ids := item_id <$> added message in
       stamp_playlist playlist_id ;;'
       for_each item_ids (λ i,
         s ←' get;
         gone ←' subscript (deleted_item_map s) playlist_id;
         match list_remove i gone with
         | Some gone' => modify (set_deleted_item_map <[playlist_id := gone']>)
         | None => ret tt
         end) ;;'
       s ←' get;
       members ←' subscript (playlist_item_map s) playlist_id;
       modify (set_playlist_item_map <[playlist_id := members ++ item_ids]>) ;;'
       for_each (added message) (λ x, stamp_item (item_id x)) ;;'
       for_each (changed message) (λ x, stamp_item (item_id x))
   | None =>
       make_item_dict (added message) ;;'
       make_item_dict (changed message)
   end)%py.

(** The closure [_handle_playlist_added] of [handle_playlist_added]. *)
Definition handle_playlist_added (added : list playlist_obj) (typ : string)
    : M state unit :=
  (let playlists := filter (λ x, is_folder x = false) added in
   update_revision None ;;'
   make_daap_playlists playlists typ ;;'
   for_each playlists (λ p,
     modify (set_playlist_item_map <[pl_id p := []]>) ;;'
     modify (set_deleted_item_map <[pl_id p := []]>) ;;'
     emit (TrackItems (pl_id p) (String.eqb typ "feed"))))%py.

(** The closure [_handle_playlist_changed] of [handle_playlist_changed]. *)
Definition handle_playlist_changed (changed : list playlist_obj)
    (typ : string) : M state unit :=
  (update_revision None ;;'
   playlist ←' fold_each changed [] (λ playlist x,
     s ←' get;
     if decide (pl_id x ∈ dom (daap_playlists s)) then
       modify (set_daap_playlists (delete (pl_id x))) ;;'
       ret (playlist ++ [x])
     else ret playlist);
   make_daap_playlists playlist typ)%py.

(** The closure [_handle_playlist_removed] of [handle_playlist_removed]. *)
Definition handle_playlist_removed (removed : list Z) : M state unit :=
  (update_revision None ;;'
   for_each removed (λ x,
     s ←' get;
     if decide (x ∈ dom (daap_playlists s)) then
       tombstone ←' deleted_item;
       modify (set_daap_playlists <[x := tombstone]>) ;;'
       modify (set_playlist_item_map (delete x)) ;;'
       modify (set_deleted_item_map (delete x)) ;;'
       emit (StopTrackingItems x)
     else ret tt))%py.

(** [populate_playlists], given the saved playlists and the feeds that are
    not ersatz feeds. *)
Definition populate_playlists (playlists feeds : list playlist_obj)
    : M state unit :=
  (update_revision None ;;'
   let playlist_ids := pl_id <$> playlists in
   let feed_ids := pl_id <$> feeds in
   make_daap_playlists playlists "playlist" ;;'
   make_daap_playlists feeds "feed" ;;'
   s ←' get;
   for_each (map_to_list (daap_playlists s)).*1 (λ playlist_id,
     if decide (playlist_id ∈ playlist_ids) then
       modify (set_playlist_item_map
                 <[playlist_id := playlist_view playlist_id]>) ;;'
       modify (set_deleted_item_map <[playlist_id := []]>)
     else if decide (playlist_id ∈ feed_ids) then
       modify (set_playlist_item_map
                 <[playlist_id := feed_view playlist_id]>) ;;'
       modify (set_deleted_item_map <[playlist_id := []]>)
     else emit (Warning "playlist id not valid")))%py.

(** *** Serving files *)

(** What the block under [transcode_lock] settles for a session that may
    already have a job. *)
Inductive job_decision :=
  | Stale                                        (* [return no_file] *)
  | Reuse (job : transcode_object)               (* [need_create] stays false *)
  | Create (old_transcode_obj : option transcode_object).

Definition decide_job (s : state) (itemid generation session : Z)
    (chunk : option Z) : job_decision :=
  match transcode s !! session with
  | Some transcode_obj =>
      if decide (itemid_of transcode_obj ≠ itemid) then
        Create (Some transcode_obj)
      else if generation <? generation_of transcode_obj then Stale
      else
        match chunk with
        | Some c =>
            if isseek transcode_obj c then Create (Some transcode_obj)
            else Reuse transcode_obj
        | None => Reuse transcode_obj
        end
  | None => Create None
  end.

(** The end of the transcode branch: the playlist or the next chunk. *)
Definition serve (ext : string) (job : transcode_object) (path : pyval)
    (offset : Z) : option file_obj * option pyval :=
  if String.eqb ext "m3u8" then (Some (Playlist job offset), Some (basename path))
  else (Some (Chunk job), Some (basename path)).

(** [get_file]; the result is the pair [(file_obj, filename)], and
    [(None, None)] is [no_file].  [request_path_func] only reaches the
    transcoder. *)
Definition get_file (itemid generation : Z) (ext : string) (session : Z)
    (offset : Z) (chunk : option Z)
    : M state (option file_obj * option pyval) :=
  (let no_file := (None, None) in
   s ←' get;
   match daapitems s !! itemid with
   | None => ret no_file
   | Some daapitem =>
       path ←' subscript (fields daapitem) "path"%string;
       if bool_decide (ext ∈ ["ts"; "m3u8"]%string) then
         if in_shutdown s then ret no_file
         else
           match decide_job s itemid generation session chunk with
           | Stale => ret no_file
           | Reuse transcode_obj =>
               modify (set_transcode <[session := transcode_obj]>) ;;'
               ret (serve ext transcode_obj path offset)
           | Create old_transcode_obj =>
               let transcode_obj :=
                 TranscodeObject (next_uid s) path itemid generation chunk
                   (needs_transcode path) in
               modify bump_uid ;;'
               modify (set_transcode <[session := transcode_obj]>) ;;'
               match old_transcode_obj with
               | Some old => emit (Shutdown old)
               | None => ret tt
               end ;;'
               emit (Transcode transcode_obj) ;;'
               ret (serve ext transcode_obj path offset)
           end
       else if String.eqb ext "coverart" then
         cover_art ←' subscript (fields daapitem) "cover_art"%string;
         if truthy cover_art then
           if can_open cover_art
           then ret (Some (OpenFile cover_art offset), Some (basename path))
           else raise IOError
         else ret (None, Some (basename path))
       else
         modify (set_transcode (delete session)) ;;'
         if can_open path
         then ret (Some (OpenFile path offset), Some (basename path))
         else raise IOError
   end)%py.

(** [finished_callback] *)
Definition finished_callback (session : Z) : M state unit :=
  (s ←' get;
   match transcode s !! session with
   | Some job => emit (Shutdown job)
   | None => ret tt
   end)%py.

(** [shutdown] *)
Definition shutdown : M state unit :=
  (modify (set_in_shutdown true) ;;'
   s ←' get;
   for_each (map_to_list (transcode s)).*2 (λ job, emit (Shutdown job)))%py.

(** *** The states the backend can be in *)

(** One call from outside, on the event loop or on the server thread. *)
Inductive step (s : state) : state → Prop :=
  | step_item_list m : step s (handle_item_list m s).2
  | step_items_changed m : step s (handle_items_changed m s).2
  | step_playlist_added l typ : step s (handle_playlist_added l typ s).2
  | step_playlist_changed l typ : step s (handle_playlist_changed l typ s).2
  | step_playlist_removed l : step s (handle_playlist_removed l s).2
  | step_populate playlists feeds : step s (populate_playlists playlists feeds s).2
  | step_config cfg key : step s (on_config_changed cfg key s).2
  | step_watcher session : step s (watcher session s).2
  | step_get_file itemid generation ext session offset chunk :
      step s (get_file itemid generation ext session offset chunk s).2
  | step_finished session : step s (finished_callback session s).2
  | step_shutdown : step s (shutdown s).2.

Inductive reachable : state → Prop :=
  | reachable_init cfg : reachable (init cfg)
  | reachable_step s s' : reachable s → step s s' → reachable s'.

End Ingest.

(** Every record carries a revision that the counter has reached. *)
Definition stamped (s : state) : Prop :=
  map_Forall (λ _ rec, rec_revision rec ≤ revision s) (daapitems s)
  ∧ map_Forall (λ _ rec, rec_revision rec ≤ revision s) (daap_playlists s).

(** *** What the DAAP server reads *)

(** [v in self.share_types] *)
Definition py_in_ints (v : pyval) (l : list Z) : bool :=
  match v with
  | PInt z => bool_decide (z ∈ l)
  | PBool b => bool_decide ((if b then 1 else 0) ∈ l)
  | _ => false
  end.

(** [ik and (ik & MIRO_ITEMKIND_PODCAST)], as a condition; [&] between a
    string and an integer is a [TypeError]. *)
Definition podcast_bit (ik : pyval) : outcome bool :=
  if truthy ik then
    match ik with
    | PInt z => Ok (negb (Z.land z MIRO_ITEMKIND_PODCAST =? 0))
    | PBool b =>
        Ok (negb (Z.land (if b then 1 else 0) MIRO_ITEMKIND_PODCAST =? 0))
    | _ => Raise TypeError
    end
  else Ok false.

(** What both loops of [get_items] do with a record before they file it:
    the block under [if valid:], then the condition
    [not valid or mk in self.share_types and
     (not podcast or include_if_podcast)]. *)
Definition item_shared (s : state) (item : daap_record) : M state bool :=
  (if valid item then
     mk ←' subscript (fields item) MEDIAKIND_KEY;
     ik ←' subscript (fields item) KIND_KEY;
     podcast ←' lift (podcast_bit ik);
     let include_if_podcast :=
       podcast && bool_decide (SHARE_FEED_TYPE ∈ share_types s) in
     ret (py_in_ints mk (share_types s)
          && (negb podcast || include_if_podcast))
   else ret true)%py.

(** The loop [for k in self.daapitems.keys()] of [get_items]; [wanted] is
    the membership test [x in self.playlist_item_map[playlist_id]], which
    the loop for the whole library does not make. *)
Definition collect_items (s : state) (wanted : Z → bool)
    : M state (gmap Z daap_record) :=
  fold_each (map_to_list (daapitems s)) (∅ : gmap Z daap_record)
    (λ items '(k, item),
       (shared ←' item_shared s item;
        if wanted k && shared then ret (<[k := item]> items)
        else
          tombstone ←' deleted_item;
          ret (<[k := tombstone]> items))%py).

(** [get_items]; [not playlist_id] holds for [None] and for [0]. *)
Definition get_items (playlist_id : option Z) : M state (gmap Z daap_record) :=
  (s ←' get;
   match playlist_id with
   | None => collect_items s (λ _, true)
   | Some p =>
       if p =? 0 then collect_items s (λ _, true)
       else
         match playlist_item_map s !! p with
         | Some members => collect_items s (λ x, bool_decide (x ∈ members))
         | None => ret ∅
         end
   end)%py.

(** [get_playlists] *)
Definition get_playlists : M state (gmap Z daap_record) :=
  (s ←' get;
   fold_each (map_to_list (daap_playlists s)) (∅ : gmap Z daap_record)
     (λ returned '(p, pl),
        let send_podcast := bool_decide (SHARE_FEED_TYPE ∈ share_types s) in
        shown ←'
          (if valid pl then
             podcast ←' subscript (fields pl) "podcast"%string;
             ret (negb (truthy podcast) || send_podcast)
           else ret true);
        if shown then ret (<[p := pl]> returned)
        else
          tombstone ←' deleted_item;
          ret (<[p := tombstone]> returned)))%py.

(** A record that [get_items] can read: a tombstone, or a record with a
    media kind and an item kind that is empty or an integer. *)
Definition record_readable (rec : daap_record) : bool :=
  negb (valid rec)
  || match fields rec !! MEDIAKIND_KEY, fields rec !! KIND_KEY with
     | Some _, Some ik => if podcast_bit ik is Ok _ then true else false
     | _, _ => false
     end.

Definition readable (s : state) : Prop :=
  map_Forall (λ _ rec, record_readable rec = true) (daapitems s).

(** *** Feeds *)

(** A feed as the tab callbacks deliver it: the playlist attributes and
    [url], which is [None] or a string. *)
Record feed_obj := FeedObj {
  feed : playlist_obj;
  url : option string
}.

(** [not a.url or (a.url and not a.url.startswith('dtv:'))] *)
Definition real_feed (a : feed_obj) : bool :=
  match url a with
  | None => true
  | Some u => String.eqb u "" || negb (String.prefix "dtv:" u)
  end.

Section Feeds.
Context `{Libdaap} `{Codec} `{Platform}.

(** [handle_feed_added] *)
Definition handle_feed_added (added : list feed_obj) : M state unit :=
  handle_playlist_added (feed <$> filter (λ a, real_feed a = true) added) "feed".

(** [handle_feed_changed] *)
Definition handle_feed_changed (changed : list feed_obj) : M state unit :=
  handle_playlist_changed
    (feed <$> filter (λ c, real_feed c = true) changed) "feed".

(** [handle_feed_removed] *)
Definition handle_feed_removed (removed : list Z) : M state unit :=
  handle_playlist_removed removed.

End Feeds.

(** *** What later states keep *)

(** The revision has not gone back, no item id has left the catalog, and a
    shutdown has not been undone. *)
Definition grows (s s' : state) : Prop :=
  revision s ≤ revision s'
  ∧ dom (daapitems s) ⊆ dom (daapitems s')
  ∧ (in_shutdown s = true → in_shutdown s' = true).

(** Every playlist record that is not a tombstone says whether it is a
    podcast. *)
Definition flagged (s : state) : Prop :=
  map_Forall (λ _ pl, valid pl = true → is_Some (fields pl !! "podcast"%string))
    (daap_playlists s).

End Backend.

(** ** Sample instances

    Concrete stand-ins for what the module takes from its environment, and
    the states the examples below start from. *)

Module Sample.

(** A hash that only looks at the port, and is negative for small ports. *)
Definition hash_by_port : Tracker.Runtime :=
  {| Tracker.py_hash := λ hp, hp.2 - 100000 |}.

(** A tracker that has seen nothing yet. *)
Definition tracker_start : Tracker.state :=
  Tracker.State "miro-local" "/support" ∅ ∅ ∅ ∅ (Share.World ∅ ∅ ∅) ∅ [] 0 [].

(** Media kinds in the style of iTunes. *)
Definition itunes_kinds : Libdaap :=
  {| DAAP_MEDIAKIND_AUDIO := 1;
     DAAP_MEDIAKIND_MOVIE := 2;
     DAAP_MEDIAKIND_VIDEO := 32;
     DAAP_MEDIAKIND_TV := 64 |}.

(** The codec on ASCII text, where both directions are the identity. *)
Definition ascii : Codec :=
  {| utf8_decode := Some; utf8_encode := id |}.

(** A database in which removing a row twice is harmless. *)
Definition forgiving : Client.Database := {| Client.remove_again := None |}.

(** A client session that has merged nothing yet. *)
Definition client_start : Client.state :=
  Client.State 96311 "10.0.0.2" 3689 "10.0.0.2" ∅ ∅ ∅ ∅ ∅ ∅ [].

(** A remote song, as [client.items] lists it. *)
Definition song (daap_id songtime : Z) : Client.daap_dict :=
  list_to_map
    [ ("dmap.itemid", PInt daap_id);
      ("dmap.itemname", PStr "Song");
      ("daap.songformat", PStr "mp3");
      ("daap.songtime", PInt songtime) ]%string.

Definition song_paths : gmap Z string :=
  list_to_map [ (7, "/databases/1/items/7.mp3"); (8, "/databases/1/items/8.mp3") ]%string.

(** A first snapshot: two songs, a podcast feed holding song 7, an ordinary
    playlist holding both songs, and a playlist without a name holding
    song 8. *)
Definition snapshot : Client.update_result :=
  Client.Result
    [ (7, song 7 5000); (8, song 8 240000) ]
    song_paths
    []
    (list_to_map
       [ (1, list_to_map [ ("dmap.itemid", PInt 1); ("dmap.itemname", PStr "Casts");
                           (DAAP_PODCAST_KEY, PBool true) ]%string);
         (2, list_to_map [ ("dmap.itemid", PInt 2); ("dmap.itemname", PStr "Mix") ]%string);
         (3, list_to_map [ ("dmap.itemid", PInt 3) ]%string) ])
    []
    (list_to_map [ (1, [7]); (2, [7; 8]); (3, [8]) ])
    ∅.

(** A delta that only reports the deletion of an item the client never had. *)
Definition delta_deleting_unknown : Client.update_result :=
  Client.Result [] ∅ [42] ∅ [] ∅ ∅.

(** A delta that changes song 7 and reports the same unknown deletion. *)
Definition delta_changing_and_deleting : Client.update_result :=
  Client.Result [ (7, song 7 6000) ] song_paths [42] ∅ [] ∅ ∅.

(** A delta that turns the nameless playlist into a podcast feed. *)
Definition delta_flagging_nameless : Client.update_result :=
  Client.Result [] ∅ []
    (list_to_map
       [ (3, list_to_map [ ("dmap.itemid", PInt 3);
                           (DAAP_PODCAST_KEY, PBool true) ]%string) ])
    []
    (list_to_map [ (3, []) ])
    (list_to_map [ (3, []) ]).

(** A host whose files can all be opened and whose views are empty; a
    request is a seek when it is more than five chunks past the chunk the
    job was created for. *)
Definition host : Backend.Platform :=
  {| Backend.supported_filetypes := [".mp3"; ".mp4"; ".ogg"; ".avi"]%string;
     Backend.splitext := λ p, String.substring (String.length p - 4) 4 p;
     Backend.basename := id;
     Backend.can_open := λ _, true;
     Backend.default_thumbnails :=
       ["thumb-default-audio.png"; "thumb-default-video.png"]%string;
     Backend.int_of_string := λ s, Z.of_int <$> NilZero.int_of_string s;
     Backend.playlist_view := λ _, [];
     Backend.feed_view := λ _, [];
     Backend.needs_transcode := λ _, PNone;
     Backend.isseek := λ job c, default 0 (Backend.chunk_of job) + 5 <? c |}.

(** A local item, as the item callbacks deliver it. *)
Definition track (item_id : Z) (duration : pyval) : Backend.item_info :=
  Backend.ItemInfo item_id
    (list_to_map
       [ ("name", PUnicode "Track");
         ("file_type", PUnicode "audio");
         ("file_format", PUnicode ".mp3");
         ("duration", duration);
         ("year", PInt (-1)) ]%string)
    "/music/track.mp3" "thumb-default-audio.png" "dtv:manualFeed" PNone true.

Definition sharing_all : Backend.config := Backend.Config true true true.
Definition sharing_audio : Backend.config := Backend.Config true false false.

(** A backend that has received the item list of the main library. *)
Definition catalog : Backend.state :=
  (@Backend.handle_item_list itunes_kinds ascii host
     (Backend.ItemList None [track 1 (PInt 240); track 2 PNone])
     (@Backend.init itunes_kinds sharing_all)).2.

(** The same backend while session 5 streams item 1, generation 1. *)
Definition playing : Backend.state :=
  (@Backend.get_file host 1 1 "m3u8" 5 0 None catalog).2.

(** The session once the snapshot is merged. *)
Definition client_connected : Client.state :=
  (@Client.client_connect_callback itunes_kinds ascii forgiving snapshot
     client_start).2.

(** A saved playlist and two feeds, one of them the manual feed. *)
Definition mix : Backend.playlist_obj :=
  Backend.PlaylistObj 10 (list_to_map [ ("title", PUnicode "Mix") ]%string) false.

Definition news : Backend.feed_obj :=
  Backend.FeedObj
    (Backend.PlaylistObj 11 (list_to_map [ ("title", PUnicode "News") ]%string)
       false)
    (Some "http://example.org/feed.xml"%string).

Definition manual : Backend.feed_obj :=
  Backend.FeedObj
    (Backend.PlaylistObj 12 (list_to_map [ ("title", PUnicode "Manual") ]%string)
       false)
    (Some "dtv:manualFeed"%string).

(** The catalog once the playlist and the feeds have been announced and the
    playlist has received item 1. *)
Definition shelf : Backend.state :=
  (@Backend.handle_item_list itunes_kinds ascii host
     (Backend.ItemList (Some 10) [track 1 (PInt 240)])
     (@Backend.handle_feed_added ascii host [news; manual]
        (@Backend.handle_playlist_added ascii host [mix] "playlist" catalog).2).2).2.

(** A remote library as a DAAP client reports it on a first fetch: the base
    playlist, a playlist whose name carries a NUL, and two songs, the first
    of them in every playlist. *)
Definition remote : ClientUpdateResult.daap_client :=
  ClientUpdateResult.DaapClient true
    (Some (list_to_map
             [ (1, list_to_map [ ("dmap.itemid", PInt 1);
                                 ("dmap.itemname", PStr "Library");
                                 ("daap.baseplaylist", PInt 1) ]%string);
               (2, list_to_map [ ("dmap.itemid", PInt 2);
                                 ("dmap.itemname",
                                  PStr (String Ascii.zero "Mix")) ]%string) ]),
     [])
    (λ playlist_id,
       match playlist_id with
       | None => (Some (list_to_map [ (7, song 7 5000); (8, song 8 240000) ]), [])
       | Some _ => (Some (list_to_map [ (7, song 7 5000) ]), [])
       end)
    (λ daap_id _, if daap_id =? 7 then "/databases/1/items/7.mp3"%string
                  else "/databases/1/items/8.mp3"%string).

(** What the first fetch from that library returns. *)
Definition fetched : Client.update_result :=
  match ClientUpdateResult.init remote with
  | ClientUpdateResult.Fetched result => result
  | ClientUpdateResult.Failed _ => Client.Result [] ∅ [] ∅ [] ∅ ∅
  end.

(** A tracker in a process that has used up every database path. *)
Definition crowded : Tracker.state :=
  Tracker.State "miro-local" "/support" ∅ ∅ ∅ ∅
    (Share.World (list_to_set (Share.candidate "/support" <$> seq 0 300)) ∅ ∅)
    ∅ [] 0 [].

(** The tracker once share A has been advertised. *)
Definition advertised : Tracker.state :=
  (@Tracker.mdns_callback_backend hash_by_port true "A" "10.0.0.2" 3689
     tracker_start).2.

(** The same tracker when the share has a tracker of its own. *)
Definition connected : Tracker.state :=
  Tracker.State (Tracker.own_name advertised) (Tracker.support_dir advertised)
    (Tracker.name_to_id_map advertised) {[96311]} (Tracker.shares advertised)
    (Tracker.available_shares advertised) (Tracker.world advertised)
    (Tracker.timers advertised) (Tracker.test_connects advertised)
    (Tracker.next_handle advertised) (Tracker.outbox advertised).

End Sample.

(** * Properties *)

(** ** Reasoning about methods *)

Lemma bind_ok {S A B} (m : M S A) (k : A → M S B) s b s' :
  bind m k s = (Ok b, s') →
  ∃ a s1, m s = (Ok a, s1) ∧ k a s1 = (Ok b, s').
Proof.
  unfold bind. destruct (m s) as [[a|e] s1]; [eauto | discriminate].
Qed.

Lemma bind_run {S A B} (m : M S A) (k : A → M S B) s a s1 :
  m s = (Ok a, s1) → bind m k s = k a s1.
Proof. unfold bind. by intros ->. Qed.

Lemma bind_raise {S A B} (m : M S A) (k : A → M S B) s e s1 :
  m s = (Raise e, s1) → bind m k s = (Raise e, s1).
Proof. unfold bind. by intros ->. Qed.

Lemma preserves_ret {S A X} (f : S → X) (a : A) : preserves f (ret a).
Proof. by intros s. Qed.

Lemma preserves_raise {S A X} (f : S → X) e : preserves f (@raise S A e).
Proof. by intros s. Qed.

Lemma preserves_get {S X} (f : S → X) : preserves f get.
Proof. by intros s. Qed.

Lemma preserves_modify {S X} (f : S → X) (g : S → S) :
  (∀ s, f (g s) = f s) → preserves f (modify g).
Proof. intros Hg s. apply Hg. Qed.

Lemma preserves_bind {S A B X} (f : S → X) (m : M S A) (k : A → M S B) :
  preserves f m → (∀ a, preserves f (k a)) → preserves f (bind m k).
Proof.
  intros Hm Hk s. unfold bind. specialize (Hm s).
  destruct (m s) as [[a|e] s1]; simpl in *; [|done].
  by rewrite Hk.
Qed.

Lemma preserves_subscript {S K A X} `{Countable K} (f : S → X)
    (d : gmap K A) k :
  preserves f (subscript d k).
Proof. intros s. unfold subscript. by destruct (d !! k). Qed.

Lemma preserves_try_except {S A X} (f : S → X) (m h : M S A) e :
  preserves f m → preserves f h → preserves f (try_except m e h).
Proof.
  intros Hm Hh s. unfold try_except. specialize (Hm s).
  destruct (m s) as [[a|e'] s1]; simpl in *; [done|].
  destruct (decide (e' = e)); [|done]. by rewrite Hh.
Qed.

Lemma preserves_for_each {S A X} (f : S → X) (xs : list A)
    (body : A → M S unit) :
  (∀ x, preserves f (body x)) → preserves f (for_each xs body).
Proof.
  intros Hbody. induction xs as [|x rest IH]; simpl.
  - apply preserves_ret.
  - by apply preserves_bind.
Qed.

Lemma preserves_fold_each {S A B X} (f : S → X) (xs : list A) (b : B)
    (body : B → A → M S B) :
  (∀ b x, preserves f (body b x)) → preserves f (fold_each xs b body).
Proof.
  intros Hbody. revert b. induction xs as [|x rest IH]; intros b; simpl.
  - apply preserves_ret.
  - apply preserves_bind; [apply Hbody | intros b'; apply IH].
Qed.

(** One step of a frame proof: peel the outermost construct of the method. *)
Ltac frame_step :=
  lazymatch goal with
  | |- preserves _ (bind _ _) => apply preserves_bind; [|intros ?]
  | |- preserves _ (ret _) => apply preserves_ret
  | |- preserves _ (raise _) => apply preserves_raise
  | |- preserves _ get => apply preserves_get
  | |- preserves _ (modify _) => apply preserves_modify; intros ?; reflexivity
  | |- preserves _ (subscript _ _) => apply preserves_subscript
  | |- preserves _ (try_except _ _ _) => apply preserves_try_except
  | |- preserves _ (for_each _ _) => apply preserves_for_each; intros ?
  | |- preserves _ (fold_each _ _ _) => apply preserves_fold_each; intros ? ?
  | |- preserves _ (match ?x with _ => _ end) => destruct x
  | |- preserves _ ((match ?x with _ => _ end) _) => destruct x
  | |- preserves _ ((λ _, _) _) => cbv beta
  | |- preserves _ (let _ := _ in _) => cbv zeta
  end.

Ltac frame := repeat frame_step.

Lemma maintains_ret {S A} (I : S → Prop) (a : A) : maintains I (ret a).
Proof. by intros s. Qed.

Lemma maintains_raise {S A} (I : S → Prop) e : maintains I (@raise S A e).
Proof. by intros s. Qed.

Lemma maintains_modify {S} (I : S → Prop) (g : S → S) :
  (∀ s, I s → I (g s)) → maintains I (modify g).
Proof. intros Hg s. apply Hg. Qed.

Lemma maintains_bind {S A B} (I : S → Prop) (m : M S A) (k : A → M S B) :
  maintains I m → (∀ a, maintains I (k a)) → maintains I (bind m k).
Proof.
  intros Hm Hk s Hs. unfold bind. specialize (Hm s Hs).
  destruct (m s) as [[a|e] s1]; simpl in *; [|done].
  by apply Hk.
Qed.

(** After [s ←' get], the rest runs in the state it has just read. *)
Lemma maintains_get_bind {S B} (I : S → Prop) (k : S → M S B) :
  (∀ s, I s → I (k s s).2) → maintains I (bind get k).
Proof. intros Hk s Hs. by apply Hk. Qed.

Lemma maintains_subscript {S K A} `{Countable K} (I : S → Prop)
    (d : gmap K A) k :
  maintains I (subscript d k).
Proof. intros s Hs. unfold subscript. by destruct (d !! k). Qed.

Lemma maintains_try_except {S A} (I : S → Prop) (m h : M S A) e :
  maintains I m → maintains I h → maintains I (try_except m e h).
Proof.
  intros Hm Hh s Hs. unfold try_except. specialize (Hm s Hs).
  destruct (m s) as [[a|e'] s1]; simpl in *; [done|].
  destruct (decide (e' = e)); [|done]. by apply Hh.
Qed.

Lemma maintains_for_each {S A} (I : S → Prop) (xs : list A)
    (body : A → M S unit) :
  (∀ x, maintains I (body x)) → maintains I (for_each xs body).
Proof.
  intros Hbody. induction xs as [|x rest IH]; simpl.
  - apply maintains_ret.
  - by apply maintains_bind.
Qed.

Lemma maintains_fold_each {S A B} (I : S → Prop) (xs : list A) (b : B)
    (body : B → A → M S B) :
  (∀ b x, maintains I (body b x)) → maintains I (fold_each xs b body).
Proof.
  intros Hbody. revert b. induction xs as [|x rest IH]; intros b; simpl.
  - apply maintains_ret.
  - apply maintains_bind; [apply Hbody | intros b'; apply IH].
Qed.

(** Results of concrete runs, put back together from their parts. *)
Lemma run_eta {S A} (r : outcome A * S) a : r.1 = Ok a → r = (Ok a, r.2).
Proof. destruct r as [o s]. simpl. by intros ->. Qed.

Lemma ok_eta {A} (r : outcome A) (d : A) :
  (if r is Ok _ then true else false) = true →
  r = Ok (match r with Ok a => a | Raise _ => d end).
Proof. by destruct r. Qed.

Lemma some_eta {A} (o : option A) (d : A) :
  (if o is Some _ then true else false) = true → o = Some (default d o).
Proof. by destruct o. Qed.

Lemma subscript_ok {S K A} `{Countable K} (d : gmap K A) k (s s' : S) a :
  subscript d k s = (Ok a, s') → s' = s ∧ d !! k = Some a.
Proof.
  unfold subscript. destruct (d !! k); [|discriminate]. by intros [= -> ->].
Qed.

Lemma preserves_run {S A X} (f : S → X) (m : M S A) s r s' :
  preserves f m → m s = (r, s') → f s' = f s.
Proof. intros Hm Hrun. specialize (Hm s). by rewrite Hrun in Hm. Qed.

(** ** [Share]: the set of used database paths *)

Section ShareFacts.
Import Share.

(** A successful probe returns a path outside the used set and does not
    change that set. *)
Lemma probe_fresh sd indices w c d w' :
  probe sd indices w = (Ok (c, d), w') →
  (c ∉ used_db_paths w) ∧ used_db_paths w' = used_db_paths w.
Proof.
  revert w. induction indices as [|i rest IH]; intros w; simpl.
  - discriminate.
  - destruct (decide (candidate sd i ∈ used_db_paths w)) as [Hin|Hout].
    + apply IH.
    + destruct (decide (candidate sd i ∈ files w)).
      * unfold os_remove.
        destruct (decide (candidate sd i ∈ undeletable w)).
        -- apply IH.
        -- cbn. intros [= <- <- <-]. done.
      * cbn. intros [= <- <- <-]. done.
Qed.

Lemma find_unused_db_fresh sd w c d w' :
  find_unused_db sd w = (Ok (c, d), w') →
  (c ∉ used_db_paths w) ∧ used_db_paths w' = used_db_paths w.
Proof. apply probe_fresh. Qed.

(** [__init__] claims a path that was free and adds it to the set. *)
Lemma init_claims sd i n h p w sh w' :
  init sd i n h p w = (Ok sh, w') →
  ∃ c, db_path sh = Some c ∧ (c ∉ used_db_paths w)
       ∧ used_db_paths w' = {[c]} ∪ used_db_paths w.
Proof.
  unfold init. intros Hrun.
  apply bind_ok in Hrun as ([c d] & w1 & Hprobe & Hrest).
  apply find_unused_db_fresh in Hprobe as [Hfresh Hsame].
  unfold bind, modify, ret in Hrest. injection Hrest as <- <-.
  exists c. split; [done|]. split; [done|]. simpl. by rewrite Hsame.
Qed.

(** [destroy] never raises and leaves the set of used paths as it was. *)
Lemma destroy_keeps_used sh w :
  ∃ w', destroy sh w = (Ok (Make (id sh) (name sh) (host sh) (port sh) None None), w')
        ∧ used_db_paths w' = used_db_paths w.
Proof.
  unfold destroy, bind. destruct (db_path sh) as [p|]; cbn.
  - destruct (String.eqb p ""); cbn; [eauto|].
    unfold fileutil_delete. destruct (decide (p ∈ undeletable w)); cbn; eauto.
  - eauto.
Qed.

(** C9, as the code has it.  The path a [Share] claims at construction is in
    the process-wide set of used paths from then on: it is still there after
    [destroy()], which only closes the storage, deletes the file and clears
    the attributes, and no [Share] constructed later, in any world whose used
    set has not shrunk, is given that path. *)
Theorem used_db_path_never_released sd i n h p w0 sh w1 sh' w2 c :
  init sd i n h p w0 = (Ok sh, w1) →
  db_path sh = Some c →
  destroy sh w1 = (Ok sh', w2) →
  c ∈ used_db_paths w1
  ∧ c ∈ used_db_paths w2
  ∧ db_path sh' = None
  ∧ ∀ sd' i' n' h' p' w3 sh2 w4,
      used_db_paths w2 ⊆ used_db_paths w3 →
      init sd' i' n' h' p' w3 = (Ok sh2, w4) →
      db_path sh2 ≠ Some c.
Proof.
  intros Hinit Hpath Hdestroy.
  apply init_claims in Hinit as (c' & Hc' & _ & Hused).
  assert (c' = c) as -> by congruence.
  destruct (destroy_keeps_used sh w1) as (w2' & Hrun & Hkept).
  rewrite Hrun in Hdestroy. injection Hdestroy as <- <-.
  assert (c ∈ used_db_paths w1) as Hin.
  { rewrite Hused. apply elem_of_union_l. by apply elem_of_singleton. }
  split; [done|]. split; [by rewrite Hkept|]. split; [done|].
  intros sd' i' n' h' p' w3 sh2 w4 Hsub Hinit2 Heq.
  apply init_claims in Hinit2 as (c2 & Hc2 & Hfresh & _).
  assert (c2 = c) as -> by congruence.
  apply Hfresh, Hsub. by rewrite Hkept.
Qed.

End ShareFacts.

(** The theorem at work: the first share of a process, destroyed at once. *)
Lemma used_db_path_never_released_witness :
  let c := "/support/sharing-db-0"%string in
  let w0 := Share.World ∅ ∅ ∅ in
  let sh := Share.Make 7 "A" "10.0.0.2" 3689 (Some c) (Some c) in
  let w1 := Share.World {[c]} {[c]} ∅ in
  let sh' := Share.Make 7 "A" "10.0.0.2" 3689 None None in
  let w2 := Share.World {[c]} ∅ ∅ in
  Share.init "/support" 7 "A" "10.0.0.2" 3689 w0 = (Ok sh, w1)
  ∧ Share.db_path sh = Some c
  ∧ Share.destroy sh w1 = (Ok sh', w2)
  ∧ c ∈ Share.used_db_paths w1
  ∧ c ∈ Share.used_db_paths w2
  ∧ Share.db_path sh' = None
  ∧ ∀ sd' i' n' h' p' w3 sh2 w4,
      Share.used_db_paths w2 ⊆ Share.used_db_paths w3 →
      Share.init sd' i' n' h' p' w3 = (Ok sh2, w4) →
      Share.db_path sh2 ≠ Some c.
Proof.
  intros c w0 sh w1 sh' w2.
  assert (Share.init "/support" 7 "A" "10.0.0.2" 3689 w0 = (Ok sh, w1)) as H1
    by (vm_compute; reflexivity).
  assert (Share.db_path sh = Some c) as H2 by reflexivity.
  assert (Share.destroy sh w1 = (Ok sh', w2)) as H3
    by (vm_compute; reflexivity).
  split; [exact H1|]. split; [exact H2|]. split; [exact H3|].
  exact (used_db_path_never_released _ _ _ _ _ _ _ _ _ _ _ H1 H2 H3).
Defined.

(** C9 as stated fails: nothing releases the slot.  In a fresh process the
    first share takes [sharing-db-0]; after its [destroy()] the path is still
    in the used set, and the next share is given [sharing-db-1]. *)
Lemma destroy_does_not_release_slot :
  let w0 := Share.World ∅ ∅ ∅ in
  ∃ sh1 w1 sh1' w2 sh2 w3,
    Share.init "/support" 7 "A" "10.0.0.2" 3689 w0 = (Ok sh1, w1)
    ∧ Share.db_path sh1 = Some "/support/sharing-db-0"%string
    ∧ Share.destroy sh1 w1 = (Ok sh1', w2)
    ∧ bool_decide ("/support/sharing-db-0"%string ∈ Share.used_db_paths w2) = true
    ∧ Share.init "/support" 8 "B" "10.0.0.3" 3689 w2 = (Ok sh2, w3)
    ∧ Share.db_path sh2 = Some "/support/sharing-db-1"%string.
Proof.
  intros w0. eexists _, _, _, _, _, _.
  repeat split; vm_compute; reflexivity.
Qed.

(** ** [SharingTracker]: share identity (C1) and disappearance (C6) *)

Section TrackerFacts.
Import Tracker.
Context `{Runtime}.

Lemma in_world_names {A} (m : M Share.world A) :
  preserves name_to_id_map (in_world m).
Proof. intros s. unfold in_world. by destruct (m (world s)). Qed.

Lemma fresh_names : preserves name_to_id_map fresh.
Proof. by intros s. Qed.

Lemma cancel_stale_names k i : preserves name_to_id_map (cancel_stale k i).
Proof. unfold cancel_stale. frame. Qed.

Lemma send_names m : preserves name_to_id_map (send_to_frontend m).
Proof. unfold send_to_frontend. frame. Qed.

(** Once the id is resolved, the rest of an [added] event leaves
    [name_to_id_map] alone, also when [Share(...)] raises. *)
Lemma on_added_names sid fullname h p :
  preserves name_to_id_map (on_added sid fullname h p).
Proof.
  unfold on_added, try_to_add.
  repeat first
    [ frame_step
    | apply in_world_names | apply fresh_names
    | apply cancel_stale_names | apply send_names ].
Qed.

(** An [added] event under the tracker's own name is dropped. *)
Lemma mdns_own_name_ignored added h p s :
  mdns_callback_backend added (own_name s) h p s = (Ok tt, s).
Proof.
  unfold mdns_callback_backend, bind, get. by rewrite String.eqb_refl.
Qed.

(** Any other [added] event binds the name and goes on to [on_added]. *)
Lemma mdns_added_unfold fullname h p s :
  fullname ≠ own_name s →
  mdns_callback_backend true fullname h p s
  = on_added (compute_share_id h p) fullname h p
      (set_names <[fullname := compute_share_id h p]> s).
Proof.
  intros Hne. unfold mdns_callback_backend, bind, get.
  apply String.eqb_neq in Hne. by rewrite Hne.
Qed.

Lemma mdns_added_binds fullname h p s :
  fullname ≠ own_name s →
  name_to_id_map (mdns_callback_backend true fullname h p s).2 !! fullname
  = Some (compute_share_id h p).
Proof.
  intros Hne. rewrite mdns_added_unfold by done.
  rewrite on_added_names. simpl. apply lookup_insert_eq.
Qed.

(** The rename path: a mounted share with this host and port keeps its entry
    and its id, takes the new name and loses its removal timer. *)
Lemma mdns_added_rename_shares fullname h p s k info :
  fullname ≠ own_name s →
  find_mounted h p s = Some (k, info) →
  available_shares (mdns_callback_backend true fullname h p s).2
  = <[k := with_name fullname (with_stale None info)]> (available_shares s).
Proof.
  intros Hne Hfound. rewrite mdns_added_unfold by done.
  unfold on_added, bind at 1, get.
  change (find_mounted h p (set_names _ s)) with (find_mounted h p s).
  rewrite Hfound. unfold cancel_stale.
  destruct info as [i n ho po mo av [t|] u]; cbn.
  - by rewrite insert_insert_eq.
  - done.
Qed.

Lemma mdns_added_rename fullname h p s k info :
  fullname ≠ own_name s →
  find_mounted h p s = Some (k, info) →
  ∃ info', available_shares (mdns_callback_backend true fullname h p s).2 !! k
           = Some info'
           ∧ share_id info' = share_id info
           ∧ name info' = fullname.
Proof.
  intros Hne Hfound. rewrite (mdns_added_rename_shares _ _ _ _ k info) by done.
  eexists. by rewrite lookup_insert_eq.
Qed.

(** The creation path: a share not seen before is constructed under the
    computed id, stamped with a fresh UUID and handed to a test connect. *)
Lemma mdns_added_creates_run fullname h p s sh w :
  fullname ≠ own_name s →
  find_mounted h p s = None →
  available_shares s !! compute_share_id h p = None →
  Share.init (support_dir s) (compute_share_id h p) fullname h p (world s)
  = (Ok sh, w) →
  mdns_callback_backend true fullname h p s
  = (Ok tt,
     let sid := compute_share_id h p in
     add_test_connect (sid, next_handle s)
       (set_available <[sid := with_uuid (Some (next_handle s)) (SharingInfo sh)]>
          (bump_handle
             (set_shares <[sid := sh]>
                (set_world w (set_names <[fullname := sid]> s)))))).
Proof.
  intros Hne Hnone Hfresh Hinit. rewrite mdns_added_unfold by done.
  unfold on_added, bind at 1, get.
  change (find_mounted h p (set_names _ s)) with (find_mounted h p s).
  rewrite Hnone. cbn [available_shares set_names]. rewrite Hfresh.
  unfold in_world, bind at 1. cbn [world set_names support_dir].
  rewrite Hinit. reflexivity.
Qed.

Lemma init_id sd i n h p w sh w' :
  Share.init sd i n h p w = (Ok sh, w') → Share.id sh = i.
Proof.
  unfold Share.init. intros Hinit.
  apply bind_ok in Hinit as (r & w1 & _ & Hrest).
  unfold bind, modify, ret in Hrest. by injection Hrest as <- _.
Qed.

Lemma mdns_added_creates fullname h p s sh w :
  fullname ≠ own_name s →
  find_mounted h p s = None →
  available_shares s !! compute_share_id h p = None →
  Share.init (support_dir s) (compute_share_id h p) fullname h p (world s)
  = (Ok sh, w) →
  shares (mdns_callback_backend true fullname h p s).2
    !! compute_share_id h p = Some sh
  ∧ Share.id sh = compute_share_id h p.
Proof.
  intros Hne Hnone Hfresh Hinit.
  rewrite (mdns_added_creates_run _ _ _ _ sh w) by done.
  split; [apply lookup_insert_eq | by eapply init_id].
Qed.

(** C1.  An [added] event for host [h] and port [p] that is not the
    tracker's own advertisement binds the advertised name to
    [abs(hash((h, p)))]; a second such event with the same host and port,
    whatever its name and whatever the tracker's state, binds the same id;
    a mounted share that is renamed keeps its entry and its id; and a share
    seen for the first time is constructed under that id. *)
Theorem added_share_id_is_abs_hash s s2 fullname fullname2 h p :
  fullname ≠ own_name s →
  fullname2 ≠ own_name s2 →
  let s' := (mdns_callback_backend true fullname h p s).2 in
  let s2' := (mdns_callback_backend true fullname2 h p s2).2 in
  name_to_id_map s' !! fullname = Some (Z.abs (py_hash (h, p)))
  ∧ name_to_id_map s2' !! fullname2 = name_to_id_map s' !! fullname
  ∧ (∀ k info, find_mounted h p s = Some (k, info) →
       ∃ info', available_shares s' !! k = Some info'
                ∧ share_id info' = share_id info ∧ name info' = fullname)
  ∧ (∀ sh w,
       find_mounted h p s = None →
       available_shares s !! Z.abs (py_hash (h, p)) = None →
       Share.init (support_dir s) (Z.abs (py_hash (h, p))) fullname h p (world s)
       = (Ok sh, w) →
       shares s' !! Z.abs (py_hash (h, p)) = Some sh
       ∧ Share.id sh = Z.abs (py_hash (h, p))).
Proof.
  intros Hne Hne2 s' s2'. subst s' s2'.
  rewrite !mdns_added_binds by done.
  split; [done|]. split; [done|]. split.
  - intros k info Hfound.
    destruct (mdns_added_rename fullname h p s k info Hne Hfound)
      as (info' & ? & ? & ?).
    eauto.
  - intros sh w Hnone Hfresh Hinit.
    by apply (mdns_added_creates fullname h p s sh w).
Qed.

(** *** Removal *)

Lemma not_bound_elsewhere (names : gmap string Z) fullname sid :
  (∀ n, names !! n = Some sid → n = fullname) →
  sid ∉ (map_to_list (delete fullname names)).*2.
Proof.
  intros Honly Hin.
  apply list_elem_of_fmap in Hin as ([n i] & -> & Hin).
  apply elem_of_map_to_list in Hin. simpl in *.
  apply lookup_delete_Some in Hin as [Hne Hlook].
  by apply Hne, eq_sym, Honly.
Qed.

(** A [removed] event for a share without a tracker: the share goes at once,
    and the frontend is told exactly when the share's stamp has been
    cleared. *)
Lemma removed_unconnected_run fullname h p s sid victim sh :
  fullname ≠ own_name s →
  name_to_id_map s !! fullname = Some sid →
  (∀ n, name_to_id_map s !! n = Some sid → n = fullname) →
  sid ∉ trackers s →
  available_shares s !! sid = Some victim →
  shares s !! sid = Some sh →
  ∃ w',
    mdns_callback_backend false fullname h p s
    = match connect_uuid victim with
      | None => send_to_frontend (SharingDisappeared victim)
      | Some _ => ret tt
      end
        (set_shares (delete sid)
           (set_world w'
              (set_available (delete sid)
                 (set_names (delete fullname) s)))).
Proof.
  intros Hne Hname Honly Htr Hvictim Hshare.
  destruct (destroy_keeps_used sh (world s)) as (w2 & Hrun & _).
  exists w2.
  apply String.eqb_neq in Hne.
  unfold mdns_callback_backend, resolve_share_id, bind, get, modify, ret.
  rewrite Hne, Hname. cbn [name_to_id_map set_names].
  destruct (decide (sid ∈ _)) as [Hin|_].
  { by apply not_bound_elsewhere in Hin. }
  unfold on_removed, destroy_share, bind, get, modify, ret, subscript, in_world.
  cbn [trackers set_names available_shares shares world set_available].
  destruct (decide (sid ∉ trackers s)) as [_|]; [|done].
  rewrite Hvictim. cbv [ret raise]. cbn [shares set_names set_available world].
  rewrite Hshare. cbn [shares set_names set_available world].
  rewrite Hrun.
  by destruct (connect_uuid victim).
Qed.

(** The two closures of [try_to_add] both clear the stamp they were given;
    only [success] marks the share available and tells the frontend. *)
Lemma try_to_add_failure_run sid uuid info s :
  available_shares s !! sid = Some info →
  connect_uuid info = Some uuid →
  try_to_add_failure sid uuid s
  = (Ok tt, set_available <[sid := with_uuid None info]> s).
Proof.
  intros Hinfo Huuid. unfold try_to_add_failure, bind, get.
  rewrite Hinfo. by rewrite decide_True.
Qed.

Lemma try_to_add_success_run sid uuid info s :
  available_shares s !! sid = Some info →
  connect_uuid info = Some uuid →
  try_to_add_success sid uuid s
  = send_to_frontend
      (TabsChanged [with_available true (with_uuid None info)] [] [])
      (set_available <[sid := with_available true (with_uuid None info)]> s).
Proof.
  intros Hinfo Huuid. unfold try_to_add_success, bind, get.
  rewrite Hinfo. by rewrite decide_True.
Qed.

(** C6, as the code has it.  A share is discovered, its test connect is
    still pending, has failed or has succeeded, and then the share's name is
    withdrawn while it has no tracker.  The share is removed at once in all
    three cases.  [SharingDisappeared] is sent when the test connect has
    finished, with either result, and is not sent while it is pending; the
    share had been marked available only when the test succeeded. *)
Theorem disappeared_iff_test_finished s fullname h p sh w o :
  fullname ≠ own_name s →
  find_mounted h p s = None →
  available_shares s !! compute_share_id h p = None →
  Share.init (support_dir s) (compute_share_id h p) fullname h p (world s)
  = (Ok sh, w) →
  (∀ n, name_to_id_map s !! n = Some (compute_share_id h p) → n = fullname) →
  compute_share_id h p ∉ trackers s →
  let sid := compute_share_id h p in
  let s1 := (mdns_callback_backend true fullname h p s).2 in
  let s2 := (finish_test o sid (next_handle s) s1).2 in
  let s3 := (mdns_callback_backend false fullname h p s2).2 in
  available_shares s3 !! sid = None
  ∧ shares s3 !! sid = None
  ∧ ∃ victim,
      available_shares s2 !! sid = Some victim
      ∧ share_available victim = match o with Succeeded => true | _ => false end
      ∧ outbox s3 = outbox s2 ++ match o with
                                 | Pending => []
                                 | Failed | Succeeded => [SharingDisappeared victim]
                                 end.
Proof.
  intros Hne Hnone Hfresh Hinit Honly Htr sid s1 s2 s3.
  assert (s1 = add_test_connect (sid, next_handle s)
       (set_available <[sid := with_uuid (Some (next_handle s)) (SharingInfo sh)]>
          (bump_handle
             (set_shares <[sid := sh]>
                (set_world w (set_names <[fullname := sid]> s)))))) as Hs1.
  { subst s1. by rewrite (mdns_added_creates_run _ _ _ _ sh w). }
  set (pending := with_uuid (Some (next_handle s)) (SharingInfo sh)) in *.
  assert (available_shares s1 !! sid = Some pending) as Hav1.
  { rewrite Hs1. apply lookup_insert_eq. }
  set (victim := match o with
                 | Pending => pending
                 | Failed => with_uuid None pending
                 | Succeeded => with_available true (with_uuid None pending)
                 end).
  assert (available_shares s2 !! sid = Some victim
          ∧ own_name s2 = own_name s
          ∧ name_to_id_map s2 = <[fullname := sid]> (name_to_id_map s)
          ∧ trackers s2 = trackers s
          ∧ shares s2 !! sid = Some sh) as (Hav2 & Hown & Hnames & Htr2 & Hsh2).
  { subst s2 victim. destruct o; simpl finish_test.
    - rewrite Hs1. cbn. rewrite !lookup_insert_eq. done.
    - rewrite (try_to_add_failure_run _ _ pending) by done.
      rewrite Hs1. cbn. rewrite !lookup_insert_eq. done.
    - rewrite (try_to_add_success_run _ _ pending) by done.
      rewrite Hs1. cbn. rewrite !lookup_insert_eq. done. }
  destruct (removed_unconnected_run fullname h p s2 sid victim sh)
    as (w' & Hrun); try done.
  { by rewrite Hown. }
  { rewrite Hnames. apply lookup_insert_eq. }
  { intros n. rewrite Hnames. destruct (decide (n = fullname)) as [|Hn]; [done|].
    rewrite lookup_insert_ne by done. apply Honly. }
  { by rewrite Htr2. }
  subst s3. rewrite Hrun.
  assert (share_available victim
          = match o with Succeeded => true | _ => false end
          ∧ connect_uuid victim
            = match o with Pending => Some (next_handle s) | _ => None end)
    as [Hflag Hstamp].
  { subst victim. by destruct o. }
  rewrite Hstamp.
  destruct o; cbn; rewrite !lookup_delete_eq; (split; [done|]); (split; [done|]);
    exists victim; rewrite ?app_nil_r; done.
Qed.

End TrackerFacts.

(** Two advertisements of one server, under the names A and B. *)
Lemma added_share_id_is_abs_hash_witness :
  let run := @Tracker.mdns_callback_backend Sample.hash_by_port in
  "A"%string ≠ Tracker.own_name Sample.tracker_start
  ∧ "B"%string ≠ Tracker.own_name Sample.tracker_start
  ∧ Tracker.name_to_id_map
      (run true "A" "10.0.0.2" 3689 Sample.tracker_start).2 !! "A"%string
    = Some 96311
  ∧ Tracker.name_to_id_map
      (run true "B" "10.0.0.2" 3689 Sample.tracker_start).2 !! "B"%string
    = Some 96311.
Proof.
  intros run.
  assert ("A"%string ≠ Tracker.own_name Sample.tracker_start) as HA by done.
  assert ("B"%string ≠ Tracker.own_name Sample.tracker_start) as HB by done.
  destruct (@added_share_id_is_abs_hash Sample.hash_by_port
              Sample.tracker_start Sample.tracker_start
              "A" "B" "10.0.0.2" 3689 HA HB) as (H1 & H2 & _).
  split; [exact HA|]. split; [exact HB|]. split; [exact H1|].
  exact (eq_trans H2 H1).
Defined.

(** A share whose test connect fails, and whose name is then withdrawn. *)
Lemma disappeared_iff_test_finished_witness :
  let run := @Tracker.mdns_callback_backend Sample.hash_by_port in
  let c := "/support/sharing-db-0"%string in
  let sh := Share.Make 96311 "A" "10.0.0.2" 3689 (Some c) (Some c) in
  let w := Share.World {[c]} {[c]} ∅ in
  let s := Sample.tracker_start in
  let s1 := (run true "A" "10.0.0.2" 3689 s).2 in
  let s2 := (Tracker.finish_test Tracker.Failed 96311 0 s1).2 in
  let s3 := (run false "A" "10.0.0.2" 3689 s2).2 in
  "A"%string ≠ Tracker.own_name s
  ∧ Tracker.find_mounted "10.0.0.2" 3689 s = None
  ∧ Tracker.available_shares s !! 96311 = None
  ∧ Share.init (Tracker.support_dir s) 96311 "A" "10.0.0.2" 3689 (Tracker.world s)
    = (Ok sh, w)
  ∧ (∀ n, Tracker.name_to_id_map s !! n = Some 96311 → n = "A"%string)
  ∧ (96311 ∉ Tracker.trackers s)
  ∧ Tracker.available_shares s3 !! 96311 = None
  ∧ Tracker.shares s3 !! 96311 = None
  ∧ ∃ victim,
      Tracker.available_shares s2 !! 96311 = Some victim
      ∧ Tracker.share_available victim = false
      ∧ Tracker.outbox s3
        = Tracker.outbox s2 ++ [Tracker.SharingDisappeared victim].
Proof.
  intros run c sh w s s1 s2 s3.
  assert ("A"%string ≠ Tracker.own_name s) as H1 by done.
  assert (Tracker.find_mounted "10.0.0.2" 3689 s = None) as H2
    by (vm_compute; reflexivity).
  assert (Tracker.available_shares s !! 96311 = None) as H3
    by (vm_compute; reflexivity).
  assert (Share.init (Tracker.support_dir s) 96311 "A" "10.0.0.2" 3689
            (Tracker.world s) = (Ok sh, w)) as H4
    by (vm_compute; reflexivity).
  assert (∀ n, Tracker.name_to_id_map s !! n = Some 96311 → n = "A"%string)
    as H5 by (intros n; simpl; rewrite lookup_empty; discriminate).
  assert (96311 ∉ Tracker.trackers s) as H6 by apply not_elem_of_empty.
  split; [exact H1|]. split; [exact H2|]. split; [exact H3|].
  split; [exact H4|]. split; [exact H5|]. split; [exact H6|].
  exact (@disappeared_iff_test_finished Sample.hash_by_port s "A" "10.0.0.2"
           3689 sh w Tracker.Failed H1 H2 H3 H4 H5 H6).
Defined.

(** C6 as stated fails: the frontend is also told about a share whose test
    connect failed.  The share is advertised, its test connect is scheduled
    and fails, nothing has been sent and the share was never marked
    available; withdrawing the name then sends [SharingDisappeared]. *)
Lemma disappeared_after_failed_test :
  let run := @Tracker.mdns_callback_backend Sample.hash_by_port in
  let s1 := (run true "A" "10.0.0.2" 3689 Sample.tracker_start).2 in
  let s2 := (Tracker.try_to_add_failure 96311 0 s1).2 in
  let s3 := (run false "A" "10.0.0.2" 3689 s2).2 in
  Tracker.test_connects s1 = [(96311, 0%nat)]
  ∧ Tracker.outbox s2 = []
  ∧ Tracker.share_available <$> Tracker.available_shares s2 !! 96311
    = Some false
  ∧ Tracker.outbox s3
    = [Tracker.SharingDisappeared
         (Tracker.Info 96311 "A" "10.0.0.2" 3689 false false None None)].
Proof. vm_compute. repeat split. Qed.

(** ** The client session: merges (C7, C8) and inbound conversion (C4) *)

Section ClientFacts.
Import Client.
Context `{Libdaap} `{Codec} `{Database}.

(** *** Deleted items *)

(** When the delta updates no item, the first deleted id that the mirrored
    database does not know is logged and then ends the merge: the local
    variable [sharing_item] was never bound. *)
Lemma delete_unknown_unbound item_id rest res s :
  items res = [] →
  deleted_items res = item_id :: rest →
  db s !! item_id = None →
  update_sharing_items res s
  = (Raise UnboundLocalError,
     (emit (Warn "deleted item not found" item_id) s).2).
Proof.
  intros Hitems Hdel Hmiss.
  unfold update_sharing_items. rewrite Hitems, Hdel. cbn [fold_each].
  unfold delete_item, try_except, get_sharing_item, bind, get, ret.
  by rewrite Hmiss.
Qed.

(** *** Virtual playlists *)

(** The loop shared by [items_in_podcasts] and [items_in_playlists]: it
    reads the tracker and changes nothing. *)
Lemma collect_spec (sel : daap_dict → bool) (s : state) l acc s0 rv s' :
  fold_each l acc
    (λ (rv : gset Z) '(daap_id, data),
       (if sel data then
          members ←' subscript (tracker_items s) daap_id;
          ret (rv ∪ members)
        else ret rv)%py : M state (gset Z)) s0 = (Ok rv, s') →
  s' = s0
  ∧ ∀ x, x ∈ rv ↔
      x ∈ acc ∨ ∃ daap_id data members,
                 (daap_id, data) ∈ l ∧ sel data = true
                 ∧ tracker_items s !! daap_id = Some members ∧ x ∈ members.
Proof.
  revert acc s0. induction l as [|[daap_id data] rest IH]; intros acc s0; simpl.
  - intros [= <- <-]. split; [done|]. intros x. split; [auto|].
    intros [?|(? & ? & ? & Hin & _)]; [done|]. by apply elem_of_nil in Hin.
  - intros Hrun. apply bind_ok in Hrun as (rv1 & s1 & Hstep & Hrest).
    apply IH in Hrest as [-> Hrv].
    destruct (sel data) eqn:Hsel.
    + unfold bind, subscript in Hstep.
      destruct (tracker_items s !! daap_id) as [members|] eqn:Hmem;
        [|discriminate].
      injection Hstep as <- <-. split; [done|].
      intros x. rewrite Hrv, elem_of_union. split.
      * intros [[?|?]|(i & d & m & Hin & ?)]; [by left| |].
        -- right. exists daap_id, data, members. rewrite elem_of_cons. auto.
        -- right. exists i, d, m. rewrite elem_of_cons. auto.
      * intros [?|(i & d & m & Hin & Hs & Hm & Hx)]; [by left; left|].
        apply elem_of_cons in Hin as [[= -> ->]|Hin].
        -- left. right. congruence.
        -- right. exists i, d, m. auto.
    + injection Hstep as <- <-. split; [done|].
      intros x. rewrite Hrv. split.
      * intros [?|(i & d & m & Hin & ?)]; [by left|].
        right. exists i, d, m. rewrite elem_of_cons. auto.
      * intros [?|(i & d & m & Hin & Hs & Hm & Hx)]; [by left|].
        apply elem_of_cons in Hin as [[= -> ->]|Hin]; [congruence|].
        right. exists i, d, m. auto.
Qed.

Lemma items_in_podcasts_spec s rv s' :
  items_in_podcasts s = (Ok rv, s') →
  s' = s ∧ ∀ x, x ∈ rv ↔ in_flagged s true x.
Proof.
  unfold items_in_podcasts, bind at 1, get. intros Hrun.
  apply (collect_spec podcast_flag) in Hrun as [-> Hrv].
  split; [done|]. intros x. rewrite Hrv. unfold in_flagged. split.
  - intros [Hx|(i & d & m & Hin & ? & ? & ?)]; [set_solver|].
    apply elem_of_map_to_list in Hin. eauto 10.
  - intros (i & d & m & Hd & ? & ? & ?). right. exists i, d, m.
    by rewrite elem_of_map_to_list.
Qed.

Lemma items_in_playlists_spec s rv s' :
  items_in_playlists s = (Ok rv, s') →
  s' = s ∧ ∀ x, x ∈ rv ↔ in_flagged s false x.
Proof.
  unfold items_in_playlists, bind at 1, get. intros Hrun.
  apply (collect_spec (λ d, negb (podcast_flag d))) in Hrun as [-> Hrv].
  split; [done|]. intros x. rewrite Hrv. unfold in_flagged. split.
  - intros [Hx|(i & d & m & Hin & Hflag & ? & ?)]; [set_solver|].
    apply elem_of_map_to_list in Hin. apply negb_true_iff in Hflag. eauto 10.
  - intros (i & d & m & Hd & Hflag & ? & ?). right. exists i, d, m.
    rewrite elem_of_map_to_list, Hflag. done.
Qed.


(** [update_fake_playlists] files the two unions and touches nothing else. *)
Lemma update_fake_playlists_spec s s' :
  update_fake_playlists s = (Ok tt, s') →
  ∃ P Q : gset Z,
    s' = set_playlist_item_map
           (λ m, <[inr "playlist"%string := Q]> (<[inr "podcast"%string := P]> m)) s
    ∧ (∀ x, x ∈ P ↔ in_flagged s true x)
    ∧ (∀ x, x ∈ Q ↔ in_flagged s false x).
Proof.
  unfold update_fake_playlists. intros Hrun.
  apply bind_ok in Hrun as (P & s1 & HP & Hrun).
  apply items_in_podcasts_spec in HP as [-> HP].
  apply bind_ok in Hrun as ([] & s2 & Hmod & Hrun).
  injection Hmod as <-.
  apply bind_ok in Hrun as (Q & s3 & HQ & Hrun).
  apply items_in_playlists_spec in HQ as [-> HQ].
  injection Hrun as <-.
  exists P, Q. split; [done|]. split; [done|]. apply HQ.
Qed.

(** With the tracker's two dictionaries over the same playlists, the
    recomputation cannot fail. *)
Lemma collect_returns (sel : daap_dict → bool) (s : state) l acc s0 :
  (∀ daap_id data, (daap_id, data) ∈ l → is_Some (tracker_items s !! daap_id)) →
  ∃ rv,
    fold_each l acc
      (λ (rv : gset Z) '(daap_id, data),
         (if sel data then
            members ←' subscript (tracker_items s) daap_id;
            ret (rv ∪ members)
          else ret rv)%py : M state (gset Z)) s0 = (Ok rv, s0).
Proof.
  revert acc. induction l as [|[daap_id data] rest IH]; intros acc Hdom; simpl.
  - by exists acc.
  - assert (∀ i d, (i, d) ∈ rest → is_Some (tracker_items s !! i)) as Hrest.
    { intros i d Hin. apply (Hdom i d). by apply list_elem_of_further. }
    destruct (sel data).
    + destruct (Hdom daap_id data) as [members Hmem]; [apply list_elem_of_here|].
      destruct (IH (acc ∪ members) Hrest) as [rv Hrv].
      exists rv. unfold bind at 1, bind at 1, subscript. rewrite Hmem. apply Hrv.
    + destruct (IH acc Hrest) as [rv Hrv]. exists rv. apply Hrv.
Qed.

Lemma update_fake_playlists_returns s :
  dom (playlist_data s) ⊆ dom (tracker_items s) →
  ∃ s', update_fake_playlists s = (Ok tt, s').
Proof.
  intros Hdom.
  assert (∀ s1, tracker_items s1 = tracker_items s →
                playlist_data s1 = playlist_data s →
                ∀ daap_id data, (daap_id, data) ∈ map_to_list (playlist_data s1) →
                is_Some (tracker_items s1 !! daap_id)) as Hin.
  { intros s1 Ht Hp i d Hi. rewrite Ht, Hp in *.
    apply elem_of_map_to_list in Hi. apply elem_of_dom, Hdom, elem_of_dom. eauto. }
  unfold update_fake_playlists, items_in_podcasts, items_in_playlists.
  unfold bind at 1, bind at 1, get.
  destruct (collect_returns podcast_flag s (map_to_list (playlist_data s)) ∅ s
              (Hin s eq_refl eq_refl)) as [P ->].
  unfold bind at 1, modify. unfold bind at 1, bind at 1, get.
  set (s1 := set_playlist_item_map _ s).
  destruct (collect_returns (λ d, negb (podcast_flag d)) s1
              (map_to_list (playlist_data s1)) ∅ s1
              (Hin s1 eq_refl eq_refl)) as [Q HQ].
  rewrite HQ. eauto.
Qed.

Lemma disjoint_iff_no_shared_item (s : state) (P Q : gset Z) :
  (∀ x, x ∈ P ↔ in_flagged s true x) →
  (∀ x, x ∈ Q ↔ in_flagged s false x) →
  P ## Q ↔ ¬ ∃ x, in_flagged s true x ∧ in_flagged s false x.
Proof.
  intros HP HQ. rewrite elem_of_disjoint. split.
  - intros Hdis (x & Hp & Hq). apply (Hdis x); [by apply HP | by apply HQ].
  - intros Hno x Hp Hq. apply Hno. exists x. split; [by apply HP | by apply HQ].
Qed.

Lemma in_flagged_ext s1 s2 flag x :
  playlist_data s1 = playlist_data s2 →
  tracker_items s1 = tracker_items s2 →
  in_flagged s1 flag x ↔ in_flagged s2 flag x.
Proof. unfold in_flagged. by intros -> ->. Qed.

Lemma tracker_update_trace res : preserves trace (tracker_update res).
Proof. unfold tracker_update. frame. Qed.

Lemma make_info_frame {X} (f : state → X) daap_id data :
  preserves f (make_playlist_sharing_info daap_id data).
Proof. unfold make_playlist_sharing_info. frame. Qed.

(** *** Inbound conversion *)

Lemma daap_mapping_duration k :
  assoc daap_mapping k = Some "duration"%string → k = "daap.songtime"%string.
Proof.
  unfold daap_mapping. simpl.
  repeat match goal with
         | |- context [String.eqb k ?x] =>
             destruct (String.eqb_spec k x) as [->|_]; [done|]
         end.
  discriminate.
Qed.

(** The attribute loop copies an integer [daap.songtime] to [duration] as it
    is. *)
Lemma convert_fields_duration (rawitem : daap_dict) (t : Z) :
  ∀ item_data,
    map_fold convert_field (Ok ∅) rawitem = Ok item_data →
    rawitem !! "daap.songtime"%string = Some (PInt t) →
    item_data !! "duration"%string = Some (PInt t).
Proof.
  apply (map_fold_weak_ind
    (λ acc (m : daap_dict),
       ∀ item_data, acc = Ok item_data →
         (m !! "daap.songtime"%string = Some (PInt t) →
          item_data !! "duration"%string = Some (PInt t)))).
  - intros d _. by rewrite lookup_empty.
  - intros k v m acc Hfresh IH d Hstep Hlook.
    unfold convert_field in Hstep.
    destruct acc as [d0|]; [|discriminate].
    destruct (decide (k = "daap.songtime"%string)) as [->|Hk].
    + rewrite lookup_insert_eq in Hlook. injection Hlook as ->.
      simpl in Hstep. injection Hstep as <-. apply lookup_insert_eq.
    + rewrite lookup_insert_ne in Hlook by done.
      specialize (IH d0 eq_refl Hlook).
      destruct (assoc daap_mapping k) as [key|] eqn:Hkey.
      * assert (key ≠ "duration"%string) as Hne.
        { intros ->. by apply daap_mapping_duration in Hkey. }
        destruct v; try (injection Hstep as <-; by rewrite lookup_insert_ne).
        destruct (utf8_decode s); [|discriminate].
        injection Hstep as <-. by rewrite lookup_insert_ne.
      * by injection Hstep as <-.
Qed.

Lemma convert_keeps_duration rawitem res item_data t :
  convert_raw_sharing_item rawitem res = Ok item_data →
  rawitem !! "daap.songtime"%string = Some (PInt t) →
  item_data !! "duration"%string = Some (PInt t).
Proof.
  unfold convert_raw_sharing_item. intros Hconv Hraw.
  destruct (map_fold convert_field (Ok ∅) rawitem) as [d|] eqn:Hfold;
    [|discriminate].
  pose proof (convert_fields_duration rawitem t d Hfold Hraw) as Hd.
  destruct (_ !! "daap_id"%string) as [daap_id|] in Hconv; [|discriminate].
  destruct (get_item_path res daap_id) as [path|]; [|discriminate].
  injection Hconv as <-.
  rewrite !lookup_insert_ne by done.
  destruct (d !! "kind"%string ≫= itemkind_rlookup);
    rewrite ?lookup_insert_ne by done; done.
Qed.
End ClientFacts.

(** C7 (the code departs from the claim).  A delta whose [deleted_items]
    names an id that the mirrored database does not hold is logged, and then
    [sharing_item.remove()] is evaluated although the failed lookup bound
    nothing: with no item updated earlier in the same merge the call raises
    [UnboundLocalError] and the merge is abandoned. *)
Theorem unknown_deleted_item_raises :
  let run := @Client.client_update_callback Sample.itunes_kinds Sample.ascii
               Sample.forgiving Sample.delta_deleting_unknown
               Sample.client_connected in
  run.1 = Raise UnboundLocalError
  ∧ Client.trace run.2
    = Client.trace Sample.client_connected
      ++ [Client.Warn "deleted item not found" 42].
Proof.
  intros run. subst run.
  split; vm_compute; reflexivity.
Qed.

(** When an item was updated earlier in the same merge, the stale binding is
    used instead: the merge returns, and the row that was just updated is the
    one removed. *)
Example unknown_deleted_item_removes_another :
  let r := @Client.client_update_callback Sample.itunes_kinds Sample.ascii
             Sample.forgiving Sample.delta_changing_and_deleting
             Sample.client_connected in
  r.1 = Ok tt
  ∧ Client.db Sample.client_connected !! 7 ≫= (.!! "title"%string)
    = Some (PUnicode "Song")
  ∧ Client.db r.2 !! 7 = None
  ∧ Client.trace r.2
    = Client.trace Sample.client_connected
      ++ [ Client.SignalChange 7;
           Client.Warn "deleted item not found" 42;
           Client.TabsChanged [] [] [] ].
Proof.
  intros r. subst r.
  split; [vm_compute; reflexivity|].
  split; [vm_compute; reflexivity|].
  split; [vm_compute; reflexivity|].
  vm_compute; reflexivity.
Qed.

(** C8 as stated fails.  No playlist can be flagged and unflagged at once, so
    the claim makes the two virtual playlists always disjoint; after the
    sample snapshot song 7 is in a podcast feed and in an ordinary playlist,
    and is in both virtual playlists. *)
Lemma virtual_playlists_overlap :
  let s := Sample.client_connected in
  Client.playlist_item_map s !! inr "podcast"%string = Some {[7]}
  ∧ Client.playlist_item_map s !! inr "playlist"%string = Some {[7; 8]}
  ∧ ¬ ({[7]} : gset Z) ## {[7; 8]}
  ∧ ∀ playlist_id data,
      Client.playlist_data s !! playlist_id = Some data →
      ¬ (Client.podcast_flag data = true ∧ Client.podcast_flag data = false).
Proof.
  intros s. subst s.
  split; [vm_compute; reflexivity|].
  split; [vm_compute; reflexivity|].
  split; [set_solver|].
  intros playlist_id data _ [Hyes Hno]. congruence.
Qed.

(** A merge that reports no change in membership or in the visible playlists
    does not recompute: flagging the nameless playlist, which holds song 8,
    leaves ["podcast"] as it was. *)
Example virtual_playlists_stale :
  let run := @Client.client_update_callback Sample.itunes_kinds Sample.ascii
               Sample.forgiving Sample.delta_flagging_nameless
               Sample.client_connected in
  run.1 = Ok tt
  ∧ Client.playlist_data run.2 !! 3 ≫= (.!! DAAP_PODCAST_KEY) = Some (PBool true)
  ∧ Client.tracker_items run.2 !! 3 = Some {[8]}
  ∧ Client.playlist_item_map run.2 !! inr "podcast"%string = Some {[7]}.
Proof.
  intros run. subst run.
  split; [vm_compute; reflexivity|].
  split; [vm_compute; reflexivity|].
  split; vm_compute; reflexivity.
Qed.

(** ** The published catalog *)

Section BackendFacts.
Import Backend.
Context `{Libdaap} `{Codec} `{Platform}.

(** *** Serving files (C10, C5) *)

(** C10.  A request for an item id that is not a key of [daapitems] returns
    [(None, None)] and leaves the whole backend, the transcode map included,
    as it was: no job is created, replaced or shut down. *)
Theorem get_file_unknown_item s itemid generation ext session offset chunk :
  daapitems s !! itemid = None →
  get_file itemid generation ext session offset chunk s = (Ok (None, None), s).
Proof.
  intros Hmiss. unfold get_file, bind, get. by rewrite Hmiss.
Qed.

(** The transcode branch of [get_file] for a known item, outside shutdown. *)
Lemma get_file_transcode s itemid generation ext session offset chunk rec path :
  daapitems s !! itemid = Some rec →
  fields rec !! "path"%string = Some path →
  ext ∈ ["ts"; "m3u8"]%string →
  in_shutdown s = false →
  get_file itemid generation ext session offset chunk s
  = match decide_job s itemid generation session chunk with
    | Stale => (Ok (None, None), s)
    | Reuse job =>
        (Ok (serve ext job path offset), set_transcode <[session := job]> s)
    | Create old =>
        let job := TranscodeObject (next_uid s) path itemid generation chunk
                     (needs_transcode path) in
        (Ok (serve ext job path offset),
         (match old with
          | Some o => (emit (Shutdown o) ;;' emit (Transcode job))%py
          | None => emit (Transcode job)
          end (set_transcode <[session := job]> (bump_uid s))).2)
    end.
Proof.
  intros Hrec Hpath Hext Hrun. unfold get_file, bind at 1, get. rewrite Hrec.
  unfold bind at 1, subscript. rewrite Hpath. cbv [ret].
  rewrite bool_decide_eq_true_2 by done. rewrite Hrun.
  destruct (decide_job s itemid generation session chunk) as [|job|[old|]];
    reflexivity.
Qed.

(** C5, as the code has it.  A transcode request ([ts] or [m3u8]) for a
    catalogued item, outside shutdown, from a session that already has a job:
    - same item and an older generation: [(None, None)], nothing changes;
    - another item (whatever the generation), or the same item, a generation
      that is not older and a chunk that is a seek: the old job is shut down
      and the session is given a newly created job, which is started;
    - same item, a generation that is not older (newer included) and no
      seek: the existing job is kept and serves the request. *)
Theorem get_file_existing_job
    s itemid generation ext session offset chunk rec path job :
  daapitems s !! itemid = Some rec →
  fields rec !! "path"%string = Some path →
  ext ∈ ["ts"; "m3u8"]%string →
  in_shutdown s = false →
  transcode s !! session = Some job →
  let run := get_file itemid generation ext session offset chunk s in
  let fresh := TranscodeObject (next_uid s) path itemid generation chunk
                 (needs_transcode path) in
  (itemid_of job = itemid → generation < generation_of job →
     run = (Ok (None, None), s))
  ∧ (itemid_of job ≠ itemid
     ∨ (generation_of job ≤ generation
        ∧ ∃ c, chunk = Some c ∧ isseek job c = true) →
     run.1 = Ok (serve ext fresh path offset)
     ∧ transcode run.2 = <[session := fresh]> (transcode s)
     ∧ trace run.2 = trace s ++ [Shutdown job; Transcode fresh])
  ∧ (itemid_of job = itemid → generation_of job ≤ generation →
     (∀ c, chunk = Some c → isseek job c = false) →
     run.1 = Ok (serve ext job path offset)
     ∧ transcode run.2 = transcode s
     ∧ trace run.2 = trace s).
Proof.
  intros Hrec Hpath Hext Hrun Hjob run fresh. subst run.
  rewrite (get_file_transcode _ _ _ _ _ _ _ rec path) by done.
  unfold decide_job. rewrite Hjob.
  split; [|split].
  - intros Hsame Hold. rewrite decide_False by (intros ?; done).
    by rewrite (proj2 (Z.ltb_lt _ _) Hold).
  - intros [Hdiff|(Hnew & c & -> & Hseek)].
    + rewrite decide_True by done. cbn. by rewrite <- app_assoc.
    + destruct (decide (itemid_of job ≠ itemid)).
      * cbn. by rewrite <- app_assoc.
      * rewrite (proj2 (Z.ltb_ge _ _) Hnew), Hseek. cbn. by rewrite <- app_assoc.
  - intros Hsame Hnew Hnoseek. rewrite decide_False by (intros ?; done).
    rewrite (proj2 (Z.ltb_ge _ _) Hnew).
    assert (<[session := job]> (transcode s) = transcode s) as Hid
      by by apply insert_id.
    destruct chunk as [c|]; [rewrite (Hnoseek c eq_refl)|]; cbn; by rewrite Hid.
Qed.

(** *** The revision counter and the long poll (C2) *)

Lemma for_each_update_revision ds s :
  for_each ds update_revision s
  = (Ok tt,
     set_revision (revision s + Z.of_nat (length ds))
       (default (directed s) (last ds)) s).
Proof.
  revert s. induction ds as [|d rest IH]; intros s.
  - unfold set_revision. destruct s. cbn. by rewrite Z.add_0_r.
  - cbn [for_each]. unfold bind, update_revision at 1, modify. rewrite IH.
    unfold set_revision. cbn [revision directed share_types transcode
      daapitems daap_playlists playlist_item_map deleted_item_map in_shutdown
      next_uid trace length].
    replace (revision s + 1 + Z.of_nat (length rest))
      with (revision s + Z.of_nat (S (length rest))) by lia.
    replace (default d (last rest)) with (default (directed s) (last (d :: rest)));
      [done|].
    destruct rest as [|d' rest]; [done|].
    change (last (d :: d' :: rest)) with (last (d' :: rest)).
    destruct (last (d' :: rest)) eqn:Hlast; [done|].
    by apply last_None in Hlast.
Qed.

(** A wakeup leaves the revision strictly greater and [directed] set by its
    last bump. *)
Lemma run_wakeup_spec w s :
  run_wakeup w s
  = (Ok tt,
     set_revision (revision s + 1 + Z.of_nat (length w.2)) (last_directed w) s).
Proof.
  unfold run_wakeup, bind, update_revision at 1, modify.
  rewrite for_each_update_revision. reflexivity.
Qed.

Lemma woken_spec session w s :
  (emit (SpawnWatcher session) ;;' run_wakeup w)%py s = (Ok tt, woken session w s)
  ∧ revision s < revision (woken session w s)
  ∧ directed (woken session w s) = last_directed w.
Proof.
  unfold woken, bind, emit, modify. rewrite run_wakeup_spec. cbn.
  split; [done|]. split; [lia|done].
Qed.

(** One turn of the loop of [get_revision]. *)
Lemma get_revision_unfold session old wakeups s :
  get_revision session old wakeups s
  = if revision s =? old then
      match wakeups with
      | [] => (Ok Waiting, (emit (SpawnWatcher session) s).2)
      | w :: later =>
          let s1 := woken session w s in
          if decide (directed s1 = None ∨ directed s1 = Some session)
          then (Ok (Returned (revision s1)), s1)
          else get_revision session (revision s1) later s1
      end
    else (Ok (Returned (revision s)), s).
Proof.
  destruct wakeups as [|w later]; simpl; destruct (revision s =? old); try done.
  unfold woken, bind, emit, modify, get, ret. cbv beta iota.
  rewrite !run_wakeup_spec. cbn [snd]. by destruct (decide _).
Qed.

(** A call never raises: it returns a revision or is still waiting. *)
Lemma get_revision_total session old wakeups s :
  ∃ p s', get_revision session old wakeups s = (Ok p, s').
Proof.
  revert old s. induction wakeups as [|w later IH]; intros old s;
    rewrite get_revision_unfold; destruct (revision s =? old); eauto.
  cbv zeta. destruct (decide _); eauto.
Qed.

(** C2, as the code has it.  When [get_revision] returns, it returns the
    current revision.  If the revision differed from [old_revision] on entry
    the call returned at once, without waiting; otherwise it returned after a
    wakeup that left [directed] at [None] (a real bump) or at this session.
    When [old_revision] was not ahead of the revision on entry, the result is
    strictly greater than [old_revision].  A wakeup directed at another
    session makes the caller go round again with [old_revision] rebound to
    the revision it found. *)
Theorem get_revision_returns session old wakeups s r s' :
  get_revision session old wakeups s = (Ok (Returned r), s') →
  r = revision s'
  ∧ (revision s ≠ old → s' = s)
  ∧ (revision s = old → directed s' = None ∨ directed s' = Some session)
  ∧ (old ≤ revision s → old < r)
  ∧ (∀ w later,
       wakeups = w :: later →
       revision s = old →
       last_directed w ≠ None →
       last_directed w ≠ Some session →
       get_revision session old wakeups s
       = get_revision session (revision (woken session w s)) later
           (woken session w s)).
Proof.
  revert old s. induction wakeups as [|w later IH]; intros old s;
    rewrite get_revision_unfold.
  - destruct (Z.eqb_spec (revision s) old) as [Heq|Hne]; [discriminate|].
    intros [= <- <-]. split; [done|]. split; [done|]. split; [done|].
    split; [lia|]. discriminate.
  - destruct (Z.eqb_spec (revision s) old) as [Heq|Hne].
    + cbv zeta. destruct (woken_spec session w s) as (_ & Hlt & Hdir).
      destruct (decide _) as [Hmine|Hother].
      * intros [= <- <-]. split; [done|]. split; [done|]. split; [done|].
        split; [lia|]. intros w' later' [= <- <-] _ Hn Hs.
        rewrite Hdir in Hmine. by destruct Hmine.
      * intros Hrec. destruct (IH _ _ Hrec) as (Hr & _ & Hwhy & Hgt & _).
        split; [done|]. split; [done|]. split; [auto|]. split; [lia|].
        by intros w' later' [= <- <-] _ _ _.
    + intros [= <- <-]. split; [done|]. split; [done|]. split; [done|].
      split; [lia|]. done.
Qed.

End BackendFacts.

(** A request for item 3, which the sample catalog does not hold. *)
Lemma get_file_unknown_item_witness :
  Backend.daapitems Sample.playing !! 3 = None
  ∧ @Backend.get_file Sample.host 3 1 "m3u8" 5 0 None Sample.playing
    = (Ok (None, None), Sample.playing).
Proof.
  assert (Backend.daapitems Sample.playing !! 3 = None) as Hmiss
    by (vm_compute; reflexivity).
  split; [exact Hmiss|].
  exact (@get_file_unknown_item Sample.host Sample.playing 3 1 "m3u8" 5 0 None
           Hmiss).
Defined.

(** Session 5 streams item 1 and asks for chunk 20, a seek. *)
Lemma get_file_existing_job_witness :
  let job := Backend.TranscodeObject 0 (PStr "/music/track.mp3") 1 1 None PNone in
  let fresh :=
    Backend.TranscodeObject 1 (PStr "/music/track.mp3") 1 1 (Some 20) PNone in
  let run := @Backend.get_file Sample.host 1 1 "ts" 5 0 (Some 20) Sample.playing in
  Backend.daapitems Sample.playing !! 1
    ≫= (λ rec, Backend.fields rec !! "path"%string)
    = Some (PStr "/music/track.mp3")
  ∧ "ts"%string ∈ ["ts"; "m3u8"]%string
  ∧ Backend.transcode Sample.playing !! 5 = Some job
  ∧ Backend.in_shutdown Sample.playing = false
  ∧ @Backend.isseek Sample.host job 20 = true
  ∧ run.1 = Ok (Some (Backend.Chunk fresh), Some (PStr "/music/track.mp3"))
  ∧ Backend.transcode run.2 = <[5 := fresh]> (Backend.transcode Sample.playing)
  ∧ Backend.trace run.2
    = Backend.trace Sample.playing
      ++ [Backend.Shutdown job; Backend.Transcode fresh].
Proof.
  intros job fresh run.
  set (rec := default (Backend.Rec ∅ 0 false)
                (Backend.daapitems Sample.playing !! 1)).
  assert (Backend.daapitems Sample.playing !! 1 = Some rec) as Hrec
    by (apply some_eta; vm_compute; reflexivity).
  assert (Backend.fields rec !! "path"%string = Some (PStr "/music/track.mp3"))
    as Hpath by (vm_compute; reflexivity).
  assert ("ts"%string ∈ ["ts"; "m3u8"]%string) as Hext
    by apply list_elem_of_here.
  assert (Backend.in_shutdown Sample.playing = false) as Hrun
    by (vm_compute; reflexivity).
  assert (Backend.transcode Sample.playing !! 5 = Some job) as Hjob
    by (vm_compute; reflexivity).
  assert (@Backend.isseek Sample.host job 20 = true) as Hseek
    by (vm_compute; reflexivity).
  split; [by rewrite Hrec|]. split; [exact Hext|].
  split; [exact Hjob|]. split; [exact Hrun|]. split; [exact Hseek|].
  destruct (@get_file_existing_job Sample.host Sample.playing 1 1 "ts" 5 0
              (Some 20) rec (PStr "/music/track.mp3") job
              Hrec Hpath Hext Hrun Hjob) as (_ & Hreplace & _).
  apply Hreplace. right. split; [vm_compute; discriminate|].
  exists 20. split; [reflexivity | exact Hseek].
Defined.

(** C5 as stated fails on both of its halves.  While session 5 streams
    item 1 at generation 1: a request for the same item at the newer
    generation 2, without a seek, keeps the job and shuts nothing down; and a
    request for item 2 at the older generation 0 is not dropped, it replaces
    the job. *)
Lemma newer_generation_keeps_job :
  let job := Backend.TranscodeObject 0 (PStr "/music/track.mp3") 1 1 None PNone in
  let newer := @Backend.get_file Sample.host 1 2 "ts" 5 0 None Sample.playing in
  let older := @Backend.get_file Sample.host 2 0 "ts" 5 0 None Sample.playing in
  Backend.transcode Sample.playing !! 5 = Some job
  ∧ Backend.transcode newer.2 !! 5 = Some job
  ∧ Backend.trace newer.2 = Backend.trace Sample.playing
  ∧ older.1 = Ok (Some (Backend.Chunk
                          (Backend.TranscodeObject 1 (PStr "/music/track.mp3")
                             2 0 None PNone)),
                  Some (PStr "/music/track.mp3"))
  ∧ Backend.trace older.2
    = Backend.trace Sample.playing
      ++ [Backend.Shutdown job;
          Backend.Transcode
            (Backend.TranscodeObject 1 (PStr "/music/track.mp3") 2 0 None PNone)].
Proof.
  intros job newer older. subst job newer older.
  split; [vm_compute; reflexivity|].
  split; [vm_compute; reflexivity|].
  split; [vm_compute; reflexivity|].
  split; vm_compute; reflexivity.
Qed.

(** Session 1 polls at revision 2; a wakeup directed at session 2 sends it
    round again, a real bump lets it return revision 4. *)
Lemma get_revision_returns_witness :
  let run := Backend.get_revision 1 2 [(Some 2, []); (None, [])] Sample.catalog in
  run.1 = Ok (Backend.Returned 4)
  ∧ 2 ≤ Backend.revision Sample.catalog
  ∧ 4 = Backend.revision run.2
  ∧ (Backend.directed run.2 = None ∨ Backend.directed run.2 = Some 1)
  ∧ 2 < 4.
Proof.
  intros run.
  assert (run = (Ok (Backend.Returned 4), run.2)) as Hrun
    by (apply run_eta; vm_compute; reflexivity).
  assert (Backend.revision Sample.catalog = 2) as Hrev
    by (vm_compute; reflexivity).
  destruct (get_revision_returns 1 2 _ Sample.catalog 4 run.2 Hrun)
    as (Hr & _ & Hwhy & Hgt & _).
  split; [vm_compute; reflexivity|].
  split; [rewrite Hrev; lia|].
  split; [exact Hr|].
  split; [exact (Hwhy Hrev)|].
  apply Hgt. rewrite Hrev. lia.
Defined.

(** C2 as stated fails when the client is ahead of the server: with the
    catalog at revision 2, a poll carrying [old_revision = 100] returns at
    once, and returns 2. *)
Lemma get_revision_behind_client :
  let run := Backend.get_revision 1 100 [] Sample.catalog in
  Backend.revision Sample.catalog = 2
  ∧ run.1 = Ok (Backend.Returned 2)
  ∧ Backend.trace run.2 = Backend.trace Sample.catalog
  ∧ ¬ 100 < 2.
Proof.
  intros run. subst run.
  split; [vm_compute; reflexivity|].
  split; [vm_compute; reflexivity|].
  split; [vm_compute; reflexivity | lia].
Qed.

Section BackendInvariant.
Import Backend.
Context `{Libdaap} `{Codec} `{Platform}.

(** *** Every record's revision stays within the counter (C3) *)

Lemma stamped_frame (f : state → state) s :
  daapitems (f s) = daapitems s →
  daap_playlists (f s) = daap_playlists s →
  revision (f s) = revision s →
  stamped s → stamped (f s).
Proof. unfold stamped. by intros -> -> ->. Qed.

Lemma stamped_bump d s : stamped s → stamped (set_revision (revision s + 1) d s).
Proof.
  intros [Hitems Hlists]. split; cbn.
  - eapply map_Forall_impl; [exact Hitems|]. intros; simpl in *; lia.
  - eapply map_Forall_impl; [exact Hlists|]. intros; simpl in *; lia.
Qed.

Lemma stamped_put_item i fields v s :
  stamped s → stamped (set_daapitems <[i := Rec fields (revision s) v]> s).
Proof.
  intros [Hitems Hlists]. split; cbn; [|done].
  apply map_Forall_insert_2; [simpl; lia | done].
Qed.

Lemma stamped_put_playlist i fields v s :
  stamped s → stamped (set_daap_playlists <[i := Rec fields (revision s) v]> s).
Proof.
  intros [Hitems Hlists]. split; cbn; [done|].
  apply map_Forall_insert_2; [simpl; lia | done].
Qed.

Lemma stamped_drop_playlist i s :
  stamped s → stamped (set_daap_playlists (delete i) s).
Proof.
  intros [Hitems Hlists]. split; cbn; [done|]. by apply map_Forall_delete.
Qed.

Lemma stamped_alter_item i s :
  stamped s → stamped (set_daapitems (alter (stamp (revision s)) i) s).
Proof.
  intros [Hitems Hlists]. split; cbn; [|done].
  intros j rec. rewrite lookup_alter.
  destruct (decide (i = j)) as [->|].
  - destruct (daapitems s !! j); [|done]. intros [= <-]. simpl. lia.
  - apply Hitems.
Qed.

Lemma stamped_alter_playlist i s :
  stamped s → stamped (set_daap_playlists (alter (stamp (revision s)) i) s).
Proof.
  intros [Hitems Hlists]. split; cbn; [done|].
  intros j rec. rewrite lookup_alter.
  destruct (decide (i = j)) as [->|].
  - destruct (daap_playlists s !! j); [|done]. intros [= <-]. simpl. lia.
  - apply Hlists.
Qed.

Lemma stamped_restamp_all s :
  stamped
    (set_daapitems (fmap (stamp (revision s)))
       (set_daap_playlists (fmap (stamp (revision s))) s)).
Proof.
  split; cbn; intros j rec; rewrite lookup_fmap;
    (destruct (_ !! j); [|done]); intros [= <-]; simpl; lia.
Qed.

Lemma update_revision_stamped d : maintains stamped (update_revision d).
Proof. unfold update_revision. apply maintains_modify, stamped_bump. Qed.

Lemma stamp_item_stamped i : maintains stamped (stamp_item i).
Proof.
  unfold stamp_item. apply maintains_get_bind. intros s Hs.
  by apply stamped_alter_item.
Qed.

Lemma stamp_playlist_stamped i : maintains stamped (stamp_playlist i).
Proof.
  unfold stamp_playlist. apply maintains_get_bind. intros s Hs.
  unfold bind, subscript. destruct (daap_playlists s !! i); [|done].
  by apply stamped_alter_playlist.
Qed.

(** A tombstone is stamped with the revision of the state it is made in. *)
Lemma maintains_deleted_item_bind {B} (k : daap_record → M state B) :
  (∀ s, stamped s → stamped (k (Rec ∅ (revision s) false) s).2) →
  maintains stamped (bind deleted_item k).
Proof. intros Hk s Hs. by apply Hk. Qed.

(** The first step of a sequence, run in a known state. *)
Lemma keep_bind_at {A B} (m : M state A) (k : A → M state B) s :
  stamped (m s).2 → (∀ a, maintains stamped (k a)) → stamped (bind m k s).2.
Proof.
  intros Hm Hk. unfold bind. destruct (m s) as [[a|e] s1]; simpl in *; [|done].
  by apply Hk.
Qed.

(** One step of an invariant proof. *)
Ltac keep_step :=
  lazymatch goal with
  | |- maintains _ (update_revision _) => apply update_revision_stamped
  | |- maintains _ (stamp_item _) => apply stamp_item_stamped
  | |- maintains _ (stamp_playlist _) => apply stamp_playlist_stamped
  | |- maintains _ (bind get _) => apply maintains_get_bind; intros ? ?
  | |- maintains _ (bind deleted_item _) =>
      apply maintains_deleted_item_bind; intros ? ?
  | |- maintains _ (bind _ _) => apply maintains_bind; [|intros ?]
  | |- maintains _ (ret _) => apply maintains_ret
  | |- maintains _ (raise _) => apply maintains_raise
  | |- maintains _ (lift _) => intros ? ?; assumption
  | |- maintains _ (subscript _ _) => apply maintains_subscript
  | |- maintains _ (try_except _ _ _) => apply maintains_try_except
  | |- maintains _ (for_each _ _) => apply maintains_for_each; intros ?
  | |- maintains _ (fold_each _ _ _) => apply maintains_fold_each; intros ? ?
  | |- maintains _ (emit _) => unfold emit
  | |- maintains _ (modify ?g) =>
      apply maintains_modify; intros ?;
      first [ by apply (stamped_frame g) | apply stamped_bump
            | apply stamped_drop_playlist ]
  | |- maintains _ (match ?x with _ => _ end) => destruct x
  | |- maintains _ (let _ := _ in _) => cbv zeta
  | |- stamped (bind (modify _) _ _).2 =>
      apply keep_bind_at;
      [ first [ by apply stamped_put_item | by apply stamped_put_playlist ]
      | intros ? ]
  | |- stamped (modify _ _).2 =>
      first [ by apply stamped_put_item | by apply stamped_put_playlist ]
  | H : stamped ?s |- stamped (?m ?s).2 =>
      let Hm := fresh in
      assert (maintains stamped m) as Hm; [|exact (Hm s H)]
  end.

Ltac keep := repeat keep_step.

Lemma make_item_stamped item : maintains stamped (make_item item).
Proof. unfold make_item. keep. Qed.

Lemma make_item_dict_stamped items : maintains stamped (make_item_dict items).
Proof. apply maintains_for_each, make_item_stamped. Qed.

Lemma make_daap_playlists_stamped items typ :
  maintains stamped (make_daap_playlists items typ).
Proof.
  apply maintains_for_each. intros item. unfold make_daap_playlist. keep.
Qed.

Ltac keep_records :=
  repeat first
    [ lazymatch goal with
      | |- maintains _ (make_item_dict _) => apply make_item_dict_stamped
      | |- maintains _ (make_daap_playlists _ _) =>
          apply make_daap_playlists_stamped
      end
    | keep_step ].

Lemma handle_item_list_stamped m : maintains stamped (handle_item_list m).
Proof. unfold handle_item_list. keep_records. Qed.

Lemma handle_items_changed_stamped m :
  maintains stamped (handle_items_changed m).
Proof.
  unfold handle_items_changed, item_removed. keep_records.
Qed.

Lemma handle_playlist_added_stamped l typ :
  maintains stamped (handle_playlist_added l typ).
Proof.
  unfold handle_playlist_added. keep_records.
Qed.

Lemma handle_playlist_changed_stamped l typ :
  maintains stamped (handle_playlist_changed l typ).
Proof.
  unfold handle_playlist_changed. keep_records.
Qed.

Lemma handle_playlist_removed_stamped l :
  maintains stamped (handle_playlist_removed l).
Proof. unfold handle_playlist_removed. keep. Qed.

Lemma populate_playlists_stamped playlists feeds :
  maintains stamped (populate_playlists playlists feeds).
Proof.
  unfold populate_playlists. keep_records.
Qed.

Lemma get_file_stamped itemid generation ext session offset chunk :
  maintains stamped (get_file itemid generation ext session offset chunk).
Proof. unfold get_file. keep. Qed.

Lemma finished_callback_stamped session :
  maintains stamped (finished_callback session).
Proof. unfold finished_callback. keep. Qed.

Lemma shutdown_stamped : maintains stamped shutdown.
Proof. unfold shutdown. keep. Qed.

(** [on_config_changed] run on a state, spelled out. *)
Lemma on_config_changed_run cfg key s :
  key ∈ [PrefShareAudio; PrefShareVideo; PrefShareFeed] →
  on_config_changed cfg key s
  = (Ok tt,
     let s1 := set_share_types (read_share_types cfg) s in
     let s2 := if decide (share_types s ≠ read_share_types cfg)
               then set_revision (revision s + 1) None s1 else s1 in
     set_daapitems (fmap (stamp (revision s2)))
       (set_daap_playlists (fmap (stamp (revision s2))) s2)).
Proof.
  intros Hkey.
  destruct key;
    try (exfalso; revert Hkey; rewrite !elem_of_cons, elem_of_nil;
         by intros [|[|[|]]]);
    unfold on_config_changed, bind, get, modify, update_revision;
    cbn; by destruct (decide _).
Qed.

Lemma on_config_changed_stamped cfg key :
  maintains stamped (on_config_changed cfg key).
Proof.
  intros s Hs.
  destruct key; try done;
    (rewrite on_config_changed_run by (rewrite !elem_of_cons; auto));
    apply stamped_restamp_all.
Qed.

(** Every state the backend can be in is stamped. *)
Lemma reachable_stamped s : reachable s → stamped s.
Proof.
  induction 1 as [cfg|s s' _ IH Hstep].
  - split; apply map_Forall_empty.
  - destruct Hstep.
    + by apply handle_item_list_stamped.
    + by apply handle_items_changed_stamped.
    + by apply handle_playlist_added_stamped.
    + by apply handle_playlist_changed_stamped.
    + by apply handle_playlist_removed_stamped.
    + by apply populate_playlists_stamped.
    + by apply on_config_changed_stamped.
    + by apply update_revision_stamped.
    + by apply get_file_stamped.
    + by apply finished_callback_stamped.
    + by apply shutdown_stamped.
Qed.

(** C3.  A change of one of the three sharing switches that alters the set
    of share types bumps the catalog revision by one and stamps every item
    record and every playlist record with the new revision; since no record
    is ever stamped beyond the counter, each record's revision after the
    change is strictly greater than before. *)
Theorem config_change_restamps cfg key s :
  key ∈ [PrefShareAudio; PrefShareVideo; PrefShareFeed] →
  (list_to_set (share_types s) : gset Z) ≠ list_to_set (read_share_types cfg) →
  stamped s →
  let run := on_config_changed cfg key s in
  run.1 = Ok tt
  ∧ revision run.2 = revision s + 1
  ∧ share_types run.2 = read_share_types cfg
  ∧ daapitems run.2 = stamp (revision s + 1) <$> daapitems s
  ∧ daap_playlists run.2 = stamp (revision s + 1) <$> daap_playlists s
  ∧ (∀ i rec, daapitems s !! i = Some rec →
       ∃ rec', daapitems run.2 !! i = Some rec'
               ∧ rec_revision rec' = revision run.2
               ∧ rec_revision rec < rec_revision rec')
  ∧ (∀ i rec, daap_playlists s !! i = Some rec →
       ∃ rec', daap_playlists run.2 !! i = Some rec'
               ∧ rec_revision rec' = revision run.2
               ∧ rec_revision rec < rec_revision rec').
Proof.
  intros Hkey Hset [Hitems Hlists] run. subst run.
  rewrite on_config_changed_run by done. cbv zeta.
  rewrite decide_True by (intros Heq; apply Hset; by rewrite Heq).
  cbn. split; [done|]. split; [done|]. split; [done|]. split; [done|].
  split; [done|]. split.
  - intros i rec Hrec. exists (stamp (revision s + 1) rec).
    rewrite lookup_fmap, Hrec. split; [done|]. split; [done|].
    specialize (Hitems i rec Hrec). simpl in *. lia.
  - intros i rec Hrec. exists (stamp (revision s + 1) rec).
    rewrite lookup_fmap, Hrec. split; [done|]. split; [done|].
    specialize (Hlists i rec Hrec). simpl in *. lia.
Qed.

End BackendInvariant.

(** ** Durations on the wire (C4) *)

Section DurationFacts.
Import Backend.
Context `{Libdaap} `{Codec} `{Platform}.

Lemma export_loop_frame item l acc m :
  foldl (export_step item) acc l = Ok m →
  ∃ m0, acc = Ok m0 ∧ ∀ d, d ∉ l.*2 → m !! d = m0 !! d.
Proof.
  revert acc. induction l as [|[attr d'] rest IH]; intros acc; simpl.
  - intros ->. eauto.
  - intros Hrun. apply IH in Hrun as (m1 & Hstep & Hsame).
    unfold export_step, and_then in Hstep. simpl in Hstep.
    destruct acc as [m0|]; [|discriminate].
    destruct (export_attr d' (getattr (attrs item) attr)) as [v|];
      [|discriminate].
    injection Hstep as <-. exists m0. split; [done|].
    intros d Hd. apply not_elem_of_cons in Hd as [Hne Hd].
    rewrite Hsame by done. by rewrite lookup_insert_ne.
Qed.

Lemma export_loop_lookup item l acc m attr d :
  foldl (export_step item) acc l = Ok m →
  NoDup l.*2 →
  (attr, d) ∈ l →
  ∃ v, export_attr d (getattr (attrs item) attr) = Ok v ∧ m !! d = Some v.
Proof.
  revert acc. induction l as [|[attr' d'] rest IH]; intros acc Hrun Hnodup Hin.
  - by apply elem_of_nil in Hin.
  - simpl in *. apply NoDup_cons in Hnodup as [Hfresh Hnodup].
    apply elem_of_cons in Hin as [[= -> ->]|Hin].
    + apply export_loop_frame in Hrun as (m1 & Hstep & Hsame).
      unfold export_step, and_then in Hstep. simpl in Hstep.
      destruct acc as [m0|]; [|discriminate].
      destruct (export_attr d' (getattr (attrs item) attr')) as [v|];
        [|discriminate].
      injection Hstep as <-. exists v. split; [done|].
      rewrite Hsame by done. apply lookup_insert_eq.
    + by apply (IH _ Hrun).
Qed.

Lemma export_attrs_songtime item itemprop :
  export_attrs item = Ok itemprop →
  ∃ v, export_attr "daap.songtime" (getattr (attrs item) "duration") = Ok v
       ∧ itemprop !! "daap.songtime"%string = Some v.
Proof.
  intros Hrun. apply (export_loop_lookup item daap_rmapping (Ok ∅)).
  - exact Hrun.
  - apply (bool_decide_unpack _). vm_compute. exact I.
  - apply (bool_decide_unpack _). vm_compute. exact I.
Qed.

Lemma export_songtime_int d :
  export_attr "daap.songtime" (PInt d)
  = Ok (PInt (if d =? -1 then 0 else d * DURATION_SCALE)).
Proof.
  unfold export_attr. simpl.
  destruct (Z.eqb_spec d (-1)) as [->|Hd]; simpl; [done|].
  destruct (Z.eqb_spec d 0) as [->|Hz]; simpl; [done|]. done.
Qed.

Lemma export_songtime_none :
  export_attr "daap.songtime" PNone = Ok (PInt 0).
Proof. reflexivity. Qed.

(** The record [make_item] files keeps the [daap.songtime] of the loop. *)
Lemma make_item_songtime item s s' :
  make_item item s = (Ok tt, s') →
  ∃ rec v,
    daapitems s' !! item_id item = Some rec
    ∧ valid rec = true
    ∧ rec_revision rec = revision s
    ∧ export_attr "daap.songtime" (getattr (attrs item) "duration") = Ok v
    ∧ fields rec !! "daap.songtime"%string = Some v.
Proof.
  unfold make_item. intros Hrun.
  apply bind_ok in Hrun as (itemprop & s1 & Hloop & Hrun).
  unfold lift in Hloop. injection Hloop as Hloop <-.
  apply export_attrs_songtime in Hloop as (v & Hv & Hlook).
  cbv zeta in Hrun.
  apply bind_ok in Hrun as (mediakind & s2 & Hmk & Hrun).
  apply bind_ok in Hrun as (enclosure & s3 & Henc & Hrun).
  apply bind_ok in Hrun as (itemid & s4 & Hid & Hrun).
  apply bind_ok in Hrun as (s5 & s6 & Hget & Hrun).
  apply subscript_ok in Hmk as [-> _].
  injection Henc as _ ->.
  apply subscript_ok in Hid as [-> _].
  injection Hget as <- <-. injection Hrun as <-.
  eexists _, v. cbn [daapitems set_daapitems]. rewrite lookup_insert_eq.
  split; [done|]. split; [done|]. split; [done|]. split; [done|].
  cbn [fields]. unfold MEDIAKIND_KEY, KIND_KEY.
  rewrite !lookup_insert_ne by done.
  destruct (item_from_podcast item);
    repeat (case_match; rewrite ?lookup_insert_ne by done); done.
Qed.

(** C4, as the code has it.  Outbound, the record filed for an item carries
    under [daap.songtime] the item's duration times [DURATION_SCALE], and 0
    when the duration is [None] or is the sentinel -1.  Inbound, the
    attribute dictionary built for a [SharingItem] carries under [duration]
    the received [daap.songtime] unchanged. *)
Theorem duration_on_the_wire :
  (∀ item s s',
     make_item item s = (Ok tt, s') →
     ∃ rec,
       daapitems s' !! item_id item = Some rec
       ∧ valid rec = true
       ∧ (∀ d, getattr (attrs item) "duration" = PInt d →
            fields rec !! "daap.songtime"%string
            = Some (PInt (if d =? -1 then 0 else d * DURATION_SCALE)))
       ∧ (getattr (attrs item) "duration" = PNone →
            fields rec !! "daap.songtime"%string = Some (PInt 0)))
  ∧ (∀ rawitem res item_data t,
       Client.convert_raw_sharing_item rawitem res = Ok item_data →
       rawitem !! "daap.songtime"%string = Some (PInt t) →
       item_data !! "duration"%string = Some (PInt t)).
Proof.
  split.
  - intros item s s' Hrun.
    apply make_item_songtime in Hrun as (rec & v & Hrec & Hvalid & _ & Hv & Hlook).
    exists rec. split; [done|]. split; [done|]. split.
    + intros d Hd. rewrite Hd, export_songtime_int in Hv. by injection Hv as <-.
    + intros Hd. rewrite Hd, export_songtime_none in Hv. by injection Hv as <-.
  - intros rawitem res item_data t. apply convert_keeps_duration.
Qed.

End DurationFacts.

(** The video switch is turned off on the sample catalog. *)
Lemma config_change_restamps_witness :
  let run := @Backend.on_config_changed Sample.itunes_kinds
               Sample.sharing_audio Backend.PrefShareVideo Sample.catalog in
  Backend.PrefShareVideo
    ∈ [Backend.PrefShareAudio; Backend.PrefShareVideo; Backend.PrefShareFeed]
  ∧ (list_to_set (Backend.share_types Sample.catalog) : gset Z)
    ≠ list_to_set (@Backend.read_share_types Sample.itunes_kinds
                     Sample.sharing_audio)
  ∧ Backend.stamped Sample.catalog
  ∧ Backend.revision Sample.catalog = 2
  ∧ Backend.revision run.2 = 3
  ∧ (∀ i rec, Backend.daapitems Sample.catalog !! i = Some rec →
       ∃ rec', Backend.daapitems run.2 !! i = Some rec'
               ∧ Backend.rec_revision rec' = Backend.revision run.2
               ∧ Backend.rec_revision rec < Backend.rec_revision rec').
Proof.
  intros run.
  assert (Backend.PrefShareVideo
            ∈ [Backend.PrefShareAudio; Backend.PrefShareVideo;
               Backend.PrefShareFeed]) as Hkey
    by apply list_elem_of_further, list_elem_of_here.
  assert ((list_to_set (Backend.share_types Sample.catalog) : gset Z)
          ≠ list_to_set (@Backend.read_share_types Sample.itunes_kinds
                           Sample.sharing_audio)) as Hset.
  { intros Heq. apply (f_equal (λ X : gset Z, bool_decide (32 ∈ X))) in Heq.
    vm_compute in Heq. discriminate. }
  assert (Backend.stamped Sample.catalog) as Hstamped.
  { apply (@reachable_stamped Sample.itunes_kinds Sample.ascii Sample.host).
    unfold Sample.catalog.
    eapply Backend.reachable_step;
      [apply Backend.reachable_init | apply Backend.step_item_list]. }
  assert (Backend.revision Sample.catalog = 2) as Hrev
    by (vm_compute; reflexivity).
  destruct (@config_change_restamps Sample.itunes_kinds Sample.sharing_audio
              Backend.PrefShareVideo Sample.catalog Hkey Hset Hstamped)
    as (_ & Hbump & _ & _ & _ & Hitems & _).
  split; [exact Hkey|]. split; [exact Hset|]. split; [exact Hstamped|].
  split; [exact Hrev|]. split; [|exact Hitems].
  etransitivity; [exact Hbump|]. rewrite Hrev. reflexivity.
Defined.

(** A local item of 240 units is exported, and a remote song of 5000 ms is
    imported. *)
Lemma duration_on_the_wire_witness :
  let run := @Backend.make_item Sample.itunes_kinds Sample.ascii Sample.host
               (Sample.track 1 (PInt 240))
               (@Backend.init Sample.itunes_kinds Sample.sharing_all) in
  let data := @Client.convert_raw_sharing_item Sample.itunes_kinds Sample.ascii
                (Sample.song 7 5000) Sample.snapshot in
  run.1 = Ok tt
  ∧ (∃ rec, Backend.daapitems run.2 !! 1 = Some rec
            ∧ Backend.fields rec !! "daap.songtime"%string
              = Some (PInt (240 * DURATION_SCALE)))
  ∧ (if data is Ok _ then true else false) = true
  ∧ (match data with Ok d => d | Raise _ => ∅ end) !! "duration"%string
    = Some (PInt 5000).
Proof.
  intros run data.
  assert (run.1 = Ok tt) as Hrun by (vm_compute; reflexivity).
  assert ((if data is Ok _ then true else false) = true) as Hdata
    by (vm_compute; reflexivity).
  destruct (@duration_on_the_wire Sample.itunes_kinds Sample.ascii Sample.host)
    as [Hout Hin].
  split; [exact Hrun|]. split; [|split; [exact Hdata|]].
  - destruct (Hout _ _ _ (run_eta run tt Hrun)) as (rec & Hrec & _ & Hint & _).
    exists rec. split; [exact Hrec|].
    apply (Hint 240). vm_compute. reflexivity.
  - apply (Hin (Sample.song 7 5000) Sample.snapshot _ 5000 (ok_eta data ∅ Hdata)).
    vm_compute. reflexivity.
Defined.

(** C4 as stated fails in both directions.  A remote song of 5000 ms is
    imported with duration 5000, not 5000 / 1000; and a local item whose
    duration is the sentinel -1 is exported with [daap.songtime] 0, not
    -1 * 1000. *)
Lemma duration_not_divided_inbound :
  let data := @Client.convert_raw_sharing_item Sample.itunes_kinds Sample.ascii
                (Sample.song 7 5000) Sample.snapshot in
  let run := @Backend.make_item Sample.itunes_kinds Sample.ascii Sample.host
               (Sample.track 3 (PInt (-1))) Sample.catalog in
  (match data with Ok d => d !! "duration"%string | Raise _ => None end)
  = Some (PInt 5000)
  ∧ 5000 / DURATION_SCALE = 5
  ∧ run.1 = Ok tt
  ∧ Backend.daapitems run.2 !! 3 ≫= (λ rec, Backend.fields rec !! "daap.songtime"%string)
    = Some (PInt 0)
  ∧ -1 * DURATION_SCALE = -1000.
Proof.
  intros data run. subst data run.
  split; [vm_compute; reflexivity|].
  split; [reflexivity|].
  split; [vm_compute; reflexivity|].
  split; [vm_compute; reflexivity|].
  reflexivity.
Qed.

(** * The rest of the backend *)

(** ** What later states keep

    Relations between the state before and after a method. *)

Section Extends.
Context {S : Type} (R : S → S → Prop) `{!Reflexive R} `{!Transitive R}.

Lemma extends_ret {A} (a : A) : extends R (ret a).
Proof. intros s. reflexivity. Qed.

Lemma extends_raise {A} e : extends R (@raise S A e).
Proof. intros s. reflexivity. Qed.

Lemma extends_get : extends R get.
Proof. intros s. reflexivity. Qed.

Lemma extends_modify (g : S → S) : (∀ s, R s (g s)) → extends R (modify g).
Proof. intros Hg s. apply Hg. Qed.

Lemma extends_bind {A B} (m : M S A) (k : A → M S B) :
  extends R m → (∀ a, extends R (k a)) → extends R (bind m k).
Proof.
  intros Hm Hk s. unfold bind. specialize (Hm s).
  destruct (m s) as [[a|e] s1]; simpl in *; [|done].
  etrans; [exact Hm | apply Hk].
Qed.

Lemma extends_subscript {K A} `{Countable K} (d : gmap K A) k :
  extends R (subscript d k).
Proof. intros s. unfold subscript. destruct (d !! k); reflexivity. Qed.

Lemma extends_try_except {A} (m h : M S A) e :
  extends R m → extends R h → extends R (try_except m e h).
Proof.
  intros Hm Hh s. unfold try_except. specialize (Hm s).
  destruct (m s) as [[a|e'] s1]; simpl in *; [done|].
  destruct (decide (e' = e)); [|done]. etrans; [exact Hm | apply Hh].
Qed.

Lemma extends_for_each {A} (xs : list A) (body : A → M S unit) :
  (∀ x, extends R (body x)) → extends R (for_each xs body).
Proof.
  intros Hbody. induction xs as [|x rest IH]; simpl.
  - apply extends_ret.
  - by apply extends_bind.
Qed.

Lemma extends_fold_each {A B} (xs : list A) (b : B) (body : B → A → M S B) :
  (∀ b x, extends R (body b x)) → extends R (fold_each xs b body).
Proof.
  intros Hbody. revert b. induction xs as [|x rest IH]; intros b; simpl.
  - apply extends_ret.
  - apply extends_bind; [apply Hbody | intros b'; apply IH].
Qed.

End Extends.

(** One step of a proof that a method extends a relation; [leaf] settles a
    single assignment. *)
Ltac extend_step leaf :=
  lazymatch goal with
  | |- extends _ (bind _ _) => apply extends_bind; [tc_solve | | intros ?]
  | |- extends _ (ret _) => apply extends_ret; tc_solve
  | |- extends _ (raise _) => apply extends_raise; tc_solve
  | |- extends _ get => apply extends_get; tc_solve
  | |- extends _ (modify _) => apply extends_modify; intros ?; leaf
  | |- extends _ (subscript _ _) => apply extends_subscript; tc_solve
  | |- extends _ (try_except _ _ _) => apply extends_try_except; [tc_solve | |]
  | |- extends _ (for_each _ _) => apply extends_for_each; [tc_solve.. | intros ?]
  | |- extends _ (fold_each _ _ _) =>
      apply extends_fold_each; [tc_solve.. | intros ? ?]
  | |- extends _ (match ?x with _ => _ end) => destruct x
  | |- extends _ ((match ?x with _ => _ end) _) => destruct x
  | |- extends _ ((λ _, _) _) => cbv beta
  | |- extends _ (let _ := _ in _) => cbv zeta
  end.

Section BackendGrowth.
Import Backend.
Context `{Libdaap} `{Codec} `{Platform}.

#[local] Instance grows_refl : Reflexive grows.
Proof. intros s. split; [lia|]. split; [set_solver | done]. Qed.

#[local] Instance grows_trans : Transitive grows.
Proof.
  intros s1 s2 s3 (Hr & Hd & Hs) (Hr' & Hd' & Hs').
  split; [lia|]. split; [set_solver | auto].
Qed.

Ltac grows_leaf :=
  split; [cbn; lia|]; split;
  [ cbn; rewrite ?dom_insert_L, ?dom_alter_L, ?dom_fmap_L; set_solver
  | cbn; done ].

Ltac grow :=
  unfold Backend.lift, emit, update_revision, deleted_item;
  repeat first
    [ extend_step grows_leaf
    | lazymatch goal with
      | |- extends _ (λ s, (_, s)) => intros ?; reflexivity
      end ].

Lemma make_item_grows item : extends grows (make_item item).
Proof. unfold make_item. grow. Qed.

Lemma make_item_dict_grows items : extends grows (make_item_dict items).
Proof. apply extends_for_each; [tc_solve.. |]. apply make_item_grows. Qed.

Lemma make_daap_playlists_grows items typ :
  extends grows (make_daap_playlists items typ).
Proof.
  apply extends_for_each; [tc_solve.. |]. intros item.
  unfold make_daap_playlist. grow.
Qed.

Ltac grow_records :=
  unfold Backend.lift, emit, update_revision, deleted_item, stamp_item,
    stamp_playlist;
  repeat first
    [ lazymatch goal with
      | |- extends _ (make_item_dict _) => apply make_item_dict_grows
      | |- extends _ (make_daap_playlists _ _) =>
          apply make_daap_playlists_grows
      | |- extends _ (λ s, (_, s)) => intros ?; reflexivity
      end
    | extend_step grows_leaf ].

(** No call from outside takes the revision back, drops an item id or
    undoes a shutdown. *)
Lemma step_grows s s' : step s s' → grows s s'.
Proof.
  intros Hstep. destruct Hstep;
    lazymatch goal with |- grows ?s (?m ?s).2 =>
      let Hm := fresh in assert (extends grows m) as Hm; [|exact (Hm s)]
    end.
  - unfold handle_item_list. grow_records.
  - unfold handle_items_changed, item_removed. grow_records.
  - unfold handle_playlist_added. grow_records.
  - unfold handle_playlist_changed. grow_records.
  - unfold handle_playlist_removed. grow_records.
  - unfold populate_playlists. grow_records.
  - unfold on_config_changed. grow_records.
  - unfold watcher. grow_records.
  - unfold get_file. grow_records.
  - unfold finished_callback. grow_records.
  - unfold shutdown. grow_records.
Qed.

Lemma steps_grow s s' : rtc step s s' → grows s s'.
Proof.
  induction 1 as [s|s s1 s' Hstep _ IH]; [reflexivity|].
  etrans; [by apply step_grows | exact IH].
Qed.


End BackendGrowth.

(** A loop that files one entry per key of a dictionary, without touching
    the state, builds the dictionary of what it files. *)
Lemma foldl_insert_lookup {A B} (f : Z → A → B) (l : list (Z * A))
    (acc : gmap Z B) k :
  NoDup l.*1 →
  foldl (λ acc kv, <[kv.1 := f kv.1 kv.2]> acc) acc l !! k
  = match (list_to_map l : gmap Z A) !! k with
    | Some a => Some (f k a)
    | None => acc !! k
    end.
Proof.
  revert acc. induction l as [|[k0 a0] rest IH]; intros acc Hnodup; simpl.
  - by rewrite lookup_empty.
  - apply NoDup_cons in Hnodup as [Hfresh Hnodup].
    rewrite IH by done.
    destruct (decide (k = k0)) as [->|Hne].
    + rewrite lookup_insert_eq.
      rewrite (not_elem_of_list_to_map_1 _ k0) by done.
      by rewrite lookup_insert_eq.
    + rewrite !lookup_insert_ne by done. done.
Qed.

Lemma fold_each_files {S A B} (f : Z → A → B) (m : gmap Z A)
    (body : gmap Z B → Z * A → M S (gmap Z B)) s :
  (∀ acc k a, m !! k = Some a → body acc (k, a) s = (Ok (<[k := f k a]> acc), s)) →
  ∃ r, fold_each (map_to_list m) ∅ body s = (Ok r, s)
       ∧ ∀ k, r !! k = f k <$> m !! k.
Proof.
  intros Hbody.
  exists (foldl (λ acc kv, <[kv.1 := f kv.1 kv.2]> acc) ∅ (map_to_list m)).
  split.
  - assert (∀ l acc, (∀ k a, (k, a) ∈ l → m !! k = Some a) →
      fold_each l acc body s
      = (Ok (foldl (λ acc kv, <[kv.1 := f kv.1 kv.2]> acc) acc l), s)) as Hgen.
    { induction l as [|[k a] rest IH]; intros acc Hin; simpl; [done|].
      unfold bind. rewrite Hbody by (apply Hin; left).
      apply IH. intros k' a' Hin'. apply Hin. by right. }
    apply Hgen. intros k a. apply elem_of_map_to_list.
  - intros k. rewrite foldl_insert_lookup by apply NoDup_fst_map_to_list.
    rewrite list_to_map_to_list, lookup_empty. by destruct (m !! k).
Qed.

Section BackendReads.
Import Backend.
Context `{Libdaap} `{Codec} `{Platform}.

(** *** What the server is given *)

Lemma item_shared_invalid s rec :
  valid rec = false → item_shared s rec s = (Ok true, s).
Proof. unfold item_shared. by intros ->. Qed.

Lemma item_shared_valid s rec mk ik pod :
  valid rec = true →
  fields rec !! MEDIAKIND_KEY = Some mk →
  fields rec !! KIND_KEY = Some ik →
  podcast_bit ik = Ok pod →
  item_shared s rec s
  = (Ok (py_in_ints mk (share_types s)
         && (negb pod || bool_decide (SHARE_FEED_TYPE ∈ share_types s))), s).
Proof.
  unfold item_shared, bind, subscript, Backend.lift, ret.
  intros -> -> -> ->. cbn. by destruct pod.
Qed.

Lemma item_shared_readable s rec :
  record_readable rec = true → ∃ b, item_shared s rec s = (Ok b, s).
Proof.
  unfold record_readable. destruct (valid rec) eqn:Hvalid; simpl.
  - destruct (fields rec !! MEDIAKIND_KEY) as [mk|] eqn:Hmk; [|done].
    destruct (fields rec !! KIND_KEY) as [ik|] eqn:Hik; [|done].
    destruct (podcast_bit ik) as [pod|] eqn:Hpod; [|done].
    intros _. eexists. by apply (item_shared_valid s rec mk ik pod).
  - intros _. exists true. by apply item_shared_invalid.
Qed.

(** The loop of [get_items] on a readable catalog: one entry per item id,
    the record itself when it is wanted and shared, a tombstone stamped with
    the current revision otherwise. *)
Lemma collect_items_run s wanted :
  readable s →
  ∃ r, collect_items s wanted s = (Ok r, s)
       ∧ ∀ k, r !! k
              = (λ rec, if wanted k
                           && (if (item_shared s rec s).1 is Ok true
                               then true else false)
                        then rec else Rec ∅ (revision s) false)
                <$> daapitems s !! k.
Proof.
  intros Hread. unfold collect_items.
  apply (fold_each_files
    (λ k rec, if wanted k
                 && (if (item_shared s rec s).1 is Ok true then true else false)
              then rec else Rec ∅ (revision s) false)).
  intros acc k rec Hrec.
  destruct (item_shared_readable s rec (Hread k rec Hrec)) as [b Hb].
  unfold bind. rewrite Hb. cbn.
  destruct (wanted k), b; done.
Qed.




End BackendReads.

Lemma maintains_get_any {S B} (I : S → Prop) (k : S → M S B) :
  (∀ s0, maintains I (k s0)) → maintains I (bind get k).
Proof. intros Hk s Hs. by apply Hk. Qed.

(** ** Playlist records say whether they are podcasts

    One step of an invariant proof in which the values a method has read
    do not matter; [leaf] settles a single assignment. *)
Ltac invariant_step leaf :=
  lazymatch goal with
  | |- maintains _ (bind get _) => apply maintains_get_any; intros ?
  | |- maintains _ (bind _ _) => apply maintains_bind; [|intros ?]
  | |- maintains _ (ret _) => apply maintains_ret
  | |- maintains _ (raise _) => apply maintains_raise
  | |- maintains _ get => intros ? ?; assumption
  | |- maintains _ (modify ?g) => apply maintains_modify; intros ? ?; leaf g
  | |- maintains _ (subscript _ _) => apply maintains_subscript
  | |- maintains _ (try_except _ _ _) => apply maintains_try_except
  | |- maintains _ (for_each _ _) => apply maintains_for_each; intros ?
  | |- maintains _ (fold_each _ _ _) => apply maintains_fold_each; intros ? ?
  | |- maintains _ (match ?x with _ => _ end) => destruct x
  | |- maintains _ ((match ?x with _ => _ end) _) => destruct x
  | |- maintains _ ((λ _, _) _) => cbv beta
  | |- maintains _ (let _ := _ in _) => cbv zeta
  end.

Section BackendFlagged.
Import Backend.
Context `{Libdaap} `{Codec} `{Platform}.

Lemma maintains_tombstone_bind {B} (I : state → Prop)
    (k : daap_record → M state B) :
  (∀ r, maintains I (k (Rec ∅ r false))) → maintains I (bind deleted_item k).
Proof. intros Hk s Hs. by apply Hk. Qed.

Lemma flagged_frame (g : state → state) s :
  daap_playlists (g s) = daap_playlists s → flagged s → flagged (g s).
Proof. unfold flagged. by intros ->. Qed.

Lemma flagged_stamp_one r i s :
  flagged s → flagged (set_daap_playlists (alter (stamp r) i) s).
Proof.
  intros Hs j pl. cbn. rewrite lookup_alter.
  destruct (decide (i = j)) as [->|]; [|apply Hs].
  destruct (daap_playlists s !! j) as [pl0|] eqn:Hpl; [|done].
  intros [= <-]. simpl. by apply (Hs j).
Qed.

Lemma flagged_stamp_all r s :
  flagged s → flagged (set_daap_playlists (fmap (stamp r)) s).
Proof.
  intros Hs j pl. cbn. rewrite lookup_fmap.
  destruct (daap_playlists s !! j) as [pl0|] eqn:Hpl; [|done].
  intros [= <-]. simpl. by apply (Hs j).
Qed.

Lemma flagged_delete i s :
  flagged s → flagged (set_daap_playlists (delete i) s).
Proof. intros Hs. by apply map_Forall_delete. Qed.

Lemma flagged_tombstone i r s :
  flagged s → flagged (set_daap_playlists <[i := Rec ∅ r false]> s).
Proof. intros Hs. by apply map_Forall_insert_2. Qed.

Lemma flagged_insert i itemprop r s :
  is_Some (itemprop !! "podcast"%string) →
  flagged s → flagged (set_daap_playlists <[i := Rec itemprop r true]> s).
Proof. intros Hflag Hs. by apply map_Forall_insert_2. Qed.

Ltac flagged_leaf g :=
  first
    [ by apply (flagged_frame g)
    | by apply flagged_stamp_one
    | by apply flagged_stamp_all
    | by apply flagged_delete
    | by apply flagged_tombstone
    | apply flagged_insert; [|done];
      destruct (String.eqb _ "feed");
      rewrite ?lookup_insert_ne by done; rewrite lookup_insert_eq; done ].

Ltac keep_flagged :=
  unfold Backend.lift, emit, update_revision, stamp_item,
    stamp_playlist, make_item_dict, make_daap_playlists, make_item,
    make_daap_playlist;
  repeat first
    [ lazymatch goal with
      | |- maintains _ (λ s, (_, s)) => intros ? ?; assumption
      | |- maintains _ (Backend.lift _) => intros ? ?; assumption
      | |- maintains _ (bind deleted_item _) =>
          apply maintains_tombstone_bind; intros ?
      end
    | invariant_step flagged_leaf ].

Lemma step_flagged s s' : flagged s → step s s' → flagged s'.
Proof.
  intros Hs Hstep. destruct Hstep;
    lazymatch goal with |- flagged (?m ?s).2 =>
      let Hm := fresh in assert (maintains flagged m) as Hm; [|exact (Hm s Hs)]
    end.
  - unfold handle_item_list. keep_flagged.
  - unfold handle_items_changed, item_removed. keep_flagged.
  - unfold handle_playlist_added. keep_flagged.
  - unfold handle_playlist_changed. keep_flagged.
  - unfold handle_playlist_removed. keep_flagged.
  - unfold populate_playlists. keep_flagged.
  - unfold on_config_changed. keep_flagged.
  - unfold watcher. keep_flagged.
  - unfold get_file. keep_flagged.
  - unfold finished_callback. keep_flagged.
  - unfold shutdown. keep_flagged.
Qed.

Lemma reachable_flagged s : reachable s → flagged s.
Proof.
  induction 1 as [cfg|s s' _ IH Hstep].
  - apply map_Forall_empty.
  - by apply (step_flagged s).
Qed.



End BackendFlagged.

(** ** Edges of [get_file] and of the item events *)

Section BackendEdges.
Import Backend.
Context `{Libdaap} `{Codec} `{Platform}.

Lemma get_file_in_shutdown s itemid generation ext session offset chunk :
  in_shutdown s = true →
  ext ∈ ["ts"; "m3u8"]%string →
  let run := get_file itemid generation ext session offset chunk s in
  run.2 = s ∧ (run.1 = Ok (None, None) ∨ run.1 = Raise KeyError).
Proof.
  intros Hshut Hext. unfold get_file, bind, get, subscript.
  destruct (daapitems s !! itemid) as [rec|]; [|by auto].
  destruct (fields rec !! "path"%string) as [path|]; [|by auto].
  cbn. rewrite bool_decide_eq_true_2 by done. rewrite Hshut. by auto.
Qed.

Lemma shutdown_run s :
  shutdown s
  = (Ok tt,
     (for_each (map_to_list (transcode s)).*2 (λ job, emit (Shutdown job))
        (set_in_shutdown true s)).2).
Proof.
  unfold shutdown, bind, modify, get. cbn.
  assert (∀ l s0, ∃ s1,
    for_each l (λ job, emit (Shutdown job)) s0 = (Ok tt, s1)) as Hok.
  { induction l as [|j rest IH]; intros s0; simpl; [by eexists|].
    unfold bind, emit, modify. cbn. apply IH. }
  destruct (Hok (map_to_list (transcode s)).*2 (set_in_shutdown true s))
    as [s1 ->]. done.
Qed.

Lemma shutdown_trace l s :
  let s' := (for_each l (λ job, emit (Shutdown job)) s).2 in
  trace s' = trace s ++ (Shutdown <$> l) ∧ in_shutdown s' = in_shutdown s
  ∧ transcode s' = transcode s.
Proof.
  revert s. induction l as [|j rest IH]; intros s; simpl.
  - by rewrite app_nil_r.
  - rewrite (bind_run _ _ s tt (emit (Shutdown j) s).2) by reflexivity.
    destruct (IH (emit (Shutdown j) s).2) as (Ht & Hs & Hj).
    rewrite Ht, Hs, Hj. cbn. by rewrite <- app_assoc.
Qed.


Lemma get_file_plain_run s itemid generation ext session offset chunk rec path :
  daapitems s !! itemid = Some rec →
  fields rec !! "path"%string = Some path →
  ext ∉ ["ts"; "m3u8"]%string →
  ext ≠ "coverart"%string →
  get_file itemid generation ext session offset chunk s
  = (if can_open path
     then Ok (Some (OpenFile path offset), Some (basename path))
     else Raise IOError,
     set_transcode (delete session) s).
Proof.
  intros Hrec Hpath Hext Hne.
  unfold get_file, bind at 1, get. rewrite Hrec.
  unfold bind at 1, subscript at 1. rewrite Hpath. cbv [ret].
  rewrite bool_decide_eq_false_2 by done.
  rewrite (proj2 (String.eqb_neq _ _) Hne).
  unfold bind, modify. by destruct (can_open path).
Qed.

Lemma get_file_coverart_run s itemid generation session offset chunk rec path :
  daapitems s !! itemid = Some rec →
  fields rec !! "path"%string = Some path →
  get_file itemid generation "coverart" session offset chunk s
  = (match fields rec !! "cover_art"%string with
     | Some cover_art =>
         if truthy cover_art then
           if can_open cover_art
           then Ok (Some (OpenFile cover_art offset), Some (basename path))
           else Raise IOError
         else Ok (None, Some (basename path))
     | None => Raise KeyError
     end, s).
Proof.
  intros Hrec Hpath.
  unfold get_file, bind at 1, get. rewrite Hrec.
  unfold bind at 1, subscript at 1. rewrite Hpath. cbv [ret].
  rewrite bool_decide_eq_false_2
    by (rewrite !elem_of_cons, elem_of_nil; intros [|[|]]; done).
  cbn. unfold bind, subscript.
  destruct (fields rec !! "cover_art"%string) as [art|]; [|done].
  cbn. by destruct (truthy art), (can_open art).
Qed.




End BackendEdges.

(** ** Filing records *)

Section BackendRecords.
Import Backend.
Context `{Libdaap} `{Codec} `{Platform}.

Lemma export_attrs_kind item itemprop :
  export_attrs item = Ok itemprop → is_Some (itemprop !! KIND_KEY).
Proof.
  intros Hrun.
  destruct (export_loop_lookup item daap_rmapping (Ok ∅) itemprop
              "kind" KIND_KEY Hrun) as (v & _ & ->); [| |done].
  - apply (bool_decide_unpack _). vm_compute. exact I.
  - apply (bool_decide_unpack _). vm_compute. exact I.
Qed.

Lemma make_item_cases item s r s' :
  make_item item s = (r, s') →
  match r with
  | Ok _ =>
      ∃ rec,
        s' = set_daapitems <[item_id item := rec]> s
        ∧ valid rec = true
        ∧ rec_revision rec = revision s
        ∧ fields rec !! "path"%string = Some (PStr (video_path item))
        ∧ (fields rec !! MEDIAKIND_KEY = Some (PInt DAAP_MEDIAKIND_VIDEO)
           ∨ fields rec !! MEDIAKIND_KEY = Some (PInt DAAP_MEDIAKIND_AUDIO))
        ∧ is_Some (fields rec !! KIND_KEY)
        ∧ is_Some (fields rec !! "daap.songformat"%string)
        ∧ fields rec !! "dmap.containeritemid"%string
          = fields rec !! "dmap.itemid"%string
  | Raise _ => s' = s
  end.
Proof.
  unfold make_item.
  unfold bind at 1, Backend.lift.
  destruct (export_attrs item) as [itemprop|e] eqn:Hloop;
    [|by intros [= <- <-]].
  cbv zeta.
  set (ip1 := if item_from_podcast item then _ else itemprop).
  set (ip2 := match ip1 !! KIND_KEY with Some _ => _ | None => _ end).
  assert (is_Some (ip2 !! KIND_KEY)) as Hkind.
  { pose proof (export_attrs_kind item itemprop Hloop) as Hkind0.
    subst ip2 ip1.
    destruct (item_from_podcast item).
    - rewrite lookup_insert_eq.
      destruct (truthy _); [|by rewrite lookup_insert_eq].
      destruct (itemkind_lookup _); by rewrite lookup_insert_eq.
    - destruct (itemprop !! KIND_KEY) as [kind|] eqn:Hk; [|by destruct Hkind0].
      destruct (truthy kind); [|by rewrite Hk].
      destruct (itemkind_lookup kind); [by rewrite lookup_insert_eq|].
      by rewrite Hk. }
  clearbody ip2. clear ip1.
  unfold bind at 1, subscript at 1.
  destruct (ip2 !! MEDIAKIND_KEY) as [mediakind|] eqn:Hmk;
    [|by intros [= <- <-]].
  cbv [ret].
  set (enc := if truthy _ then _ else PStr _). clearbody enc.
  unfold bind at 1. destruct (py_tail enc) as [enclosure|] eqn:Henc;
    [|by intros [= <- <-]].
  set (ip3 := <["cover_art"%string := _]> _).
  unfold bind at 1, subscript at 1.
  destruct (ip3 !! "dmap.itemid"%string) as [itemid|] eqn:Hid;
    [|by intros [= <- <-]].
  cbv [ret]. unfold bind, get, modify. intros [= <- <-].
  eexists. split; [reflexivity|]. cbn [valid rec_revision fields].
  split; [done|]. split; [done|].
  subst ip3. unfold MEDIAKIND_KEY, KIND_KEY in *.
  split; [by rewrite lookup_insert_ne, lookup_insert_ne, lookup_insert_eq|].
  split.
  { rewrite !lookup_insert_ne by done. rewrite lookup_insert_eq.
    destruct (bool_decide (mediakind = _ ∨ _)); [left|right]; reflexivity. }
  split; [by rewrite !lookup_insert_ne by done|].
  split; [by rewrite !lookup_insert_ne, lookup_insert_eq by done|].
  rewrite lookup_insert_eq. rewrite lookup_insert_ne by done. by rewrite Hid.
Qed.


(** A list of items that is filed without an exception leaves a valid
    record, stamped with the current revision, under every id of the list,
    and touches nothing else. *)
Lemma make_item_dict_ok items s s' :
  make_item_dict items s = (Ok tt, s') →
  (∃ f, s' = set_daapitems f s)
  ∧ (∀ item, item ∈ items →
       ∃ rec, daapitems s' !! item_id item = Some rec
              ∧ valid rec = true ∧ rec_revision rec = revision s)
  ∧ (∀ k, k ∉ item_id <$> items → daapitems s' !! k = daapitems s !! k).
Proof.
  revert s. induction items as [|item rest IH]; intros s; simpl.
  - intros [= <-]. split; [exists id; destruct s; reflexivity|].
    split; [intros ? Hx; by apply elem_of_nil in Hx | done].
  - intros Hrun. apply bind_ok in Hrun as ([] & s1 & Hitem & Hrest).
    apply make_item_cases in Hitem as (rec & -> & Hvalid & Hrev & _).
    apply IH in Hrest as ([f ->] & Hin & Hout).
    split; [by eexists (λ m, f (<[item_id item := rec]> m))|].
    split.
    + intros item' [->|Hin']%elem_of_cons.
      * destruct (decide (item_id item ∈ item_id <$> rest)) as [Hagain|Hnew].
        -- apply list_elem_of_fmap in Hagain as (item2 & Heq & Hin2).
           destruct (Hin item2 Hin2) as (rec2 & Hl & Hv & Hr).
           rewrite <- Heq in Hl. by exists rec2.
        -- rewrite Hout by done. cbn. rewrite lookup_insert_eq. eauto.
      * by apply Hin.
    + intros k [Hne Hk]%not_elem_of_cons.
      rewrite Hout by done. cbn. by rewrite lookup_insert_ne.
Qed.

(** The loop that marks the items a library list no longer names. *)
Lemma tombstones_run (deleted : list Z) s :
  ∃ f,
    for_each deleted (λ d,
      (tombstone ←' deleted_item;
       modify (set_daapitems <[d := tombstone]>))%py) s
    = (Ok tt, set_daapitems f s)
    ∧ ∀ k, f (daapitems s) !! k
           = if decide (k ∈ deleted) then Some (Rec ∅ (revision s) false)
             else daapitems s !! k.
Proof.
  revert s. induction deleted as [|d rest IH]; intros s; cbn [for_each].
  - exists id. split; [destruct s; reflexivity|]. intros k.
    rewrite decide_False by apply not_elem_of_nil. done.
  - rewrite (bind_run _ _ s tt
               (set_daapitems <[d := Rec ∅ (revision s) false]> s))
      by reflexivity.
    destruct (IH (set_daapitems <[d := Rec ∅ (revision s) false]> s))
      as (f & -> & Hlook).
    exists (λ m, f (<[d := Rec ∅ (revision s) false]> m)).
    split; [done|]. intros k. cbn in Hlook. rewrite Hlook.
    destruct (decide (k ∈ rest)) as [Hin|Hout].
    + rewrite decide_True by by right. done.
    + destruct (decide (k = d)) as [->|Hne].
      * rewrite decide_True by by left. by rewrite lookup_insert_eq.
      * rewrite decide_False by (by intros [|]%elem_of_cons).
        by rewrite lookup_insert_ne.
Qed.


End BackendRecords.

(** ** Playlists and feeds *)

Section BackendPlaylists.
Import Backend.
Context `{Libdaap} `{Codec} `{Platform}.

Lemma list_remove_None x l : x ∉ l → list_remove x l = None.
Proof.
  induction l as [|y rest IH]; simpl; [done|].
  intros [Hne Hout]%not_elem_of_cons.
  rewrite decide_False by done. by rewrite IH.
Qed.


(** A feed is filed as a podcast playlist, stamped with the current
    revision. *)
Lemma make_daap_playlist_feed item s :
  ∃ itemprop,
    make_daap_playlist "feed" item s
    = (Ok tt,
       set_daap_playlists <[pl_id item := Rec itemprop (revision s) true]> s)
    ∧ itemprop !! "podcast"%string = Some (PBool true)
    ∧ itemprop !! DAAP_PODCAST_KEY = Some (PBool true).
Proof.
  eexists. split.
  - unfold make_daap_playlist, bind, get, modify, ret. cbn. reflexivity.
  - unfold DAAP_PODCAST_KEY. split.
    + by rewrite lookup_insert_ne, lookup_insert_eq.
    + by rewrite lookup_insert_eq.
Qed.

Lemma make_daap_playlists_feed (items : list playlist_obj) s :
  ∃ f,
    make_daap_playlists items "feed" s = (Ok tt, set_daap_playlists f s)
    ∧ (∀ item, item ∈ items →
         ∃ rec, f (daap_playlists s) !! pl_id item = Some rec
                ∧ valid rec = true
                ∧ rec_revision rec = revision s
                ∧ fields rec !! "podcast"%string = Some (PBool true)
                ∧ fields rec !! DAAP_PODCAST_KEY = Some (PBool true))
    ∧ (∀ p, p ∉ pl_id <$> items →
         f (daap_playlists s) !! p = daap_playlists s !! p).
Proof.
  revert s. induction items as [|item rest IH]; intros s.
  - exists id. split; [destruct s; reflexivity|].
    split; [intros ? Hx; by apply elem_of_nil in Hx | done].
  - unfold make_daap_playlists. cbn [for_each].
    destruct (make_daap_playlist_feed item s) as (itemprop & Hitem & Hp1 & Hp2).
    rewrite (bind_run _ _ _ _ _ Hitem).
    set (rec := Rec itemprop (revision s) true) in *.
    destruct (IH (set_daap_playlists <[pl_id item := rec]> s))
      as (f & Hrun & Hin & Hout).
    unfold make_daap_playlists in Hrun. rewrite Hrun.
    exists (λ m, f (<[pl_id item := rec]> m)).
    split; [done|]. cbn in Hin, Hout. split.
    + intros item' [->|Hin']%elem_of_cons; [|by apply Hin].
      destruct (decide (pl_id item ∈ pl_id <$> rest)) as [Hagain|Hnew].
      * apply list_elem_of_fmap in Hagain as (item2 & Heq & Hin2).
        destruct (Hin item2 Hin2) as (rec2 & Hl & Hrest).
        rewrite <- Heq in Hl. by exists rec2.
      * rewrite Hout by done. rewrite lookup_insert_eq. by exists rec.
    + intros p [Hne Hp]%not_elem_of_cons. rewrite Hout by done.
      by rewrite lookup_insert_ne.
Qed.

(** The loop of [_handle_playlist_added] that opens the two item lists of
    each new playlist and asks for its items. *)
Lemma track_new_playlists_run (playlists : list playlist_obj) flag s :
  let run :=
    for_each playlists (λ p,
      (modify (set_playlist_item_map <[pl_id p := []]>) ;;'
       modify (set_deleted_item_map <[pl_id p := []]>) ;;'
       emit (TrackItems (pl_id p) flag))%py) s in
  run.1 = Ok tt
  ∧ daap_playlists run.2 = daap_playlists s
  ∧ revision run.2 = revision s
  ∧ trace run.2 = trace s ++ ((λ p, TrackItems (pl_id p) flag) <$> playlists)
  ∧ (∀ p, p ∈ playlists →
       playlist_item_map run.2 !! pl_id p = Some []
       ∧ deleted_item_map run.2 !! pl_id p = Some [])
  ∧ (∀ k, k ∉ pl_id <$> playlists →
       playlist_item_map run.2 !! k = playlist_item_map s !! k
       ∧ deleted_item_map run.2 !! k = deleted_item_map s !! k).
Proof.
  revert s. induction playlists as [|p rest IH]; intros s; cbn [for_each].
  - cbn. rewrite app_nil_r. split; [done|]. split; [done|]. split; [done|].
    split; [done|]. split; [|done]. intros ? Hx. by apply elem_of_nil in Hx.
  - cbv zeta.
    set (s1 := (emit (TrackItems (pl_id p) flag)
                  (set_deleted_item_map <[pl_id p := []]>
                     (set_playlist_item_map <[pl_id p := []]> s))).2).
    rewrite (bind_run _ _ s tt s1) by reflexivity.
    destruct (IH s1) as (Hok & Hpl & Hrev & Htrace & Hin & Hout).
    split; [exact Hok|]. split; [by rewrite Hpl|]. split; [by rewrite Hrev|].
    split; [rewrite Htrace; cbn; by rewrite <- app_assoc|]. split.
    + intros p' [->|Hin']%elem_of_cons; [|by apply Hin].
      destruct (decide (pl_id p ∈ pl_id <$> rest)) as [Hagain|Hnew].
      * apply list_elem_of_fmap in Hagain as (p2 & Heq & Hin2).
        rewrite Heq. by apply Hin.
      * destruct (Hout _ Hnew) as [-> ->]. cbn.
        by rewrite !lookup_insert_eq.
    + intros k [Hne Hk]%not_elem_of_cons.
      destruct (Hout _ Hk) as [-> ->]. cbn.
      by rewrite !lookup_insert_ne.
Qed.


End BackendPlaylists.

(** *** The theorems above at work on the sample catalog *)

Lemma catalog_readable : Backend.readable Sample.catalog.
Proof. apply (bool_decide_unpack _). vm_compute. exact I. Qed.

Lemma shelf_readable : Backend.readable Sample.shelf.
Proof. apply (bool_decide_unpack _). vm_compute. exact I. Qed.

Lemma catalog_reachable :
  @Backend.reachable Sample.itunes_kinds Sample.ascii Sample.host Sample.catalog.
Proof.
  unfold Sample.catalog.
  eapply Backend.reachable_step; [apply Backend.reachable_init|].
  apply Backend.step_item_list.
Qed.

Lemma shelf_reachable :
  @Backend.reachable Sample.itunes_kinds Sample.ascii Sample.host Sample.shelf.
Proof.
  unfold Sample.shelf.
  eapply Backend.reachable_step; [|apply Backend.step_item_list].
  unfold Backend.handle_feed_added.
  eapply Backend.reachable_step; [|apply Backend.step_playlist_added].
  eapply Backend.reachable_step; [|apply Backend.step_playlist_added].
  apply catalog_reachable.
Qed.










(** * The rest of the client *)

(** ** Fetching a snapshot or a delta *)

Section FetchFacts.
Import ClientUpdateResult.

Lemma strip_nuls_clean value :
  Ascii.zero ∉ String.list_ascii_of_string (strip_nuls value).
Proof.
  induction value as [|c rest IH]; simpl; [apply not_elem_of_nil|].
  destruct (Ascii.eqb_spec c Ascii.zero) as [->|Hne]; [done|].
  simpl. apply not_elem_of_cons. split; [congruence | done].
Qed.

Lemma strip_nuls_from_data_clean data_list k data key value :
  strip_nuls_from_data data_list !! k = Some data →
  data !! key = Some (PStr value) →
  Ascii.zero ∉ String.list_ascii_of_string value.
Proof.
  unfold strip_nuls_from_data. rewrite lookup_fmap.
  destruct (data_list !! k) as [raw|]; [|done]. intros [= <-].
  rewrite lookup_fmap. destruct (raw !! key) as [[| | |s|]|]; try done.
  intros [= <-]. apply strip_nuls_clean.
Qed.

Lemma item_paths_failed client r l :
  foldl (item_path_step client) (Failed r) l = Failed r.
Proof. induction l as [|x rest IH]; simpl; [done | exact IH]. Qed.

Lemma item_paths_fetched client l item_paths item_paths' :
  foldl (item_path_step client) (Fetched item_paths) l = Fetched item_paths' →
  dom item_paths' = dom item_paths ∪ list_to_set l.*1.
Proof.
  revert item_paths. induction l as [|[k data] rest IH]; intros item_paths; simpl.
  - intros [= <-]. by rewrite (right_id_L ∅ (∪)).
  - destruct (data !! "daap.songformat"%string) as [fmt|].
    + intros Hrest. apply IH in Hrest. rewrite Hrest, dom_insert_L.
      rewrite (assoc_L (∪)). f_equal. apply (comm_L (∪)).
    + by rewrite item_paths_failed.
Qed.

Lemma playlists_failed client r l :
  foldl (playlist_step client) (Failed r) l = Failed r.
Proof. induction l as [|x rest IH]; simpl; [done | exact IH]. Qed.

Lemma playlists_fetched client l acc acc' :
  foldl (playlist_step client) (Fetched acc) l = Fetched acc' →
  dom acc'.1 = dom acc.1 ∪ list_to_set l
  ∧ dom acc'.2 = dom acc.2 ∪ list_to_set l
  ∧ ∀ p, p ∈ l → is_Some (items_reply client (Some p)).1.
Proof.
  revert acc. induction l as [|p rest IH]; intros [pi pd]; simpl.
  - intros [= <-]. rewrite !(right_id_L ∅ (∪)).
    split; [done|]. split; [done|].
    intros ? Hx. by apply elem_of_nil in Hx.
  - unfold fetch_playlist_items.
    destruct (items_reply client (Some p)) as [[items|] deleted] eqn:Hreply.
    + intros Hrest. apply IH in Hrest as (H1 & H2 & H3). simpl in *.
      rewrite H1, H2, !dom_insert_L, !(assoc_L (∪)).
      split; [f_equal; apply (comm_L (∪))|].
      split; [f_equal; apply (comm_L (∪))|].
      intros q [->|Hq]%elem_of_cons; [by rewrite Hreply | by apply H3].
    + by rewrite playlists_failed.
Qed.

Lemma playlists_name_error client l acc p :
  p ∈ l →
  (items_reply client (Some p)).1 = None →
  foldl (playlist_step client) (Fetched acc) l = Failed NameError.
Proof.
  revert acc. induction l as [|q rest IH]; intros [pi pd] Hin Hnone; simpl.
  - by apply elem_of_nil in Hin.
  - unfold fetch_playlist_items.
    destruct (items_reply client (Some q)) as [[items|] deleted] eqn:Hreply.
    + apply elem_of_cons in Hin as [->|Hin]; [by rewrite Hreply in Hnone|].
      by apply IH.
    + apply playlists_failed.
Qed.


(** What a fetch that returns has fetched. *)
Lemma init_fetched client result :
  init client = Fetched result →
  dom (Client.playlist_items result) = dom (Client.playlists result)
  ∧ dom (Client.playlist_deleted_items result) = dom (Client.playlists result)
  ∧ dom (Client.item_paths result)
    = list_to_set (Client.items result).*1
  ∧ (∀ p data, Client.playlists result !! p = Some data →
       truthy (default (PBool false) (data !! "daap.baseplaylist"%string))
       = false)
  ∧ (∀ p data key value,
       Client.playlists result !! p = Some data →
       data !! key = Some (PStr value) →
       Ascii.zero ∉ String.list_ascii_of_string value)
  ∧ (∀ daap_id data key value,
       (daap_id, data) ∈ Client.items result →
       data !! key = Some (PStr value) →
       Ascii.zero ∉ String.list_ascii_of_string value).
Proof.
  unfold init, check_database_exists.
  destruct (databases client); [|done].
  destruct (fetch_playlists client) as [[playlists deleted_playlists]|]
    eqn:Hplaylists; [|done].
  destruct (fetch_items client) as [[[items deleted_items] item_paths]|]
    eqn:Hitems; [|done].
  destruct (foldl _ _ _) as [[pi pd]|] eqn:Hloop; [|done].
  intros [= <-]. cbn.
  apply playlists_fetched in Hloop as (Hpi & Hpd & _). simpl in *.
  assert (list_to_set (map_to_list playlists).*1 = dom playlists) as Hkeys.
  { apply set_eq. intros k. rewrite elem_of_list_to_set, elem_of_dom.
    rewrite list_elem_of_fmap. split.
    - intros ([k' d] & -> & Hin%elem_of_map_to_list). eauto.
    - intros [d Hd]. exists (k, d). split; [done|].
      by apply elem_of_map_to_list. }
  rewrite Hpi, Hpd, Hkeys, !dom_empty_L, !(left_id_L ∅ (∪)).
  split; [done|]. split; [done|].
  unfold fetch_playlists in Hplaylists.
  destruct (playlists_reply client) as [[raw_playlists|] ?]; [|done].
  injection Hplaylists as <- <-.
  unfold fetch_items in Hitems.
  destruct (items_reply client None) as [[raw_items|] ?]; [|done].
  destruct (foldl _ _ _) as [paths|] eqn:Hpaths in Hitems; [|done].
  injection Hitems as <- <- <-.
  apply item_paths_fetched in Hpaths.
  rewrite Hpaths, dom_empty_L, (left_id_L ∅ (∪)).
  split; [done|]. split.
  { intros p data Hdata. by apply map_lookup_filter_Some in Hdata as [_ ?]. }
  split.
  - intros p data key value Hdata.
    apply map_lookup_filter_Some in Hdata as [Hdata _].
    by apply (strip_nuls_from_data_clean raw_playlists p).
  - intros daap_id data key value Hin%elem_of_map_to_list.
    by apply (strip_nuls_from_data_clean raw_items daap_id).
Qed.


End FetchFacts.

(** ** Merging playlists *)

Section PlaylistMerge.
Import Client.

(** The first loop of [_ClientPlaylistTracker.update] files every playlist
    of the result and opens a member set for the new ones. *)
Lemma tracker_update_files (l : list (Z * daap_dict)) s :
  tracked s →
  ∃ s',
    for_each l (λ '(playlist_id, data),
      (s ←' get;
       (if decide (playlist_id ∉ dom (playlist_data s))
        then modify (set_tracker_items <[playlist_id := ∅]>)
        else ret tt) ;;'
       modify (set_playlist_data <[playlist_id := data]>))%py) s = (Ok tt, s')
    ∧ tracked s'
    ∧ dom (tracker_items s') = dom (tracker_items s) ∪ list_to_set l.*1.
Proof.
  revert s. induction l as [|[playlist_id data] rest IH]; intros s Hs.
  - exists s. split; [done|]. split; [done|]. cbn.
    by rewrite (right_id_L ∅ (∪)).
  - cbn [for_each].
    destruct (decide (playlist_id ∉ dom (playlist_data s))) as [Hnew|Hold].
    + rewrite (bind_run _ _ s tt
                 (set_playlist_data <[playlist_id := data]>
                    (set_tracker_items <[playlist_id := ∅]> s)))
        by (unfold bind, get; by rewrite decide_True).
      destruct (IH (set_playlist_data <[playlist_id := data]>
                      (set_tracker_items <[playlist_id := ∅]> s)))
        as (s' & -> & Htracked & Hdom).
      { unfold tracked in *. cbn. by rewrite !dom_insert_L, Hs. }
      exists s'. split; [done|]. split; [done|].
      rewrite Hdom. cbn. rewrite dom_insert_L, !(assoc_L (∪)). f_equal.
      apply (comm_L (∪)).
    + rewrite (bind_run _ _ s tt
                 (set_playlist_data <[playlist_id := data]> s))
        by (unfold bind, get; by rewrite decide_False).
      apply dec_stable in Hold.
      destruct (IH (set_playlist_data <[playlist_id := data]> s))
        as (s' & -> & Htracked & Hdom).
      { unfold tracked in *. cbn. rewrite dom_insert_L, <- Hs.
        apply set_eq. intros x. rewrite elem_of_union, elem_of_singleton.
        split; [intros [->|?]; done | auto]. }
      exists s'. split; [done|]. split; [done|].
      rewrite Hdom. cbn. rewrite (assoc_L (∪)). f_equal.
      apply set_eq. intros x. rewrite elem_of_union, elem_of_singleton.
      unfold tracked in Hs. rewrite <- Hs.
      split; [auto | intros [ ? | -> ]; done].
Qed.

(** The third loop adds the reported members to sets that exist. *)
Lemma tracker_update_adds (l : list (Z * list Z)) s :
  (∀ playlist_id, playlist_id ∈ l.*1 → playlist_id ∈ dom (tracker_items s)) →
  ∃ s',
    for_each l (λ '(playlist_id, item_ids),
      (s ←' get;
       members ←' subscript (tracker_items s) playlist_id;
       modify (set_tracker_items
                 <[playlist_id := members ∪ list_to_set item_ids]>))%py) s
    = (Ok tt, s')
    ∧ playlist_data s' = playlist_data s
    ∧ dom (tracker_items s') = dom (tracker_items s).
Proof.
  revert s. induction l as [|[playlist_id item_ids] rest IH]; intros s Hin.
  - by exists s.
  - cbn [for_each].
    assert (playlist_id ∈ dom (tracker_items s))
      as [members Hmembers]%elem_of_dom by (apply Hin; by left).
    rewrite (bind_run _ _ s tt
               (set_tracker_items
                  <[playlist_id := members ∪ list_to_set item_ids]> s))
      by (unfold bind, get, subscript; by rewrite Hmembers).
    destruct (IH (set_tracker_items
                    <[playlist_id := members ∪ list_to_set item_ids]> s))
      as (s' & -> & Hdata & Hdom).
    { intros p Hp. cbn. rewrite dom_insert_L. apply elem_of_union_r.
      apply Hin. by right. }
    exists s'. split; [done|]. split; [done|]. rewrite Hdom. cbn.
    rewrite dom_insert_L. apply set_eq. intros x.
    rewrite elem_of_union, elem_of_singleton.
    split; [intros [->|?]; [by apply elem_of_dom|done] | auto].
Qed.

(** On a first run, with the members reported for playlists of the result
    or of the tracker, the tracker update cannot fail. *)
Lemma tracker_update_first_run result s :
  deleted_playlists result = [] →
  playlist_deleted_items result = ∅ →
  dom (playlist_items result) ⊆ dom (playlists result) ∪ dom (playlist_data s) →
  tracked s →
  ∃ s', tracker_update result s = (Ok tt, s') ∧ tracked s'.
Proof.
  intros Hdel Hgone Hsub Hs. unfold tracker_update. rewrite Hdel, Hgone.
  destruct (tracker_update_files (map_to_list (playlists result)) s Hs)
    as (s1 & Hfiles & Hs1 & Hdom1).
  rewrite (bind_run _ _ _ _ _ Hfiles). cbn [for_each].
  rewrite (bind_run _ _ s1 tt s1) by reflexivity.
  rewrite map_to_list_empty. cbn [for_each].
  destruct (tracker_update_adds (map_to_list (playlist_items result)) s1)
    as (s2 & Hadds & Hdata2 & Hdom2).
  { intros p Hp. rewrite Hdom1. apply list_elem_of_fmap in Hp
      as ([p' ids] & -> & Hin%elem_of_map_to_list).
    assert (p' ∈ dom (playlist_items result)) as Hp' by (apply elem_of_dom; eauto).
    apply Hsub in Hp'. apply elem_of_union in Hp' as [Hp'|Hp'].
    - apply elem_of_union_r, elem_of_list_to_set.
      apply elem_of_dom in Hp' as [d Hd]. apply list_elem_of_fmap.
      exists (p', d). split; [done|]. by apply elem_of_map_to_list.
    - apply elem_of_union_l. unfold tracked in Hs. by rewrite <- Hs. }
  rewrite (bind_run _ _ _ _ _ Hadds).
  exists s2. split; [done|]. unfold tracked in *. by rewrite Hdata2, Hdom2.
Qed.


(** [set_playlist_item_map] with the identity changes nothing. *)
Lemma set_playlist_item_map_id s : set_playlist_item_map id s = s.
Proof. by destruct s. Qed.

Lemma set_playlist_item_map_compose f g s :
  set_playlist_item_map g (set_playlist_item_map f s)
  = set_playlist_item_map (g ∘ f) s.
Proof. by destruct s. Qed.

(** The loop of [update_playlists] that forgets the playlists that are
    gone. *)
Lemma forget_playlists_run (new : gmap Z (gset Z)) (l : list (Z * gset Z))
    changed s :
  ∃ changed' f,
    fold_each l changed
      (λ changed '(playlist_id, _),
         (if decide (playlist_id ∉ dom new) then
            modify (set_playlist_item_map (delete (inl playlist_id))) ;;'
            ret true
          else ret changed)%py) s
    = (Ok changed', set_playlist_item_map f s)
    ∧ (∀ m playlist_id,
         f m !! inl playlist_id
         = if decide (playlist_id ∈ l.*1 ∧ playlist_id ∉ dom new)
           then None else m !! inl playlist_id)
    ∧ (∀ m name, f m !! inr name = m !! inr name).
Proof.
  revert changed s. induction l as [|[p items] rest IH]; intros changed s.
  - exists changed, id. rewrite set_playlist_item_map_id.
    split; [done|]. split; [|done]. intros m q.
    rewrite decide_False; [done|]. intros [Hq _]. by apply elem_of_nil in Hq.
  - cbn [fold_each].
    destruct (decide (p ∉ dom new)) as [Hgone|Hkept].
    + rewrite (bind_run _ _ s true
                 (set_playlist_item_map (delete (inl p)) s)).
      2:{ done. }
      destruct (IH true (set_playlist_item_map (delete (inl p)) s))
        as (changed' & f & -> & Hinl & Hinr).
      exists changed', (f ∘ delete (inl p)).
      rewrite set_playlist_item_map_compose.
      split; [done|]. split.
      * intros m q. simpl. rewrite Hinl.
        destruct (decide (q ∈ rest.*1 ∧ q ∉ dom new)) as [[Hq Hn]|Hno].
        -- rewrite decide_True; [done|]. split; [by right | done].
        -- destruct (decide (q = p)) as [->|Hne].
           ++ rewrite decide_True by (split; [by left | done]).
              apply lookup_delete_eq.
           ++ rewrite decide_False.
              ** rewrite lookup_delete_ne; [done | congruence].
              ** intros [[?|?]%elem_of_cons ?]; [done|]. by apply Hno.
      * intros m name. simpl. rewrite Hinr. by rewrite lookup_delete_ne.
    + rewrite (bind_run _ _ s changed s) by done.
      destruct (IH changed s) as (changed' & f & -> & Hinl & Hinr).
      exists changed', f. split; [done|]. split; [|done].
      intros m q. rewrite Hinl.
      destruct (decide (q ∈ rest.*1 ∧ q ∉ dom new)) as [[Hq Hn]|Hno].
      * rewrite decide_True; [done|]. split; [by right | done].
      * rewrite decide_False; [done|].
        intros [[->|?]%elem_of_cons ?]; [done|]. by apply Hno.
Qed.

(** The loop that files the member sets that have changed. *)
Lemma file_playlists_run (old : gmap Z (gset Z)) (l : list (Z * gset Z))
    changed s :
  NoDup l.*1 →
  ∃ changed' f,
    fold_each l changed
      (λ changed '(playlist_id, item_ids),
         (if decide (Some item_ids ≠ old !! playlist_id) then
            modify (set_playlist_item_map <[inl playlist_id := item_ids]>) ;;'
            ret true
          else ret changed)%py) s
    = (Ok changed', set_playlist_item_map f s)
    ∧ (∀ m playlist_id,
         f m !! inl playlist_id
         = match (list_to_map l : gmap Z (gset Z)) !! playlist_id with
           | Some item_ids =>
               if decide (Some item_ids ≠ old !! playlist_id)
               then Some item_ids else m !! inl playlist_id
           | None => m !! inl playlist_id
           end)
    ∧ (∀ m name, f m !! inr name = m !! inr name).
Proof.
  revert changed s. induction l as [|[p items] rest IH];
    intros changed s Hnodup.
  - exists changed, id. rewrite set_playlist_item_map_id.
    split; [done|]. split; [|done]. intros m q.
    change (list_to_map [] : gmap Z (gset Z)) with (∅ : gmap Z (gset Z)).
    by rewrite lookup_empty.
  - cbn [fold_each]. apply NoDup_cons in Hnodup as [Hfresh Hnodup].
    assert ((list_to_map rest : gmap Z (gset Z)) !! p = None) as Hp
      by by apply not_elem_of_list_to_map_1.
    destruct (decide (Some items ≠ old !! p)) as [Hdiff|Hsame].
    + rewrite (bind_run _ _ s true
                 (set_playlist_item_map <[inl p := items]> s))
        by done.
      destruct (IH true (set_playlist_item_map <[inl p := items]> s) Hnodup)
        as (changed' & f & -> & Hinl & Hinr).
      exists changed', (f ∘ <[inl p := items]>).
      rewrite set_playlist_item_map_compose.
      split; [done|]. split.
      * intros m q. simpl. rewrite Hinl.
        destruct (decide (q = p)) as [->|Hne].
        -- rewrite Hp, !lookup_insert_eq. by rewrite decide_True.
        -- rewrite (lookup_insert_ne _ p q) by done.
           destruct (list_to_map rest !! q); [destruct (decide _); [done|]|];
             rewrite lookup_insert_ne; congruence.
      * intros m name. simpl. rewrite Hinr. by rewrite lookup_insert_ne.
    + rewrite (bind_run _ _ s changed s) by done.
      destruct (IH changed s Hnodup) as (changed' & f & -> & Hinl & Hinr).
      exists changed', f. split; [done|]. split; [|done].
      intros m q. rewrite Hinl, list_to_map_cons.
      destruct (decide (q = p)) as [->|Hne].
      * rewrite Hp, lookup_insert_eq. by rewrite decide_False.
      * by rewrite (lookup_insert_ne _ p q).
Qed.

(** The loop that announces the visible playlists: a playlist with a name
    can always be announced. *)
Lemma announce_playlists_run (result : update_result)
    (l : list (Z * daap_dict)) lists s :
  (∀ daap_id data, (daap_id, data) ∈ l →
     is_Some (data !! "dmap.itemname"%string)) →
  ∃ lists',
    fold_each l lists
      (λ '(added, changed) '(daap_id, data),
         (s ←' get;
          if decide (daap_id ∉ current_playlist_ids s) then
            info ←' make_playlist_sharing_info daap_id data;
            modify (set_current_playlist_ids (union {[daap_id]})) ;;'
            ret (added ++ [info], changed)
          else if decide (daap_id ∈ dom (playlists result)) then
            info ←' make_playlist_sharing_info daap_id data;
            ret (added, changed ++ [info])
          else ret (added, changed))%py) s
    = (Ok lists',
       set_current_playlist_ids
         (λ ids, list_to_set l.*1 ∪ ids) s).
Proof.
  revert lists s. induction l as [|[daap_id data] rest IH];
    intros [added changed] s Hnames.
  - exists (added, changed). cbn.
    assert (set_current_playlist_ids (λ ids, ∅ ∪ ids) s = s) as ->; [|done].
    destruct s. unfold set_current_playlist_ids. cbn. f_equal.
    apply (left_id_L ∅ (∪)).
  - cbn [fold_each].
    destruct (Hnames daap_id data) as [name Hname]; [by left|].
    assert (∀ s0, make_playlist_sharing_info daap_id data s0
              = (Ok (SharingPlaylistInfo (share_id s0) name daap_id
                       (default (PBool false) (data !! DAAP_PODCAST_KEY))), s0))
      as Hinfo.
    { intros s0. unfold make_playlist_sharing_info, bind, get, subscript.
      by rewrite Hname. }
    assert (∀ daap_id' data', (daap_id', data') ∈ rest →
              is_Some (data' !! "dmap.itemname"%string)) as Hrest.
    { intros i d Hin. apply (Hnames i d). by right. }
    destruct (decide (daap_id ∉ current_playlist_ids s)) as [Hnew|Hold].
    + rewrite (bind_run _ _ s
                 (added ++ [SharingPlaylistInfo (share_id s) name daap_id
                              (default (PBool false) (data !! DAAP_PODCAST_KEY))],
                  changed)
                 (set_current_playlist_ids (union {[daap_id]}) s)).
      2:{ cbv beta iota. unfold bind at 1, get. rewrite decide_True by done.
          unfold bind at 1. by rewrite Hinfo. }
      destruct (IH (added ++ [SharingPlaylistInfo (share_id s) name daap_id
                              (default (PBool false) (data !! DAAP_PODCAST_KEY))],
                    changed)
                  (set_current_playlist_ids (union {[daap_id]}) s) Hrest)
        as (lists' & ->).
      exists lists'. f_equal. destruct s. unfold set_current_playlist_ids.
      cbn. f_equal. rewrite !(assoc_L (∪)). f_equal. apply (comm_L (∪)).
    + apply dec_stable in Hold.
      assert (set_current_playlist_ids
                (λ ids, list_to_set ((daap_id, data) :: rest).*1 ∪ ids) s
              = set_current_playlist_ids (λ ids, list_to_set rest.*1 ∪ ids) s)
        as ->.
      { destruct s. unfold set_current_playlist_ids. cbn in *. f_equal.
        apply set_eq. intros x. rewrite !elem_of_union, elem_of_singleton.
        split; [intros [[->|?]|?]; auto | intros [?|?]; auto]. }
      destruct (decide (daap_id ∈ dom (playlists result))) as [Hin|Hout].
      * rewrite (bind_run _ _ s
                   (added,
                    changed ++ [SharingPlaylistInfo (share_id s) name daap_id
                                  (default (PBool false)
                                     (data !! DAAP_PODCAST_KEY))]) s).
        2:{ cbv beta iota. unfold bind at 1, get. rewrite decide_False by auto.
            unfold bind at 1. by rewrite Hinfo. }
        apply IH, Hrest.
      * rewrite (bind_run _ _ s (added, changed) s).
        2:{ cbv beta iota. unfold bind at 1, get.
            by rewrite decide_False by auto. }
        apply IH, Hrest.
Qed.


Lemma tracker_update_frames result :
  preserves playlist_item_map (tracker_update result)
  ∧ preserves current_playlist_ids (tracker_update result)
  ∧ preserves trace (tracker_update result).
Proof. unfold tracker_update. split; [|split]; frame. Qed.

(** A visible playlist has a name. *)
Lemma current_playlists_named s daap_id data :
  (daap_id, data) ∈ map_to_list (current_playlists s) →
  is_Some (data !! "dmap.itemname"%string).
Proof.
  intros Hin%elem_of_map_to_list.
  apply map_lookup_filter_Some in Hin as [_ Hvalid]. simpl in Hvalid.
  apply andb_prop in Hvalid as [_ Hvalid].
  apply andb_prop in Hvalid as [_ Hname]. unfold dict_get in Hname.
  by destruct (data !! "dmap.itemname"%string).
Qed.

Lemma keys_of_map_to_list {A} (m : gmap Z A) :
  list_to_set (map_to_list m).*1 = dom m.
Proof.
  apply set_eq. intros k. rewrite elem_of_list_to_set, elem_of_dom.
  rewrite list_elem_of_fmap. split.
  - intros ([k' d] & -> & Hin%elem_of_map_to_list). eauto.
  - intros [d Hd]. exists (k, d). split; [done|].
    by apply elem_of_map_to_list.
Qed.

(** Whether the loop that forgets playlists reports a change. *)
Lemma forget_playlists_changed (new : gmap Z (gset Z)) (l : list (Z * gset Z))
    changed s changed' s' :
  fold_each l changed
    (λ changed '(playlist_id, _),
       (if decide (playlist_id ∉ dom new) then
          modify (set_playlist_item_map (delete (inl playlist_id))) ;;'
          ret true
        else ret changed)%py) s
  = (Ok changed', s') →
  changed' = true ↔ changed = true ∨ ∃ playlist_id, playlist_id ∈ l.*1
                                                    ∧ playlist_id ∉ dom new.
Proof.
  revert changed s. induction l as [|[p items] rest IH]; intros changed s.
  - cbn. intros [= <- _]. split; [by left|].
    intros [?|(q & Hq & _)]; [done|]. by apply elem_of_nil in Hq.
  - cbn [fold_each].
    destruct (decide (p ∉ dom new)) as [Hgone|Hkept].
    + rewrite (bind_run _ _ s true
                 (set_playlist_item_map (delete (inl p)) s)) by done.
      intros Hrest%IH. rewrite Hrest. split.
      * intros _. right. exists p. split; [by left | done].
      * intros _. by left.
    + rewrite (bind_run _ _ s changed s) by done.
      intros Hrest%IH. rewrite Hrest. split.
      * intros [?|(q & Hq & Hn)]; [by left|]. right. exists q.
        split; [by right | done].
      * intros [?|(q & [->|Hq]%elem_of_cons & Hn)]; [by left | done |].
        right. by exists q.
Qed.

(** Whether the loop that files member sets reports a change. *)
Lemma file_playlists_changed (old : gmap Z (gset Z)) (l : list (Z * gset Z))
    changed s changed' s' :
  fold_each l changed
    (λ changed '(playlist_id, item_ids),
       (if decide (Some item_ids ≠ old !! playlist_id) then
          modify (set_playlist_item_map <[inl playlist_id := item_ids]>) ;;'
          ret true
        else ret changed)%py) s
  = (Ok changed', s') →
  changed' = true ↔ changed = true
                    ∨ ∃ playlist_id item_ids,
                        (playlist_id, item_ids) ∈ l
                        ∧ Some item_ids ≠ old !! playlist_id.
Proof.
  revert changed s. induction l as [|[p items] rest IH]; intros changed s.
  - cbn. intros [= <- _]. split; [by left|].
    intros [?|(q & i & Hq & _)]; [done|]. by apply elem_of_nil in Hq.
  - cbn [fold_each].
    destruct (decide (Some items ≠ old !! p)) as [Hdiff|Hsame].
    + rewrite (bind_run _ _ s true
                 (set_playlist_item_map <[inl p := items]> s)) by done.
      intros Hrest%IH. rewrite Hrest. split.
      * intros _. right. exists p, items. split; [by left | done].
      * intros _. by left.
    + rewrite (bind_run _ _ s changed s) by done.
      intros Hrest%IH. rewrite Hrest. split.
      * intros [?|(q & i & Hq & Hn)]; [by left|]. right. exists q, i.
        split; [by right | done].
      * intros [?|(q & i & [[= -> ->]|Hq]%elem_of_cons & Hn)];
          [by left | done |].
        right. by exists q, i.
Qed.

(** What the loop that announces the visible playlists collects. *)
Lemma announce_playlists_lists (result : update_result)
    (l : list (Z * daap_dict)) lists s lists' s' :
  NoDup l.*1 →
  fold_each l lists
    (λ '(added, changed) '(daap_id, data),
       (s ←' get;
        if decide (daap_id ∉ current_playlist_ids s) then
          info ←' make_playlist_sharing_info daap_id data;
          modify (set_current_playlist_ids (union {[daap_id]})) ;;'
          ret (added ++ [info], changed)
        else if decide (daap_id ∈ dom (playlists result)) then
          info ←' make_playlist_sharing_info daap_id data;
          ret (added, changed ++ [info])
        else ret (added, changed))%py) s
  = (Ok lists', s') →
  (lists'.1 ≠ [] ↔ lists.1 ≠ []
                   ∨ ∃ daap_id, daap_id ∈ l.*1
                                ∧ daap_id ∉ current_playlist_ids s)
  ∧ (lists'.2 ≠ [] ↔ lists.2 ≠ []
                     ∨ ∃ daap_id, daap_id ∈ l.*1
                                  ∧ daap_id ∈ current_playlist_ids s
                                  ∧ daap_id ∈ dom (playlists result)).
Proof.
  revert lists s. induction l as [|[daap_id data] rest IH];
    intros [added changed] s Hnodup.
  - cbn. intros [= <- _]. cbn. split; (split; [by left|]).
    + intros [?|(q & Hq & _)]; [done|]. by apply elem_of_nil in Hq.
    + intros [?|(q & Hq & _)]; [done|]. by apply elem_of_nil in Hq.
  - cbn [fold_each]. cbn [fmap list_fmap] in Hnodup.
    apply NoDup_cons in Hnodup as [Hfresh Hnodup]. intros Hrun.
    apply bind_ok in Hrun as ([added1 changed1] & s1 & Hhead & Hrest).
    apply (IH _ _ Hnodup) in Hrest as [Hadd Hchg]. cbn [fst snd] in *.
    cbv beta iota in Hhead. unfold bind at 1, get in Hhead.
    assert (∀ info : playlist_info, added ++ [info] ≠ []) as Hsnoc
      by (intros info Hnil; by apply app_eq_nil in Hnil as [_ ?]).
    assert (∀ info : playlist_info, changed ++ [info] ≠ []) as Hsnoc'
      by (intros info Hnil; by apply app_eq_nil in Hnil as [_ ?]).
    destruct (decide (daap_id ∉ current_playlist_ids s)) as [Hnew|Hold].
    + apply bind_ok in Hhead as (info & s0 & Hinfo & Hhead).
      assert (s0 = s) as ->.
      { unfold make_playlist_sharing_info, bind, get, subscript in Hinfo.
        destruct (data !! "dmap.itemname"%string); [|discriminate].
        by injection Hinfo as _ <-. }
      injection Hhead as <- <- <-. split.
      * rewrite Hadd. split; [|intros _; left; apply Hsnoc].
        intros _. right. exists daap_id. split; [by left | done].
      * rewrite Hchg. cbn [current_playlist_ids set_current_playlist_ids].
        split.
        -- intros [?|(q & Hq & Hin & Hres)]; [by left|]. right. exists q.
           split; [by right|]. split; [|done].
           apply elem_of_union in Hin as [->%elem_of_singleton|?]; done.
        -- intros [?|(q & [->|Hq]%elem_of_cons & Hin & Hres)];
             [by left | done |].
           right. exists q. split; [done|]. split; [|done].
           by apply elem_of_union_r.
    + apply dec_stable in Hold.
      destruct (decide (daap_id ∈ dom (playlists result))) as [Hin|Hout].
      * apply bind_ok in Hhead as (info & s0 & Hinfo & Hhead).
        assert (s0 = s) as ->.
        { unfold make_playlist_sharing_info, bind, get, subscript in Hinfo.
          destruct (data !! "dmap.itemname"%string); [|discriminate].
          by injection Hinfo as _ <-. }
        injection Hhead as <- <- <-. split.
        -- rewrite Hadd. split.
           ++ intros [?|(q & Hq & Hn)]; [by left|]. right. exists q.
              split; [by right | done].
           ++ intros [?|(q & [->|Hq]%elem_of_cons & Hn)]; [by left | done |].
              right. by exists q.
        -- rewrite Hchg. split; [|intros _; left; apply Hsnoc'].
           intros _. right. exists daap_id. split; [by left | done].
      * injection Hhead as <- <- <-. split.
        -- rewrite Hadd. split.
           ++ intros [?|(q & Hq & Hn)]; [by left|]. right. exists q.
              split; [by right | done].
           ++ intros [?|(q & [->|Hq]%elem_of_cons & Hn)]; [by left | done |].
              right. by exists q.
        -- rewrite Hchg. split.
           ++ intros [?|(q & Hq & Hn)]; [by left|]. right. exists q.
              split; [by right | done].
           ++ intros [?|(q & [->|Hq]%elem_of_cons & ? & ?)];
                [by left | done |].
              right. by exists q.
Qed.

(** [update_playlists] once the tracker has been updated: the playlist map
    follows the tracker, the visible playlists are announced, and what is
    left is the recomputation of the virtual playlists and the message. *)
Lemma update_playlists_unfold result s s1 :
  tracker_update result s = (Ok tt, s1) →
  ∃ f lists changed,
    update_playlists result s
    = (let current := current_playlists s1 in
       let s5 := set_current_playlist_ids (λ _, dom current)
                   (set_playlist_item_map f s1) in
       let removed := elements (current_playlist_ids s ∖ dom current) in
       ((if changed
            || negb (bool_decide (lists.1 = []))
            || negb (bool_decide (lists.2 = []))
            || negb (bool_decide (removed = []))
         then emit (PlaylistChanged (share_id s1)) ;;' update_fake_playlists
         else ret tt) ;;'
        emit (TabsChanged lists.1 lists.2 removed))%py s5)
    ∧ (∀ m playlist_id,
         f m !! inl playlist_id
         = match tracker_items s1 !! playlist_id with
           | Some item_ids =>
               if decide (Some item_ids ≠ tracker_items s !! playlist_id)
               then Some item_ids else m !! inl playlist_id
           | None =>
               if decide (playlist_id ∈ dom (tracker_items s))
               then None else m !! inl playlist_id
           end)
    ∧ (∀ m name, f m !! inr name = m !! inr name)
    ∧ (changed = true ↔ tracker_items s1 ≠ tracker_items s)
    ∧ (lists.1 ≠ [] ↔
       ∃ daap_id, daap_id ∈ dom (current_playlists s1)
                  ∧ daap_id ∉ current_playlist_ids s)
    ∧ (lists.2 ≠ [] ↔
       ∃ daap_id, daap_id ∈ dom (current_playlists s1)
                  ∧ daap_id ∈ current_playlist_ids s
                  ∧ daap_id ∈ dom (playlists result)).
Proof.
  intros Hupd.
  destruct (tracker_update_frames result) as (_ & Hids & _).
  pose proof (preserves_run _ _ _ _ _ Hids Hupd) as Hids1.
  destruct (forget_playlists_run (tracker_items s1)
              (map_to_list (tracker_items s)) false s1)
    as (c1 & f1 & Hrun1 & Hinl1 & Hinr1).
  destruct (file_playlists_run (tracker_items s)
              (map_to_list (tracker_items s1)) c1
              (set_playlist_item_map f1 s1) (NoDup_fst_map_to_list _))
    as (c2 & f2 & Hrun2 & Hinl2 & Hinr2).
  destruct (announce_playlists_run result
              (map_to_list (current_playlists s1)) ([], [])
              (set_playlist_item_map f2 (set_playlist_item_map f1 s1))
              (current_playlists_named s1))
    as (lists & Hrun3).
  pose proof (forget_playlists_changed _ _ _ _ _ _ Hrun1) as Hc1.
  pose proof (file_playlists_changed _ _ _ _ _ _ Hrun2) as Hc2.
  destruct (announce_playlists_lists _ _ _ _ _ _
              (NoDup_fst_map_to_list _) Hrun3) as [Hadded Hchanged].
  cbn [fst snd current_playlist_ids set_playlist_item_map] in Hadded, Hchanged.
  rewrite Hids1 in Hadded, Hchanged.
  assert (∀ daap_id, daap_id ∈ (map_to_list (current_playlists s1)).*1
                     ↔ daap_id ∈ dom (current_playlists s1)) as Hvisible.
  { intros daap_id. by rewrite <- keys_of_map_to_list, elem_of_list_to_set. }
  exists (f2 ∘ f1), lists, c2. split; [|split; [|split; [|split; [|split]]]].
  - unfold update_playlists.
    rewrite (bind_run _ _ s s s) by reflexivity.
    rewrite (bind_run _ _ _ _ _ Hupd).
    rewrite (bind_run _ _ s1 s1 s1) by reflexivity. cbv zeta.
    rewrite (bind_run _ _ _ _ _ Hrun1).
    rewrite (bind_run _ _ _ _ _ Hrun2).
    rewrite (bind_run _ _ _ _ _ Hrun3).
    match goal with |- bind get _ ?s4 = _ =>
      rewrite (bind_run _ _ s4 s4 s4) by reflexivity
    end.
    match goal with |- bind (modify ?g) _ ?s4 = _ =>
      rewrite (bind_run _ _ s4 tt (g s4)) by reflexivity
    end.
    assert (current_playlist_ids
              (set_current_playlist_ids
                 (λ ids, list_to_set (map_to_list (current_playlists s1)).*1 ∪ ids)
                 (set_playlist_item_map f2 (set_playlist_item_map f1 s1)))
            ∖ dom (current_playlists s1)
            = current_playlist_ids s ∖ dom (current_playlists s1)) as ->.
    { cbn. rewrite keys_of_map_to_list, Hids1.
      apply set_eq. intros x.
      rewrite !elem_of_difference, elem_of_union. split.
      - intros [[?|?] ?]; done.
      - intros [? ?]. auto. }
    by destruct s1.
  - intros m playlist_id. simpl. rewrite Hinl2, Hinl1.
    rewrite list_to_map_to_list.
    assert (playlist_id ∈ (map_to_list (tracker_items s)).*1
            ↔ playlist_id ∈ dom (tracker_items s)) as Hkeys.
    { by rewrite <- keys_of_map_to_list, elem_of_list_to_set. }
    destruct (tracker_items s1 !! playlist_id) as [item_ids|] eqn:Hnew.
    + rewrite (decide_False (P := _ ∧ _)); [done|].
      intros [_ Hgone]. apply Hgone. apply elem_of_dom. eauto.
    + destruct (decide (playlist_id ∈ dom (tracker_items s))) as [Hold|Hold].
      * rewrite decide_True; [done|]. split; [by apply Hkeys|].
        by apply not_elem_of_dom.
      * rewrite decide_False; [done|]. intros [Hin _]. by apply Hold, Hkeys.
  - intros m name. simpl. by rewrite Hinr2, Hinr1.
  - split.
    + intros Hc. apply Hc2 in Hc as [Hc|(p & item_ids & Hin & Hdiff)].
      * apply Hc1 in Hc as [?|(p & Hp & Hgone)]; [done|].
        intros Heq. apply Hgone. rewrite Heq.
        apply list_elem_of_fmap in Hp as ([p' old] & -> & Hin).
        apply elem_of_map_to_list in Hin. apply elem_of_dom. eauto.
      * intros Heq. apply elem_of_map_to_list in Hin. apply Hdiff.
        by rewrite <- Heq.
    + intros Hdiff. destruct c2; [done|]. exfalso.
      assert (¬ (c1 = true
                 ∨ ∃ p item_ids, (p, item_ids) ∈ map_to_list (tracker_items s1)
                                 ∧ Some item_ids ≠ tracker_items s !! p))
        as Hsame by (intros Hc; by apply Hc2 in Hc).
      assert (¬ ∃ p, p ∈ (map_to_list (tracker_items s)).*1
                     ∧ p ∉ dom (tracker_items s1)) as Hkept.
      { intros Hgone. apply Hsame. left. apply Hc1. by right. }
      apply Hdiff. apply map_eq. intros p.
      destruct (tracker_items s1 !! p) as [item_ids|] eqn:Hp.
      * destruct (decide (Some item_ids = tracker_items s !! p)) as [|Hne];
          [done|].
        exfalso. apply Hsame. right. exists p, item_ids.
        split; [by apply elem_of_map_to_list | done].
      * destruct (tracker_items s !! p) as [old|] eqn:Hold; [|done].
        exfalso. apply Hkept. exists p. split.
        -- apply list_elem_of_fmap. exists (p, old).
           split; [done|]. by apply elem_of_map_to_list.
        -- by apply not_elem_of_dom.
  - rewrite Hadded. split.
    + intros [?|(daap_id & Hin & Hnew)]; [done|].
      exists daap_id. split; [by apply Hvisible | done].
    + intros (daap_id & Hin & Hnew). right. exists daap_id.
      split; [by apply Hvisible | done].
  - rewrite Hchanged. split.
    + intros [?|(daap_id & Hin & Hold & Hres)]; [done|].
      exists daap_id. split; [by apply Hvisible | done].
    + intros (daap_id & Hin & Hold & Hres). right. exists daap_id.
      split; [by apply Hvisible | done].
Qed.


Lemma current_playlists_ext s1 s2 :
  playlist_data s1 = playlist_data s2 →
  tracker_items s1 = tracker_items s2 →
  current_playlists s1 = current_playlists s2.
Proof.
  intros Hdata Hitems. unfold current_playlists. rewrite Hdata.
  apply map_filter_ext. intros i x _. unfold has_members. by rewrite Hitems.
Qed.

(** What a merge of playlists that returns has done. *)
Lemma update_playlists_ok result s s' :
  update_playlists result s = (Ok tt, s') →
  ∃ s1,
    tracker_update result s = (Ok tt, s1)
    ∧ playlist_data s' = playlist_data s1
    ∧ tracker_items s' = tracker_items s1
    ∧ current_playlist_ids s' = dom (current_playlists s1)
    ∧ ∀ playlist_id,
        playlist_item_map s' !! inl playlist_id
        = match tracker_items s1 !! playlist_id with
          | Some item_ids =>
              if decide (Some item_ids ≠ tracker_items s !! playlist_id)
              then Some item_ids
              else playlist_item_map s !! inl playlist_id
          | None =>
              if decide (playlist_id ∈ dom (tracker_items s))
              then None else playlist_item_map s !! inl playlist_id
          end.
Proof.
  intros Hrun.
  destruct (tracker_update result s) as [[[]|e] s1] eqn:Hupd.
  2:{ unfold update_playlists in Hrun.
      rewrite (bind_run _ _ s s s) in Hrun by reflexivity.
      by rewrite (bind_raise _ _ _ _ _ Hupd) in Hrun. }
  destruct (tracker_update_frames result) as (Hmap & _ & _).
  pose proof (preserves_run _ _ _ _ _ Hmap Hupd) as Hmap1.
  destruct (update_playlists_unfold result s s1 Hupd)
    as (f & lists & changed & Heq & Hinl & Hinr).
  rewrite Heq in Hrun. cbv zeta in Hrun.
  exists s1. split; [done|].
  apply bind_ok in Hrun as ([] & s6 & Hif & Hrun). injection Hrun as <-.
  destruct (_ || _ || _ || _) in Hif.
  - apply bind_ok in Hif as ([] & se & [= <-] & Hfake).
    apply update_fake_playlists_spec in Hfake as (P & Q & -> & _).
    cbn. split; [done|]. split; [done|]. split; [done|].
    intros playlist_id. rewrite !lookup_insert_ne by done.
    by rewrite Hinl, Hmap1.
  - injection Hif as <-. cbn. split; [done|]. split; [done|]. split; [done|].
    intros playlist_id. by rewrite Hinl, Hmap1.
Qed.

(** Once the tracker has been updated and its two dictionaries are over the
    same playlists, the rest of the merge cannot fail. *)
Lemma update_playlists_total result s s1 :
  tracker_update result s = (Ok tt, s1) →
  dom (playlist_data s1) ⊆ dom (tracker_items s1) →
  ∃ s', update_playlists result s = (Ok tt, s').
Proof.
  intros Hupd Hdom.
  destruct (update_playlists_unfold result s s1 Hupd)
    as (f & lists & changed & -> & _). cbv zeta.
  destruct (_ || _ || _ || _).
  - match goal with |- context [bind (bind (emit ?e) _) _ ?s5] =>
      destruct (update_fake_playlists_returns (emit e s5).2) as [s6 Hfake];
        [exact Hdom|];
      rewrite (bind_run _ _ s5 tt s6)
        by (rewrite (bind_run _ _ s5 tt (emit e s5).2) by reflexivity;
            exact Hfake)
    end.
    eauto.
  - eauto.
Qed.

(** When [update_playlists] recomputes: the condition of its [if], read off
    the states before and after the merge. *)
Lemma update_playlists_recomputes result s s1
    (lists : list playlist_info * list playlist_info) (changed : bool) :
  current_playlist_ids s1 = current_playlist_ids s →
  (changed = true ↔ tracker_items s1 ≠ tracker_items s) →
  (lists.1 ≠ [] ↔
   ∃ daap_id, daap_id ∈ dom (current_playlists s1)
              ∧ daap_id ∉ current_playlist_ids s) →
  (lists.2 ≠ [] ↔
   ∃ daap_id, daap_id ∈ dom (current_playlists s1)
              ∧ daap_id ∈ current_playlist_ids s
              ∧ daap_id ∈ dom (playlists result)) →
  let removed :=
    elements (current_playlist_ids s ∖ dom (current_playlists s1)) in
  changed
  || negb (bool_decide (lists.1 = []))
  || negb (bool_decide (lists.2 = []))
  || negb (bool_decide (removed = [])) = true
  ↔ tracker_items s1 ≠ tracker_items s
    ∨ dom (current_playlists s1) ≠ current_playlist_ids s
    ∨ ∃ playlist_id,
        playlist_id ∈ current_playlist_ids s
        ∧ playlist_id ∈ dom (current_playlists s1)
        ∧ playlist_id ∈ dom (playlists result).
Proof.
  intros Hids Hc Hadded Hchanged removed.
  assert (removed ≠ [] ↔
          ∃ daap_id, daap_id ∈ current_playlist_ids s
                     ∧ daap_id ∉ dom (current_playlists s1)) as Hremoved.
  { subst removed. split.
    - intros Hne.
      destruct (elements (current_playlist_ids s ∖ dom (current_playlists s1)))
        as [|daap_id rest] eqn:Hel; [done|].
      exists daap_id. apply elem_of_difference.
      apply elem_of_elements. rewrite Hel. by left.
    - intros (daap_id & Hin & Hout) Hnil.
      apply elements_empty_inv in Hnil.
      assert (daap_id ∈ current_playlist_ids s ∖ dom (current_playlists s1))
        as Hd by (by apply elem_of_difference).
      rewrite Hnil in Hd. by apply elem_of_empty in Hd. }
  rewrite !orb_true_iff, !negb_true_iff, !bool_decide_eq_false.
  rewrite Hc, Hadded, Hchanged, Hremoved. split.
  - intros [[[?|(daap_id & Hin & Hout)]|(daap_id & Hin & Hold & Hres)]
           |(daap_id & Hin & Hout)].
    + by left.
    + right. left. intros Heq. apply Hout. by rewrite <- Heq.
    + right. right. by exists daap_id.
    + right. left. intros Heq. apply Hout. by rewrite Heq.
  - intros [?|[Hne|(daap_id & Hold & Hin & Hres)]].
    + by left; left; left.
    + destruct (set_choose_or_empty
                  (dom (current_playlists s1) ∖ current_playlist_ids s))
        as [[daap_id [Hin Hout]%elem_of_difference]|Hnone].
      { left. left. right. by exists daap_id. }
      destruct (set_choose_or_empty
                  (current_playlist_ids s ∖ dom (current_playlists s1)))
        as [[daap_id [Hin Hout]%elem_of_difference]|Hnone'].
      { right. by exists daap_id. }
      exfalso. apply Hne. apply set_eq. intros daap_id. split.
      * intros Hin.
        destruct (decide (daap_id ∈ current_playlist_ids s)) as [|Hout];
          [done|].
        exfalso. apply (proj1 (elem_of_equiv_empty _) Hnone daap_id).
        by apply elem_of_difference.
      * intros Hin.
        destruct (decide (daap_id ∈ dom (current_playlists s1))) as [|Hout];
          [done|].
        exfalso. apply (proj1 (elem_of_equiv_empty _) Hnone' daap_id).
        by apply elem_of_difference.
    + left. right. by exists daap_id.
Qed.

(** C8, as the code has it.  A merge of playlists that returns has changed
    something when the tracker's member sets are not what they were, when
    the set of visible playlists is not what it was (a playlist was added or
    removed), or when a playlist that was and stays visible is named in the
    result (it was changed).  Exactly then [update_playlists] reports
    [PlaylistChanged] and recomputes: the map holds under ["podcast"] the
    item ids that are members of some podcast-flagged playlist and under
    ["playlist"] those that are members of some playlist without the flag,
    and the two sets are disjoint if and only if no item id is a member both
    of a flagged and of an unflagged playlist.  A merge that changed none of
    these only sends the empty [TabsChanged] and leaves the two virtual
    playlists as they were. *)
Theorem virtual_playlists_after_merge res s s' :
  update_playlists res s = (Ok tt, s') →
  let changed :=
    tracker_items s' ≠ tracker_items s
    ∨ current_playlist_ids s' ≠ current_playlist_ids s
    ∨ ∃ playlist_id,
        playlist_id ∈ current_playlist_ids s
        ∧ playlist_id ∈ current_playlist_ids s'
        ∧ playlist_id ∈ dom (playlists res) in
  (changed →
     (∃ added changed removed,
        trace s' = trace s ++ [PlaylistChanged (share_id s);
                               TabsChanged added changed removed])
     ∧ ∃ P Q : gset Z,
         playlist_item_map s' !! inr "podcast"%string = Some P
         ∧ playlist_item_map s' !! inr "playlist"%string = Some Q
         ∧ (∀ x, x ∈ P ↔ in_flagged s' true x)
         ∧ (∀ x, x ∈ Q ↔ in_flagged s' false x)
         ∧ (P ## Q ↔ ¬ ∃ x, in_flagged s' true x ∧ in_flagged s' false x))
  ∧ (¬ changed →
     trace s' = trace s ++ [TabsChanged [] [] []]
     ∧ playlist_item_map s' !! inr "podcast"%string
       = playlist_item_map s !! inr "podcast"%string
     ∧ playlist_item_map s' !! inr "playlist"%string
       = playlist_item_map s !! inr "playlist"%string).
Proof.
  intros Hrun changed.
  destruct (tracker_update res s) as [[[]|e] s1] eqn:Hupd.
  2:{ unfold update_playlists in Hrun.
      rewrite (bind_run _ _ s s s) in Hrun by reflexivity.
      by rewrite (bind_raise _ _ _ _ _ Hupd) in Hrun. }
  destruct (tracker_update_frames res) as (Hmap & Hids & Htrace).
  pose proof (preserves_run _ _ _ _ _ Hmap Hupd) as Hmap1.
  pose proof (preserves_run _ _ _ _ _ Hids Hupd) as Hids1.
  pose proof (preserves_run _ _ _ _ _ Htrace Hupd) as Htrace1.
  assert (share_id s1 = share_id s) as Hshare.
  { refine (preserves_run share_id _ _ _ _ _ Hupd).
    unfold tracker_update. frame. }
  destruct (update_playlists_unfold res s s1 Hupd)
    as (f & lists & c & Heq & _ & Hinr & Hc & Hadded & Hchanged).
  pose proof (update_playlists_recomputes res s s1 lists c Hids1 Hc Hadded
                Hchanged) as Hwhen. cbv zeta in Hwhen.
  rewrite Heq in Hrun. cbv zeta in Hrun.
  apply bind_ok in Hrun as ([] & s6 & Hif & Hrun). injection Hrun as <-.
  destruct (_ || _ || _ || _) eqn:Hb in Hif.
  - apply bind_ok in Hif as ([] & se & [= <-] & Hfake).
    apply update_fake_playlists_spec in Hfake as (P & Q & -> & HP & HQ).
    split; [|intros Hno; exfalso; apply Hno; subst changed; cbn;
             by apply Hwhen].
    intros _. split.
    { eexists _, _, _. cbn. rewrite Htrace1, Hshare.
      by rewrite <- app_assoc. }
    exists P, Q. cbn [playlist_item_map set_playlist_item_map emit modify snd].
    rewrite lookup_insert_ne by done. rewrite !lookup_insert_eq.
    split; [done|]. split; [done|].
    match type of HP with
    | ∀ x, _ ↔ in_flagged ?se _ _ =>
        match goal with
        | |- context [in_flagged ?sf true _] =>
            assert (∀ flag x, in_flagged sf flag x ↔ in_flagged se flag x)
              as Hext by (intros; apply in_flagged_ext; reflexivity)
        end
    end.
    setoid_rewrite Hext.
    split; [done|]. split; [done|].
    by apply disjoint_iff_no_shared_item.
  - injection Hif as <-.
    split; [intros Hyes; subst changed; cbn in Hyes; apply Hwhen in Hyes;
            congruence|].
    intros _.
    assert (lists.1 = [] ∧ lists.2 = []
            ∧ elements (current_playlist_ids s ∖ dom (current_playlists s1))
              = []) as (Hl1 & Hl2 & Hl3).
    { apply orb_false_iff in Hb as [Hb Hr].
      apply orb_false_iff in Hb as [Hb Hch].
      apply orb_false_iff in Hb as [_ Had].
      apply negb_false_iff, bool_decide_eq_true in Hr, Hch, Had. done. }
    cbn. rewrite Hl1, Hl2, Hl3, Htrace1, !Hinr, Hmap1. done.
Qed.




End PlaylistMerge.

(** ** Importing an item *)

Section ImportFacts.
Import Client.
Context `{Libdaap} `{Codec}.

Lemma assoc_elem_of {A} (table : list (string * A)) k a :
  assoc table k = Some a → (k, a) ∈ table.
Proof.
  induction table as [|[k' a'] rest IH]; simpl; [done|].
  destruct (String.eqb_spec k k') as [->|_].
  - intros [= ->]. by left.
  - intros Hrest. right. by apply IH.
Qed.

Lemma NoDup_snd_injective {A B} (l : list (A * B)) x x' y :
  NoDup l.*2 → (x, y) ∈ l → (x', y) ∈ l → x = x'.
Proof.
  induction l as [|[x0 y0] rest IH]; simpl; [by intros _ ?%elem_of_nil|].
  intros [Hfresh Hnodup]%NoDup_cons.
  intros [Heq|Hin]%elem_of_cons [Heq'|Hin']%elem_of_cons.
  - congruence.
  - injection Heq as -> ->. exfalso. apply Hfresh.
    apply list_elem_of_fmap. by exists (x', y0).
  - injection Heq' as -> ->. exfalso. apply Hfresh.
    apply list_elem_of_fmap. by exists (x, y0).
  - by apply IH.
Qed.

(** No two DAAP keys are imported under the same attribute. *)
Lemma daap_mapping_injective k k' key :
  assoc daap_mapping k = Some key →
  assoc daap_mapping k' = Some key →
  k = k'.
Proof.
  intros Hk%assoc_elem_of Hk'%assoc_elem_of.
  apply (NoDup_snd_injective daap_mapping k k' key); [|done|done].
  apply (bool_decide_unpack _). vm_compute. exact I.
Qed.

Lemma convert_fields_lookup (rawitem : daap_dict) :
  ∀ item_data,
    map_fold convert_field (Ok ∅) rawitem = Ok item_data →
    (∀ k key, assoc daap_mapping k = Some key →
       match rawitem !! k with
       | Some v => ∃ v', item_data !! key = Some v' ∧ match v with
                        | PStr s => ∃ u, utf8_decode s = Some u ∧ v' = PUnicode u
                        | _ => v' = v
                        end
       | None => item_data !! key = None
       end)
    ∧ (∀ key v', item_data !! key = Some v' →
         (∀ s, v' ≠ PStr s) ∧ ∃ k, assoc daap_mapping k = Some key).
Proof.
  apply (map_fold_weak_ind
    (λ acc (m : daap_dict),
       ∀ item_data, acc = Ok item_data →
         (∀ k key, assoc daap_mapping k = Some key →
            match m !! k with
            | Some v => ∃ v', item_data !! key = Some v' ∧ match v with
                        | PStr s => ∃ u, utf8_decode s = Some u ∧ v' = PUnicode u
                        | _ => v' = v
                        end
            | None => item_data !! key = None
            end)
         ∧ (∀ key v', item_data !! key = Some v' →
              (∀ s, v' ≠ PStr s) ∧ ∃ k, assoc daap_mapping k = Some key))).
  - intros d [= <-]. split.
    + intros k key _. by rewrite !lookup_empty.
    + intros key v'. by rewrite lookup_empty.
  - intros k0 v0 m acc Hfresh IH d Hstep.
    unfold convert_field in Hstep.
    destruct acc as [d0|]; [|discriminate].
    destruct (IH d0 eq_refl) as [IH1 IH2].
    destruct (assoc daap_mapping k0) as [key0|] eqn:Hkey0.
    + assert (∃ v0', d = <[key0 := v0']> d0
                     ∧ match v0 with
                       | PStr s => ∃ u, utf8_decode s = Some u ∧ v0' = PUnicode u
                       | _ => v0' = v0
                       end
                     ∧ ∀ s, v0' ≠ PStr s) as (v0' & -> & Himp & Hnot).
      { destruct v0; try (injection Hstep as <-; eexists; split; [done|];
                          split; [done|]; done).
        destruct (utf8_decode s) as [u|] eqn:Hu; [|discriminate].
        injection Hstep as <-. exists (PUnicode u).
        split; [done|]. split; [by exists u | done]. }
      split.
      * intros k key Hkey. destruct (decide (k = k0)) as [->|Hne].
        -- rewrite lookup_insert_eq. assert (key = key0) as -> by congruence.
           exists v0'. by rewrite lookup_insert_eq.
        -- rewrite lookup_insert_ne by done.
           assert (key ≠ key0) as Hkne.
           { intros ->. apply Hne. by apply (daap_mapping_injective _ _ key0). }
           specialize (IH1 k key Hkey). rewrite lookup_insert_ne by done.
           exact IH1.
      * intros key v'. destruct (decide (key = key0)) as [->|Hne].
        -- rewrite lookup_insert_eq. intros [= <-]. eauto.
        -- rewrite lookup_insert_ne by done. apply IH2.
    + injection Hstep as <-. split; [|exact IH2].
      intros k key Hkey. destruct (decide (k = k0)) as [->|Hne]; [congruence|].
      rewrite lookup_insert_ne by done. by apply IH1.
Qed.

Lemma video_path_not_mapped k :
  assoc daap_mapping k ≠ Some "video_path"%string.
Proof.
  intros Hk%assoc_elem_of.
  assert ("video_path"%string ∉ daap_mapping.*2) as Hno
    by (apply (bool_decide_unpack _); vm_compute; exact I).
  apply Hno, list_elem_of_fmap. by exists (k, "video_path"%string).
Qed.

(** A conversion that returns has found the id and the path, and has built
    its dictionary from that of the attribute loop. *)
Lemma convert_ok rawitem result item_data :
  convert_raw_sharing_item rawitem result = Ok item_data →
  ∃ d daap_id path,
    map_fold convert_field (Ok ∅) rawitem = Ok d
    ∧ d !! "daap_id"%string = Some (PInt daap_id)
    ∧ item_paths result !! daap_id = Some path
    ∧ item_data !! "video_path"%string = Some (PUnicode path)
    ∧ item_data !! "file_type"%string
      = Some (PUnicode (match d !! "file_type"%string with
                        | Some v =>
                            if py_eq_int v DAAP_MEDIAKIND_TV
                               || py_eq_int v DAAP_MEDIAKIND_MOVIE
                               || py_eq_int v DAAP_MEDIAKIND_VIDEO
                            then "video"%string else "audio"%string
                        | None => "audio"%string
                        end))
    ∧ item_data !! "kind"%string
      = match d !! "kind"%string ≫= itemkind_rlookup with
        | Some kind => Some (PUnicode kind)
        | None => d !! "kind"%string
        end
    ∧ ∀ key, key ≠ "kind"%string → key ≠ "file_type"%string →
             key ≠ "video_path"%string → item_data !! key = d !! key.
Proof.
  unfold convert_raw_sharing_item. intros Hconv.
  destruct (map_fold convert_field (Ok ∅) rawitem) as [d|]; [|discriminate].
  set (d' := match d !! "kind"%string ≫= itemkind_rlookup with
             | Some kind => <["kind"%string := PUnicode kind]> d
             | None => d
             end) in *.
  assert (∀ key, key ≠ "kind"%string → d' !! key = d !! key) as Hd'.
  { intros key Hne. subst d'.
    destruct (d !! "kind"%string ≫= itemkind_rlookup); [|done].
    by rewrite lookup_insert_ne. }
  rewrite lookup_insert_ne, Hd' in Hconv by done.
  destruct (d !! "daap_id"%string) as [daap_id|] eqn:Hid; [|discriminate].
  destruct (get_item_path result daap_id) as [path|] eqn:Hpath; [|discriminate].
  injection Hconv as <-.
  unfold get_item_path in Hpath.
  destruct daap_id as [| |z| |]; try discriminate.
  destruct (item_paths result !! z) as [p|] eqn:Hp; [|discriminate].
  injection Hpath as <-.
  exists d, z, p.
  split; [done|]. split; [done|]. split; [done|].
  split; [by rewrite lookup_insert_ne, lookup_insert_eq|].
  split.
  { rewrite lookup_insert_eq. unfold pick_file_type.
    rewrite Hd' by done. destruct (d !! "file_type"%string) as [v|]; [|done].
    by destruct (py_eq_int v DAAP_MEDIAKIND_AUDIO). }
  split.
  { rewrite !lookup_insert_ne by done. subst d'.
    destruct (d !! "kind"%string ≫= itemkind_rlookup) eqn:Hkind;
      [|done]. by rewrite lookup_insert_eq. }
  intros key Hk Hf Hv. rewrite !lookup_insert_ne by done. by apply Hd'.
Qed.



End ImportFacts.


(** *** The theorems above at work on the sample library *)

Lemma remote_fetched :
  ClientUpdateResult.init Sample.remote
  = ClientUpdateResult.Fetched Sample.fetched.
Proof. vm_compute. reflexivity. Qed.



Lemma snapshot_merged :
  let run := Client.update_playlists Sample.snapshot Sample.client_start in
  run = (Ok tt, run.2).
Proof. intros run. apply run_eta. vm_compute. reflexivity. Qed.

(** The snapshot of the sample session, merged into a fresh session: two
    playlists become visible. *)
Lemma virtual_playlists_after_merge_witness :
  let run := Client.update_playlists Sample.snapshot Sample.client_start in
  run = (Ok tt, run.2)
  ∧ Client.current_playlist_ids run.2
    ≠ Client.current_playlist_ids Sample.client_start
  ∧ ∃ P Q : gset Z,
      Client.playlist_item_map run.2 !! inr "podcast"%string = Some P
      ∧ Client.playlist_item_map run.2 !! inr "playlist"%string = Some Q
      ∧ (∀ x, x ∈ P ↔ Client.in_flagged run.2 true x)
      ∧ (∀ x, x ∈ Q ↔ Client.in_flagged run.2 false x)
      ∧ (P ## Q ↔ ¬ ∃ x, Client.in_flagged run.2 true x
                         ∧ Client.in_flagged run.2 false x).
Proof.
  intros run.
  assert (Client.current_playlist_ids run.2
          ≠ Client.current_playlist_ids Sample.client_start) as Hvisible.
  { intros Heq.
    assert (2 ∈ Client.current_playlist_ids run.2) as Hin
      by (apply (bool_decide_unpack _); vm_compute; exact I).
    rewrite Heq in Hin. unfold Sample.client_start in Hin.
    cbn [Client.current_playlist_ids] in Hin. by apply elem_of_empty in Hin. }
  split; [exact snapshot_merged|]. split; [exact Hvisible|].
  destruct (virtual_playlists_after_merge Sample.snapshot Sample.client_start
              run.2 snapshot_merged) as [Hyes _].
  destruct (Hyes (or_intror (or_introl Hvisible))) as [_ Hsets].
  exact Hsets.
Defined.



Lemma song_converted :
  let data := @Client.convert_raw_sharing_item Sample.itunes_kinds Sample.ascii
                (Sample.song 7 5000) Sample.snapshot in
  data = Ok (match data with Ok d => d | Raise _ => ∅ end).
Proof. intros data. apply ok_eta. vm_compute. reflexivity. Qed.



(** * The rest of the shares and of the tracker *)

(** ** Looking for a database path *)

Section ShareSlots.
Import Share.

(** The probe over a run of indices: it stops at the first index whose path
    is not in use and is not an existing file that cannot be removed. *)
Lemma probe_seq sd w a n :
  let free := λ i, (candidate sd i ∉ used_db_paths w)
                   ∧ ¬ (candidate sd i ∈ files w
                        ∧ candidate sd i ∈ undeletable w) in
  (∃ i, (a ≤ i < a + n)%nat ∧ free i
        ∧ (∀ j, (a ≤ j < i)%nat → ¬ free j)
        ∧ probe sd (seq a n) w
          = (Ok (candidate sd i, candidate sd i),
             World (used_db_paths w) ({[candidate sd i]} ∪ files w)
               (undeletable w)))
  ∨ ((∀ i, (a ≤ i < a + n)%nat → ¬ free i)
     ∧ probe sd (seq a n) w = (Raise AssertionError, w)).
Proof.
  intros free. revert a. induction n as [|n IH]; intros a.
  { right. split; [intros i; lia | done]. }
  assert (¬ free a →
          probe sd (seq a (S n)) w = probe sd (seq (S a) n) w →
          (∃ i, (a ≤ i < a + S n)%nat ∧ free i
                ∧ (∀ j, (a ≤ j < i)%nat → ¬ free j)
                ∧ probe sd (seq a (S n)) w
                  = (Ok (candidate sd i, candidate sd i),
                     World (used_db_paths w) ({[candidate sd i]} ∪ files w)
                       (undeletable w)))
          ∨ ((∀ i, (a ≤ i < a + S n)%nat → ¬ free i)
             ∧ probe sd (seq a (S n)) w = (Raise AssertionError, w)))
    as Hskip.
  { intros Hbusy ->.
    destruct (IH (S a)) as [(i & Hi & Hfree & Hfirst & Hrun)|[Hnone Hrun]].
    - left. exists i. split; [lia|]. split; [done|]. split; [|done].
      intros j Hj. destruct (decide (j = a)) as [->|]; [done|].
      apply Hfirst. lia.
    - right. split; [|done]. intros i Hi.
      destruct (decide (i = a)) as [->|]; [done|]. apply Hnone. lia. }
  assert (free a →
          probe sd (seq a (S n)) w
          = (Ok (candidate sd a, candidate sd a),
             World (used_db_paths w) ({[candidate sd a]} ∪ files w)
               (undeletable w)) →
          ∃ i, (a ≤ i < a + S n)%nat ∧ free i
               ∧ (∀ j, (a ≤ j < i)%nat → ¬ free j)
               ∧ probe sd (seq a (S n)) w
                 = (Ok (candidate sd i, candidate sd i),
                    World (used_db_paths w) ({[candidate sd i]} ∪ files w)
                      (undeletable w))) as Htake.
  { intros Hfree Hrun. exists a. split; [lia|]. split; [exact Hfree|].
    split; [|exact Hrun]. intros j Hj. lia. }
  destruct (decide (candidate sd a ∈ used_db_paths w)) as [Hused|Hunused].
  { apply Hskip; [|by cbn [seq probe]; rewrite decide_True].
    intros [? _]. done. }
  destruct (decide (candidate sd a ∈ files w)) as [Hfile|Hnofile].
  - unfold os_remove.
    destruct (decide (candidate sd a ∈ undeletable w)) as [Hstuck|Hloose].
    + apply Hskip; [intros [_ Hno]; by apply Hno|].
      cbn [seq probe]. rewrite decide_False, decide_True by done.
      unfold os_remove. by rewrite decide_True.
    + left. apply Htake; [split; [done|]; by intros [_ ?]|].
      cbn [seq probe]. rewrite decide_False, decide_True by done.
      unfold os_remove. rewrite decide_False by done.
      cbn. do 2 f_equal. apply set_eq. intros x.
      rewrite !elem_of_union, elem_of_difference, elem_of_singleton.
      destruct (decide (x = candidate sd a)); tauto.
  - left. apply Htake; [split; [done|]; by intros [? _]|].
    cbn [seq probe]. by rewrite !decide_False.
Qed.

(** [__init__] raises nothing but the [AssertionError] of the probe. *)
Lemma init_outcome sd i n h p w :
  (∃ sh w', init sd i n h p w = (Ok sh, w')
            ∧ id sh = i ∧ name sh = n ∧ host sh = h ∧ port sh = p)
  ∨ init sd i n h p w = (Raise AssertionError, w).
Proof.
  unfold init, find_unused_db.
  destruct (probe_seq sd w 0 300) as [(k & _ & _ & _ & Hrun)|[_ Hrun]].
  - left. eexists _, _. rewrite (bind_run _ _ _ _ _ Hrun). by cbn.
  - right. by rewrite (bind_raise _ _ _ _ _ Hrun).
Qed.


Lemma candidate_not_empty sd i : String.eqb (candidate sd i) "" = false.
Proof.
  unfold candidate, os_path_join.
  destruct sd as [|c sd]; [done|].
  cbn [String.eqb]. by destruct (String.eqb _ "/").
Qed.

Lemma find_unused_db_candidate sd w c d w' :
  find_unused_db sd w = (Ok (c, d), w') →
  String.eqb c "" = false ∧ d = c ∧ files w' = {[c]} ∪ files w
  ∧ undeletable w' = undeletable w.
Proof.
  unfold find_unused_db.
  destruct (probe_seq sd w 0 300) as [(i & _ & _ & _ & ->)|[_ ->]];
    [|discriminate].
  intros [= <- <- <-]. split; [apply candidate_not_empty | done].
Qed.

Lemma destroy_run sh w c :
  db_path sh = Some c →
  String.eqb c "" = false →
  destroy sh w
  = (Ok (Make (id sh) (name sh) (host sh) (port sh) None None),
     if decide (c ∈ undeletable w) then w
     else World (used_db_paths w) (files w ∖ {[c]}) (undeletable w)).
Proof.
  intros Hp Hc. unfold destroy, bind, fileutil_delete, ret. rewrite Hp, Hc.
  by destruct (decide (c ∈ undeletable w)).
Qed.

Lemma destroy_again sh w :
  db_path sh = None →
  destroy sh w = (Ok (Make (id sh) (name sh) (host sh) (port sh) None None), w).
Proof. intros Hp. unfold destroy, bind, ret. by rewrite Hp. Qed.


End ShareSlots.

(** ** The tracker's books *)

Section TrackerBooks.
Import Tracker.
Context `{Runtime}.

(** What the loop over [available_shares] finds is an entry of it. *)
Lemma find_mounted_Some h p s k info :
  find_mounted h p s = Some (k, info) →
  available_shares s !! k = Some info
  ∧ mount info = true ∧ host info = h ∧ port info = p.
Proof.
  unfold find_mounted. intros Hfound.
  destruct (list_find _ _) as [[i [k' info']]|] eqn:Hfind; [|discriminate].
  injection Hfound as -> ->.
  apply list_find_Some in Hfind as (Hlook & Hp & _).
  split; [|exact Hp].
  apply elem_of_map_to_list. by eapply list_elem_of_lookup_2.
Qed.

(** A [removed] event for a name that is not bound changes nothing. *)
Lemma removed_unknown_run fullname h p s :
  name_to_id_map s !! fullname = None →
  mdns_callback_backend false fullname h p s = (Ok tt, s).
Proof.
  intros Hname. unfold mdns_callback_backend, resolve_share_id, bind, get.
  destruct (String.eqb fullname (own_name s)); [done|]. by rewrite Hname.
Qed.

(** A [removed] event for a name whose id is still bound to another name
    only drops the name. *)
Lemma removed_renamed_run fullname h p s sid :
  fullname ≠ own_name s →
  name_to_id_map s !! fullname = Some sid →
  sid ∈ (map_to_list (delete fullname (name_to_id_map s))).*2 →
  mdns_callback_backend false fullname h p s
  = (Ok tt, set_names (delete fullname) s).
Proof.
  intros Hne Hname Hbound. apply String.eqb_neq in Hne.
  unfold mdns_callback_backend, resolve_share_id, bind, get, modify, ret.
  rewrite Hne, Hname. cbn [name_to_id_map set_names].
  by rewrite decide_True.
Qed.

(** An info that is replaced under its own key, with the same host and
    port, leaves the books as they were. *)
Lemma consistent_update s s' k info info' :
  consistent s →
  available_shares s !! k = Some info →
  host info' = host info → port info' = port info →
  shares s' = shares s →
  available_shares s' = <[k := info']> (available_shares s) →
  (∀ n sid, name_to_id_map s' !! n = Some sid →
            sid ∈ dom (available_shares s)) →
  consistent s'.
Proof.
  intros (Hdom & Hkeys & Hnames) Hk Hhost Hport Hshares Hav Hnames'.
  assert (dom (available_shares s') = dom (available_shares s)) as Hsame.
  { rewrite Hav. apply dom_insert_lookup_L. eauto. }
  split; [|split].
  - by rewrite Hshares, Hsame.
  - intros k' i. rewrite Hav. destruct (decide (k' = k)) as [->|Hne].
    + rewrite lookup_insert_eq. intros [= <-]. rewrite Hhost, Hport.
      by apply Hkeys.
    + rewrite lookup_insert_ne by done. apply Hkeys.
  - intros n sid Hn. rewrite Hsame. by apply (Hnames' n).
Qed.

Lemma names_after_added s fullname sid :
  consistent s →
  sid ∈ dom (available_shares s) →
  ∀ n i, <[fullname := sid]> (name_to_id_map s) !! n = Some i →
         i ∈ dom (available_shares s).
Proof.
  intros (_ & _ & Hnames) Hsid n i.
  destruct (decide (n = fullname)) as [->|Hne].
  - rewrite lookup_insert_eq. by intros [= <-].
  - rewrite lookup_insert_ne by done. apply Hnames.
Qed.

(** The rename path of an [added] event. *)
Lemma added_mounted_consistent fullname h p s k info :
  fullname ≠ own_name s →
  consistent s →
  find_mounted h p s = Some (k, info) →
  ∃ s', mdns_callback_backend true fullname h p s = (Ok tt, s')
        ∧ consistent s' ∧ trackers s' = trackers s.
Proof.
  intros Hne Hs Hfound.
  destruct (find_mounted_Some _ _ _ _ _ Hfound) as (Hk & _ & Hh & Hp).
  assert (compute_share_id h p = k) as Hsid.
  { destruct Hs as (_ & Hkeys & _). rewrite <- Hh, <- Hp. by apply Hkeys. }
  rewrite mdns_added_unfold by done.
  unfold on_added, bind at 1, get.
  change (find_mounted h p (set_names _ s)) with (find_mounted h p s).
  rewrite Hfound. unfold cancel_stale.
  destruct info as [i n ho po mo av [t|] u]; cbn.
  - eexists. split; [done|]. split; [|done].
    apply (consistent_update s _ k (Info i n ho po mo av (Some t) u)
             (Info i fullname ho po mo av None u)); try done.
    + cbn. by rewrite insert_insert_eq.
    + cbn. rewrite Hsid. apply names_after_added; [done|].
      apply elem_of_dom. eauto.
  - eexists. split; [done|]. split; [|done].
    apply (consistent_update s _ k (Info i n ho po mo av None u)
             (Info i fullname ho po mo av None u)); try done.
    cbn. rewrite Hsid. apply names_after_added; [done|].
    apply elem_of_dom. eauto.
Qed.

(** An [added] event for a share that is on file and not mounted: the name
    is updated, and the frontend is told when the share is available. *)
Lemma added_known_run fullname h p s info :
  fullname ≠ own_name s →
  find_mounted h p s = None →
  available_shares s !! compute_share_id h p = Some info →
  let sid := compute_share_id h p in
  let named := with_name fullname info in
  let s1 := set_available <[sid := named]>
              (set_names <[fullname := sid]> s) in
  mdns_callback_backend true fullname h p s
  = if share_available info then
      (cancelled ←' cancel_stale sid named;
       send_to_frontend (TabsChanged [] [cancelled] []))%py s1
    else (Ok tt, s1).
Proof.
  intros Hne Hnone Hinfo sid named s1. rewrite mdns_added_unfold by done.
  unfold on_added, bind at 1, get.
  change (find_mounted h p (set_names _ s)) with (find_mounted h p s).
  rewrite Hnone. cbn [available_shares set_names]. rewrite Hinfo.
  unfold bind at 1, modify.
  change (share_available (with_name fullname info))
    with (share_available info).
  by destruct (share_available info).
Qed.

Lemma added_known_consistent fullname h p s info :
  fullname ≠ own_name s →
  consistent s →
  find_mounted h p s = None →
  available_shares s !! compute_share_id h p = Some info →
  let run := mdns_callback_backend true fullname h p s in
  run.1 = Ok tt ∧ consistent run.2 ∧ trackers run.2 = trackers s
  ∧ shares run.2 = shares s ∧ test_connects run.2 = test_connects s
  ∧ world run.2 = world s.
Proof.
  intros Hne Hs Hnone Hinfo run. subst run.
  rewrite (added_known_run _ _ _ _ info) by done. cbv zeta.
  assert (∀ n i, <[fullname := compute_share_id h p]> (name_to_id_map s) !! n
                 = Some i → i ∈ dom (available_shares s)) as Hnames.
  { apply names_after_added; [done|]. apply elem_of_dom. eauto. }
  destruct info as [i n ho po mo [|] [t|] u]; cbn.
  - split; [done|]. split; [|done].
    apply (consistent_update s _ (compute_share_id h p)
             (Info i n ho po mo true (Some t) u)
             (Info i fullname ho po mo true None u)); try done.
    cbn. by rewrite insert_insert_eq.
  - split; [done|]. split; [|done].
    by apply (consistent_update s _ (compute_share_id h p)
                (Info i n ho po mo true None u)
                (Info i fullname ho po mo true None u)).
  - split; [done|]. split; [|done].
    by apply (consistent_update s _ (compute_share_id h p)
                (Info i n ho po mo false (Some t) u)
                (Info i fullname ho po mo false (Some t) u)).
  - split; [done|]. split; [|done].
    by apply (consistent_update s _ (compute_share_id h p)
                (Info i n ho po mo false None u)
                (Info i fullname ho po mo false None u)).
Qed.

(** An [added] event for a share that is not on file, when no database
    path can be found. *)
Lemma added_new_fails_run fullname h p s :
  fullname ≠ own_name s →
  find_mounted h p s = None →
  available_shares s !! compute_share_id h p = None →
  Share.init (support_dir s) (compute_share_id h p) fullname h p (world s)
  = (Raise AssertionError, world s) →
  mdns_callback_backend true fullname h p s
  = (Raise AssertionError,
     set_world (world s)
       (set_names <[fullname := compute_share_id h p]> s)).
Proof.
  intros Hne Hnone Hfresh Hinit. rewrite mdns_added_unfold by done.
  unfold on_added, bind at 1, get.
  change (find_mounted h p (set_names _ s)) with (find_mounted h p s).
  rewrite Hnone. cbn [available_shares set_names]. rewrite Hfresh.
  unfold in_world, bind at 1. cbn [world set_names support_dir].
  by rewrite Hinit.
Qed.

Lemma added_new_consistent fullname h p s sh w :
  fullname ≠ own_name s →
  consistent s →
  find_mounted h p s = None →
  available_shares s !! compute_share_id h p = None →
  Share.init (support_dir s) (compute_share_id h p) fullname h p (world s)
  = (Ok sh, w) →
  Share.host sh = h → Share.port sh = p →
  let run := mdns_callback_backend true fullname h p s in
  run.1 = Ok tt ∧ consistent run.2 ∧ trackers run.2 = trackers s.
Proof.
  intros Hne (Hdom & Hkeys & Hnames) Hnone Hfresh Hinit Hh Hp run. subst run.
  rewrite (mdns_added_creates_run _ _ _ _ sh w) by done. cbv zeta.
  split; [done|]. split; [|done].
  split; [|split]; cbn.
  - by rewrite !dom_insert_L, Hdom.
  - intros k info.
    destruct (decide (k = compute_share_id h p)) as [->|Hk].
    + rewrite lookup_insert_eq. intros [= <-]. cbn. by rewrite Hh, Hp.
    + rewrite lookup_insert_ne by done. apply Hkeys.
  - intros n sid. rewrite dom_insert_L.
    destruct (decide (n = fullname)) as [->|Hn].
    + rewrite lookup_insert_eq. intros [= <-].
      apply elem_of_union_l. by apply elem_of_singleton.
    + rewrite lookup_insert_ne by done. intros Hsid.
      apply elem_of_union_r. by eapply Hnames.
Qed.

(** A [removed] event that goes through, while no share has a tracker. *)
Lemma removed_last_consistent fullname h p s sid :
  fullname ≠ own_name s →
  consistent s →
  sid ∉ trackers s →
  name_to_id_map s !! fullname = Some sid →
  (sid ∉ (map_to_list (delete fullname (name_to_id_map s))).*2) →
  let run := mdns_callback_backend false fullname h p s in
  run.1 = Ok tt ∧ consistent run.2 ∧ trackers run.2 = trackers s.
Proof.
  intros Hne (Hdom & Hkeys & Hnames) Htr Hname Hlast run. subst run.
  assert (∀ n, name_to_id_map s !! n = Some sid → n = fullname) as Honly.
  { intros n Hn. destruct (decide (n = fullname)) as [|Hdiff]; [done|].
    exfalso. apply Hlast. apply list_elem_of_fmap. exists (n, sid).
    split; [done|]. apply elem_of_map_to_list.
    by rewrite lookup_delete_ne. }
  assert (is_Some (available_shares s !! sid)) as [victim Hvictim].
  { apply elem_of_dom. by eapply Hnames. }
  assert (is_Some (shares s !! sid)) as [sh Hsh].
  { apply elem_of_dom. rewrite Hdom. apply elem_of_dom. eauto. }
  destruct (removed_unconnected_run fullname h p s sid victim sh)
    as (w' & ->); try done.
  assert (consistent
            (set_shares (delete sid)
               (set_world w'
                  (set_available (delete sid)
                     (set_names (delete fullname) s))))) as Hs'.
  { split; [|split]; cbn.
    - by rewrite !dom_delete_L, Hdom.
    - intros k info [_ Hk]%lookup_delete_Some. by apply Hkeys.
    - intros n i [Hn Hi]%lookup_delete_Some. rewrite dom_delete_L.
      apply elem_of_difference. split; [by eapply Hnames|].
      intros ->%elem_of_singleton. by apply Hn, eq_sym, Honly. }
  destruct (connect_uuid victim); cbn; [done|].
  split; [done|]. split; [|done]. exact Hs'.
Qed.

(** An mDNS event on consistent books, while no share has a tracker:
    it returns and the books stay consistent, or [Share(...)] has found no
    database path. *)
Lemma mdns_callback_consistent added fullname h p s :
  consistent s →
  trackers s = ∅ →
  let run := mdns_callback_backend added fullname h p s in
  (run.1 = Ok tt ∧ consistent run.2 ∧ trackers run.2 = ∅)
  ∨ (added = true ∧ run.1 = Raise AssertionError).
Proof.
  intros Hs Htr run. subst run.
  destruct (decide (fullname = own_name s)) as [->|Hne].
  { left. by rewrite mdns_own_name_ignored. }
  destruct added.
  - destruct (find_mounted h p s) as [[k info]|] eqn:Hfound.
    { left.
      destruct (added_mounted_consistent fullname h p s k info)
        as (s' & -> & ? & Htr'); [done..|].
      cbn. by rewrite Htr'. }
    destruct (available_shares s !! compute_share_id h p) as [info|] eqn:Hav.
    { left. rewrite <- Htr.
      destruct (added_known_consistent fullname h p s info)
        as (? & ? & ? & _); done. }
    destruct (init_outcome (support_dir s) (compute_share_id h p) fullname h p
                (world s)) as [(sh & w & Hinit & _ & _ & Hh & Hp)|Hfail].
    + left. rewrite <- Htr.
      by apply (added_new_consistent _ _ _ _ sh w).
    + right. split; [done|]. by rewrite added_new_fails_run.
  - left. destruct (name_to_id_map s !! fullname) as [sid|] eqn:Hname.
    + destruct (decide (sid ∈ (map_to_list
                                 (delete fullname (name_to_id_map s))).*2))
        as [Hbound|Hlast].
      * rewrite (removed_renamed_run _ _ _ _ sid) by done.
        split; [done|]. split; [|done].
        destruct Hs as (Hdom & Hkeys & Hnames).
        split; [done|]. split; [done|]. cbn.
        intros n i [_ Hn]%lookup_delete_Some. by eapply Hnames.
      * destruct (removed_last_consistent fullname h p s sid)
          as (Hok & Hs' & Htr'); try done.
        { rewrite Htr. apply not_elem_of_empty. }
        split; [done|]. split; [done|]. by rewrite Htr'.
    + by rewrite removed_unknown_run.
Qed.

(** The end of a test connect keeps the books. *)
Lemma finish_test_consistent o sid uuid s :
  consistent s →
  let run := finish_test o sid uuid s in
  run.1 = Ok tt ∧ consistent run.2 ∧ trackers run.2 = trackers s.
Proof.
  intros Hs run. subst run.
  destruct o; cbn [finish_test]; [done| |].
  - unfold try_to_add_failure, bind, get.
    destruct (available_shares s !! sid) as [info|] eqn:Hinfo; [|done].
    destruct (decide (connect_uuid info = Some uuid)); [|done].
    cbn. split; [done|]. split; [|done].
    apply (consistent_update s _ sid info (with_uuid None info)); try done.
    destruct Hs as (_ & _ & Hnames). exact Hnames.
  - unfold try_to_add_success, bind, get.
    destruct (available_shares s !! sid) as [info|] eqn:Hinfo; [|done].
    destruct (decide (connect_uuid info = Some uuid)); [|done].
    cbn. split; [done|]. split; [|done].
    apply (consistent_update s _ sid info
             (with_available true (with_uuid None info))); try done.
    destruct Hs as (_ & _ & Hnames). exact Hnames.
Qed.

Lemma steps_consistent s s' :
  rtc step s s' →
  consistent s → trackers s = ∅ →
  consistent s' ∧ trackers s' = ∅.
Proof.
  induction 1 as [s|s s1 s' Hstep _ IH]; [done|].
  intros Hs Htr. apply IH.
  - destruct Hstep as [added fullname h p s1 Hrun|o sid uuid _].
    + destruct (mdns_callback_consistent added fullname h p s Hs Htr)
        as [(_ & Hs1 & _)|[_ Hfail]].
      * by rewrite Hrun in Hs1.
      * by rewrite Hrun in Hfail.
    + by destruct (finish_test_consistent o sid uuid s Hs) as (_ & ? & _).
  - destruct Hstep as [added fullname h p s1 Hrun|o sid uuid _].
    + destruct (mdns_callback_consistent added fullname h p s Hs Htr)
        as [(_ & _ & Htr1)|[_ Hfail]].
      * by rewrite Hrun in Htr1.
      * by rewrite Hrun in Hfail.
    + destruct (finish_test_consistent o sid uuid s Hs) as (_ & _ & ->).
      exact Htr.
Qed.




End TrackerBooks.

(** ** Edges of the tracker *)

Section TrackerEdges.
Import Tracker.
Context `{Runtime}.

(** [Share(...)] when every one of the 300 paths is taken. *)
Lemma init_exhausted sd i n h p w :
  (∀ k, (k < 300)%nat →
        Share.candidate sd k ∈ Share.used_db_paths w
        ∨ (Share.candidate sd k ∈ Share.files w
           ∧ Share.candidate sd k ∈ Share.undeletable w)) →
  Share.init sd i n h p w = (Raise AssertionError, w).
Proof.
  intros Hfull. unfold Share.init, Share.find_unused_db.
  destruct (probe_seq sd w 0 300) as [(k & Hk & [Hu Hf] & _)|[_ Hrun]].
  - exfalso. destruct (Hfull k) as [?|?]; [lia | done | done].
  - by rewrite (bind_raise _ _ _ _ _ Hrun).
Qed.

(** A [removed] event for a name that leads to no info. *)
Lemma removed_dangling_run fullname h p s sid :
  fullname ≠ own_name s →
  name_to_id_map s !! fullname = Some sid →
  (∀ n, name_to_id_map s !! n = Some sid → n = fullname) →
  available_shares s !! sid = None →
  mdns_callback_backend false fullname h p s
  = (Raise KeyError, set_names (delete fullname) s).
Proof.
  intros Hne Hname Honly Hnone. apply String.eqb_neq in Hne.
  unfold mdns_callback_backend, resolve_share_id, bind, get, modify, ret.
  rewrite Hne, Hname. cbn [name_to_id_map set_names].
  destruct (decide (sid ∈ _)) as [Hin|_].
  { by apply not_bound_elsewhere in Hin. }
  unfold on_removed, bind, get, subscript.
  cbn [trackers set_names available_shares].
  rewrite Hnone. by destruct (decide (sid ∉ trackers s)).
Qed.


(** A [removed] event for a share that has a tracker. *)
Lemma removed_connected_run fullname h p s sid info :
  fullname ≠ own_name s →
  name_to_id_map s !! fullname = Some sid →
  (∀ n, name_to_id_map s !! n = Some sid → n = fullname) →
  sid ∈ trackers s →
  available_shares s !! sid = Some info →
  let dc := next_handle s in
  mdns_callback_backend false fullname h p s
  = (Ok tt,
     set_available <[sid := with_stale (Some dc) info]>
       (set_timers (λ timers,
                      match stale_callback info with
                      | Some old => delete old (<[dc := (sid, info)]> timers)
                      | None => <[dc := (sid, info)]> timers
                      end)
          (bump_handle (set_names (delete fullname) s)))).
Proof.
  intros Hne Hname Honly Htr Hinfo dc. apply String.eqb_neq in Hne.
  unfold mdns_callback_backend, resolve_share_id, bind, get, modify, ret.
  rewrite Hne, Hname. cbn [name_to_id_map set_names].
  destruct (decide (sid ∈ _)) as [Hin|_].
  { by apply not_bound_elsewhere in Hin. }
  unfold on_removed, bind, get, subscript, fresh, modify, ret.
  cbn [trackers set_names available_shares].
  destruct (decide (sid ∉ trackers s)) as [|_]; [done|].
  rewrite Hinfo. by destruct (stale_callback info).
Qed.

Lemma remove_timeout_callback_run sid share_info s victim sh :
  available_shares s !! sid = Some victim →
  shares s !! sid = Some sh →
  ∃ w',
    remove_timeout_callback sid share_info s
    = send_to_frontend (SharingDisappeared share_info)
        (set_shares (delete sid)
           (set_world w' (set_available (delete sid) s))).
Proof.
  intros Hvictim Hshare.
  destruct (destroy_keeps_used sh (world s)) as (w2 & Hrun & _).
  exists w2.
  unfold remove_timeout_callback, destroy_share, bind, get, modify, ret,
    subscript, in_world.
  rewrite Hvictim. cbv [ret raise]. cbn [shares set_available world].
  rewrite Hshare. cbn [shares set_available world].
  by rewrite Hrun.
Qed.


End TrackerEdges.

(** ** Sessions that end and playlists that go *)

Section BackendEndings.
Import Backend.
Context `{Libdaap} `{Codec} `{Platform}.

Lemma finished_callback_run session s :
  finished_callback session s
  = (Ok tt,
     match transcode s !! session with
     | Some job => (emit (Shutdown job) s).2
     | None => s
     end).
Proof.
  unfold finished_callback, bind, get.
  by destruct (transcode s !! session).
Qed.


(** The loop of [handle_playlist_removed]. *)
Lemma playlist_removed_loop (removed : list Z) s :
  ∃ s',
    for_each removed (λ x,
      (s ←' get;
       if decide (x ∈ dom (daap_playlists s)) then
         tombstone ←' deleted_item;
         modify (set_daap_playlists <[x := tombstone]>) ;;'
         modify (set_playlist_item_map (delete x)) ;;'
         modify (set_deleted_item_map (delete x)) ;;'
         emit (StopTrackingItems x)
       else ret tt)%py) s = (Ok tt, s')
    ∧ revision s' = revision s
    ∧ daapitems s' = daapitems s
    ∧ transcode s' = transcode s
    ∧ share_types s' = share_types s
    ∧ (∀ x, daap_playlists s' !! x
            = if decide (x ∈ removed ∧ x ∈ dom (daap_playlists s))
              then Some (Rec ∅ (revision s) false)
              else daap_playlists s !! x)
    ∧ (∀ x, playlist_item_map s' !! x
            = if decide (x ∈ removed ∧ x ∈ dom (daap_playlists s))
              then None else playlist_item_map s !! x)
    ∧ (∀ x, deleted_item_map s' !! x
            = if decide (x ∈ removed ∧ x ∈ dom (daap_playlists s))
              then None else deleted_item_map s !! x).
Proof.
  revert s. induction removed as [|x0 rest IH]; intros s.
  - exists s. split; [done|]. do 4 (split; [done|]).
    split; [|split]; intros x; rewrite decide_False; try done;
      intros [Hin _]; by apply elem_of_nil in Hin.
  - cbn [for_each].
    destruct (decide (x0 ∈ dom (daap_playlists s))) as [Hin|Hout].
    + set (s1 := (emit (StopTrackingItems x0)
                    (set_deleted_item_map (delete x0)
                       (set_playlist_item_map (delete x0)
                          (set_daap_playlists
                             <[x0 := Rec ∅ (revision s) false]> s)))).2).
      rewrite (bind_run _ _ s tt s1)
        by (unfold bind at 1, get; by rewrite decide_True).
      destruct (IH s1) as (s' & -> & Hrev & Hitems & Htr & Hty & Hpl & Hpim & Hdel).
      assert (dom (daap_playlists s1) = dom (daap_playlists s)) as Hdom.
      { subst s1. cbn. apply dom_insert_lookup_L. by apply elem_of_dom. }
      exists s'. split; [done|]. do 4 (split; [done|]).
      split; [|split]; intros x.
      * rewrite Hpl, Hdom. destruct (decide (x = x0)) as [->|Hne].
        -- rewrite (decide_True (P := x0 ∈ x0 :: rest ∧ _))
             by (split; [by left | done]).
           destruct (decide (x0 ∈ rest ∧ _)); [done|].
           subst s1. cbn. by rewrite lookup_insert_eq.
        -- destruct (decide (x ∈ rest ∧ _)) as [[? ?]|Hno].
           ++ rewrite decide_True; [done|]. split; [by right | done].
           ++ rewrite decide_False.
              ** subst s1. cbn. by rewrite lookup_insert_ne.
              ** intros [[?|?]%elem_of_cons ?]; [done|]. by apply Hno.
      * rewrite Hpim, Hdom. destruct (decide (x = x0)) as [->|Hne].
        -- rewrite (decide_True (P := x0 ∈ x0 :: rest ∧ _))
             by (split; [by left | done]).
           destruct (decide (x0 ∈ rest ∧ _)); [done|].
           subst s1. cbn. by rewrite lookup_delete_eq.
        -- destruct (decide (x ∈ rest ∧ _)) as [[? ?]|Hno].
           ++ rewrite decide_True; [done|]. split; [by right | done].
           ++ rewrite decide_False.
              ** subst s1. cbn. by rewrite lookup_delete_ne.
              ** intros [[?|?]%elem_of_cons ?]; [done|]. by apply Hno.
      * rewrite Hdel, Hdom. destruct (decide (x = x0)) as [->|Hne].
        -- rewrite (decide_True (P := x0 ∈ x0 :: rest ∧ _))
             by (split; [by left | done]).
           destruct (decide (x0 ∈ rest ∧ _)); [done|].
           subst s1. cbn. by rewrite lookup_delete_eq.
        -- destruct (decide (x ∈ rest ∧ _)) as [[? ?]|Hno].
           ++ rewrite decide_True; [done|]. split; [by right | done].
           ++ rewrite decide_False.
              ** subst s1. cbn. by rewrite lookup_delete_ne.
              ** intros [[?|?]%elem_of_cons ?]; [done|]. by apply Hno.
    + rewrite (bind_run _ _ s tt s)
        by (unfold bind at 1, get; by rewrite decide_False).
      destruct (IH s) as (s' & -> & Hrev & Hitems & Htr & Hty & Hpl & Hpim & Hdel).
      exists s'. split; [done|]. do 4 (split; [done|]).
      assert (∀ x, (x ∈ x0 :: rest ∧ x ∈ dom (daap_playlists s))
                   ↔ (x ∈ rest ∧ x ∈ dom (daap_playlists s))) as Hsame.
      { intros x. split.
        - intros [[->|?]%elem_of_cons ?]; done.
        - intros [? ?]. split; [by right | done]. }
      split; [|split]; intros x.
      * rewrite Hpl. by rewrite (decide_ext _ _ _ _ (Hsame x)).
      * rewrite Hpim. by rewrite (decide_ext _ _ _ _ (Hsame x)).
      * rewrite Hdel. by rewrite (decide_ext _ _ _ _ (Hsame x)).
Qed.


End BackendEndings.

(** *** The theorems above at work on the sample tracker and catalog *)


Lemma tracker_start_consistent :
  @Tracker.consistent Sample.hash_by_port Sample.tracker_start.
Proof.
  split; [reflexivity|]. split.
  - intros k info. unfold Sample.tracker_start.
    cbn [Tracker.available_shares]. by rewrite lookup_empty.
  - intros n sid. unfold Sample.tracker_start.
    cbn [Tracker.name_to_id_map]. by rewrite lookup_empty.
Qed.

Lemma advertised_run :
  @Tracker.mdns_callback_backend Sample.hash_by_port true "A" "10.0.0.2" 3689
    Sample.tracker_start = (Ok tt, Sample.advertised).
Proof. apply run_eta. vm_compute. reflexivity. Qed.


Lemma advertised_find_mounted :
  Tracker.find_mounted "10.0.0.2" 3689 Sample.advertised = None.
Proof. vm_compute. reflexivity. Qed.

Lemma advertised_info :
  Tracker.available_shares Sample.advertised !! 96311
  = Some (Tracker.Info 96311 "A" "10.0.0.2" 3689 false false None (Some 0%nat)).
Proof. vm_compute. reflexivity. Qed.




